(** * sip-mobile: the shielded-transfer client, its codecs and validators

    A shallow embedding of the protocol-facing code of the sip-mobile
    repository:

    - [src/src/types/seed-vault-lib.d.ts] (second document of the file: the
      SIP privacy program client): [fetchConfig], [buildShieldedTransfer],
      [encodeShieldedTransferData], [getSipPrivacyClient],
      [resetSipPrivacyClient];
    - [src/src/hooks/useSend.ts]: [validateStealthAddress],
      [validateSolanaAddress], [validateAddress], [validateAmount], [send];
    - [src/tests/e2e/flows/scan.test.ts]: [executeScanFlow] and the
      announcement generators;
    - [src/src/utils/security.ts]: PIN format, input sanitising, masking, the
      rate limiter and the session clock;
    - [src/src/hooks/useBiometrics.ts]: PIN storage, verification and lock-out,
      authentication per operation;
    - [src/tests/e2e/helpers/mockRpc.ts] with the claim and send flows of
      [src/unnamed/part_011] and [src/unnamed/part_012];
    - the pure helpers of [src/tests/hooks/useStealth.test.ts],
      [useScanPayments.test.ts] and [useViewingKeys.test.ts];
    - the hex and meta-address helpers of [lib/stealth.ts], whose code is not
      among the sources and which are therefore modelled from the
      specification (each such definition says so).

    Conventions.  A JavaScript string is a [string] (a sequence of 8-bit code
    units); a [Uint8Array]/[Buffer] is a [list byte]; a [number[]] is a
    [list Z]; a [bigint] is a [Z]; a [number] that the code compares or
    multiplies is a binary64 [float]; a call that may throw returns an
    [outcome].  Part I holds the definitions, Part II the properties. *)

From Stdlib Require Import ZArith String Ascii Floats Lia.
From Stdlib.Strings Require Import Byte.
From stdpp Require Import base list strings gmap pretty.

Set Warnings "-inexact-float".
Local Open Scope string_scope.

(* ================================================================== *)
(** * Part I: the model                                                *)
(* ================================================================== *)

(* ------------------------------------------------------------------ *)
(** ** JavaScript values shared by all components                      *)
(* ------------------------------------------------------------------ *)

Module Js.

(** What a [throw] carries: Node's [RangeError] of the buffer accessors and
    of [BigInt(NaN)], or a plain [new Error(msg)]. *)
Inductive JsError : Type :=
| RangeError (what : string)
| Error (msg : string).

(** The result of a call that either returns or throws. *)
Inductive outcome (A : Type) : Type :=
| Returned (a : A)
| Thrown (e : JsError).
Arguments Returned {A} a.
Arguments Thrown {A} e.

Definition bindO {A B} (o : outcome A) (k : A -> outcome B) : outcome B :=
  match o with
  | Returned a => k a
  | Thrown e => Thrown e
  end.

#[global] Instance byte_eq_dec : EqDecision byte := Byte.byte_eq_dec.

(** A byte of a [Uint8Array] as the number JavaScript reads from it. *)
Definition Z_of_byte (b : byte) : Z := Z.of_N (Byte.to_N b).

(** Storing a number into a [Uint8Array] keeps it modulo 256. *)
Definition byte_of_Z (z : Z) : byte :=
  default x00 (Byte.of_N (Z.to_N (z mod 256))).

(** [s.startsWith(p)] *)
Definition startsWith (p s : string) : bool := String.prefix p s.

(** [s.slice(n)] for [0 <= n]: the string without its first [n] units. *)
Fixpoint sliceFrom (n : nat) (s : string) : string :=
  match n, s with
  | O, _ => s
  | S _, EmptyString => EmptyString
  | S n', String _ r => sliceFrom n' r
  end.

(** [s.split(sep)] for a one-character separator: never empty, the empty
    string splits into one empty segment. *)
Fixpoint split (sep : ascii) (s : string) : list string :=
  match s with
  | EmptyString => [EmptyString]
  | String c r =>
      if Ascii.eqb c sep then EmptyString :: split sep r
      else match split sep r with
           | h :: t => String c h :: t
           | [] => [String c EmptyString]
           end
  end.

(** The white space and line terminators that fit an 8-bit code unit:
    TAB, LF, VT, FF, CR, SPACE and NBSP. *)
Definition isWhiteSpace (c : ascii) : bool :=
  let n := nat_of_ascii c in
  ((9 <=? n)%nat && (n <=? 13)%nat) || (n =? 32)%nat || (n =? 160)%nat.

Fixpoint trimStart (s : string) : string :=
  match s with
  | String c r => if isWhiteSpace c then trimStart r else s
  | EmptyString => EmptyString
  end.

(** The string without its trailing white space. *)
Fixpoint trimEnd (s : string) : string :=
  match s with
  | EmptyString => EmptyString
  | String c r =>
      match trimEnd r with
      | EmptyString => if isWhiteSpace c then EmptyString else String c EmptyString
      | r' => String c r'
      end
  end.

(** [s.trim()] *)
Definition trim (s : string) : string := trimEnd (trimStart s).

(** [xs.includes(x)] on an array of strings. *)
Definition includes (xs : list string) (x : string) : bool :=
  existsb (String.eqb x) xs.

Definition inRange (lo hi : nat) (c : ascii) : bool :=
  let n := nat_of_ascii c in (lo <=? n)%nat && (n <=? hi)%nat.

(** The character class [[0-9a-fA-F]]. *)
Definition isHexDigit (c : ascii) : bool :=
  inRange 48 57 c || inRange 97 102 c || inRange 65 70 c.

Fixpoint allChars (p : ascii -> bool) (s : string) : bool :=
  match s with
  | EmptyString => true
  | String c r => p c && allChars p r
  end.

(** [/^[0-9a-fA-F]+$/.test(s)] *)
Definition hexDigits1 (s : string) : bool :=
  negb (String.eqb s "") && allChars isHexDigit s.

(** [/^(0x)?[0-9a-fA-F]+$/.test(s)]: the optional group is tried first, and
    on failure the match is retried without it. *)
Definition hexRegex (s : string) : bool :=
  (startsWith "0x" s && hexDigits1 (sliceFrom 2 s)) || hexDigits1 s.


(** [s.slice(0, n)] for [0 <= n]: the first [n] units. *)
Fixpoint sliceTo (n : nat) (s : string) : string :=
  match n, s with
  | S n', String c r => String c (sliceTo n' r)
  | _, _ => EmptyString
  end.

(** [s.slice(start, stop)] for [0 <= start] and [0 <= stop]. *)
Definition slice (start stop : nat) (s : string) : string :=
  sliceTo (stop - start) (sliceFrom start s).

(** [s.slice(-n)] for [0 <= n]: the last [n] units, and the whole string for
    [n = 0], since [-0] is [0]. *)
Definition sliceLast (n : nat) (s : string) : string :=
  if (n =? 0)%nat then s else sliceFrom (String.length s - n) s.

(** [parts.join(sep)] *)
Fixpoint join (sep : string) (parts : list string) : string :=
  match parts with
  | [] => EmptyString
  | [p] => p
  | p :: rest => p ++ sep ++ join sep rest
  end.


(** The integers [parseInt] gives: [NaN], the negative zero, or an integer
    (exact below [2^53]). *)
Inductive JsInteger : Type :=
| NaN
| NegativeZero
| Integer (value : Z).

(** The value of a hexadecimal digit of either case. *)
Definition hexDigitValue (c : ascii) : option Z :=
  let n := Z.of_nat (nat_of_ascii c) in
  if inRange 48 57 c then Some (n - 48)%Z
  else if inRange 97 102 c then Some (n - 87)%Z
  else if inRange 65 70 c then Some (n - 55)%Z
  else None.

(** The value of the longest run of hexadecimal digits at the start of
    [s], after the digits read so far ([None]: no digit yet). *)
Fixpoint hexRun (read : option Z) (s : string) : option Z :=
  match s with
  | String c r =>
      match hexDigitValue c with
      | Some d => hexRun (Some (16 * default 0%Z read + d)%Z) r
      | None => read
      end
  | EmptyString => read
  end.

(** [parseInt(s, 16)]: leading white space is skipped, then a sign, then
    [0x] or [0X]; the longest run of digits that follows is the value, and
    there is no value without a digit. *)
Definition parseInt16 (s : string) : JsInteger :=
  let s := trimStart s in
  let negative := startsWith "-" s in
  let s := if startsWith "-" s || startsWith "+" s then sliceFrom 1 s else s in
  let s := if startsWith "0x" s || startsWith "0X" s then sliceFrom 2 s else s in
  match hexRun None s with
  | None => NaN
  | Some v => if negative then (if (v =? 0)%Z then NegativeZero else Integer (- v)) else Integer v
  end.

(** [s.repeat(n)] *)
Fixpoint repeat (s : string) (n : nat) : string :=
  match n with
  | O => EmptyString
  | S k => s ++ repeat s k
  end.

(** [s.padStart(targetLength, pad)] for a one-character [pad]. *)
Definition padStart (targetLength : nat) (pad : ascii) (s : string) : string :=
  repeat (String pad EmptyString) (targetLength - String.length s) ++ s.

(** The lower-case digit of a value below 16. *)
Definition lowerHexDigit (n : nat) : ascii :=
  default "0"%char (String.get n "0123456789abcdef").

(** [n.toString(16)] for a natural number [n]; every step divides by 16, so
    [S n] steps are enough. *)
Fixpoint toString16From (fuel n : nat) (digits : string) : string :=
  match fuel with
  | O => digits
  | S fuel' =>
      let digits := String (lowerHexDigit (n mod 16)) digits in
      if (n / 16 =? 0)%nat then digits else toString16From fuel' (n / 16) digits
  end.

Definition toString16 (n : nat) : string := toString16From (S n) n EmptyString.

End Js.

(* ------------------------------------------------------------------ *)
(** ** Encoding primitives ([lib/stealth.ts])                          *)
(* ------------------------------------------------------------------ *)

Module Hex.
Import Js.

Definition hexChars : string := "0123456789abcdef".

(** The lowercase digit of a value below 16, as [n.toString(16)] prints it. *)
Definition hexDigit (n : nat) : ascii :=
  default "0"%char (String.get n hexChars).

(** Modelled from the spec: [bytesToHex] of lib/stealth.ts is missing from the
    sources.  Section 4.1: "maps each byte to two lowercase hex characters,
    no separators, empty input -> empty string" (the same text the sources
    build in [generateRandomHex] with [toString(16).padStart(2, "0")]). *)
Fixpoint bytesToHex (bytes : list byte) : string :=
  match bytes with
  | [] => EmptyString
  | b :: rest =>
      let n := N.to_nat (Byte.to_N b) in
      String (hexDigit (n / 16)) (String (hexDigit (n mod 16)) (bytesToHex rest))
  end.

(** The value of a hex digit of either case. *)
Definition hexValue (c : ascii) : option nat :=
  let n := nat_of_ascii c in
  if inRange 48 57 c then Some (n - 48)
  else if inRange 97 102 c then Some (n - 87)
  else if inRange 65 70 c then Some (n - 55)
  else None.

Inductive EncodingError : Type := InvalidEncoding.

Inductive hexResult : Type :=
| HexOk (bytes : list byte)
| HexErr (e : EncodingError).

Fixpoint decodePairs (s : string) : option (list byte) :=
  match s with
  | EmptyString => Some []
  | String _ EmptyString => None
  | String h (String l r) =>
      match hexValue h, hexValue l, decodePairs r with
      | Some a, Some b, Some bs => Some (byte_of_Z (Z.of_nat (16 * a + b)) :: bs)
      | _, _, _ => None
      end
  end.

(** Modelled from the spec: [hexToBytes] of lib/stealth.ts is missing from the
    sources.  Section 4.1: "accepts an optional 0x prefix (stripped before
    decoding); case-insensitive; odd-length or non-hex-digit input is an
    error (InvalidEncoding)". *)
Definition hexToBytes (hex : string) : hexResult :=
  let clean := if startsWith "0x" hex then sliceFrom 2 hex else hex in
  match decodePairs clean with
  | Some bs => HexOk bs
  | None => HexErr InvalidEncoding
  end.

Definition isLowerHexChar (c : ascii) : bool :=
  inRange 48 57 c || inRange 97 102 c.

End Hex.

(* ------------------------------------------------------------------ *)
(** ** Stealth meta-addresses                                          *)
(* ------------------------------------------------------------------ *)

Module MetaAddress.
Import Js.

(** [AddressValidation] of useSend.ts. *)
Inductive AddressType : Type := TStealth | TRegular | TInvalid.

Record AddressValidation : Type := mkValidation {
  isValid : bool;
  type : AddressType;
  chain : option string;
  error : option string
}.

Definition STEALTH_PREFIX : string := "sip:".

Definition supportedChains : list string := ["solana"; "ethereum"; "near"].

(** [validateStealthAddress] of useSend.ts, lines 86-111. *)
Definition validateStealthAddress (address : string) : AddressValidation :=
  if negb (startsWith STEALTH_PREFIX address) then
    mkValidation false TInvalid None (Some "Not a stealth address")
  else
    let parts := split ":" (sliceFrom (String.length STEALTH_PREFIX) address) in
    match parts with
    | [chain; spendingKey; viewingKey] =>
        if negb (includes supportedChains chain) then
          mkValidation false TInvalid None (Some ("Unsupported chain: " ++ chain))
        else if negb (hexRegex spendingKey) || negb (hexRegex viewingKey) then
          mkValidation false TInvalid None (Some "Invalid key format")
        else mkValidation true TStealth (Some chain) None
    | _ => mkValidation false TInvalid None (Some "Invalid stealth address format")
    end.

(** The character class [[1-9A-HJ-NP-Za-km-z]] (base58). *)
Definition isBase58Char (c : ascii) : bool :=
  inRange 49 57 c || inRange 65 72 c || inRange 74 78 c || inRange 80 90 c
  || inRange 97 107 c || inRange 109 122 c.

(** [SOLANA_ADDRESS_REGEX.test(s)] for [/^[1-9A-HJ-NP-Za-km-z]{32,44}$/]. *)
Definition SOLANA_ADDRESS_REGEX (s : string) : bool :=
  (32 <=? String.length s)%nat && (String.length s <=? 44)%nat
  && allChars isBase58Char s.

(** [validateSolanaAddress] of useSend.ts, lines 116-122. *)
Definition validateSolanaAddress (address : string) : AddressValidation :=
  if negb (SOLANA_ADDRESS_REGEX address) then
    mkValidation false TInvalid None (Some "Invalid Solana address")
  else mkValidation true TRegular (Some "solana") None.

(** [validateAddress] of useSend.ts, lines 136-150. *)
Definition validateAddress (address : string) : AddressValidation :=
  if String.eqb address "" || String.eqb (trim address) "" then
    mkValidation false TInvalid None (Some "Address is required")
  else
    let trimmed := trim address in
    if startsWith STEALTH_PREFIX trimmed then validateStealthAddress trimmed
    else validateSolanaAddress trimmed.

(** [isStealthAddress] of useSend.ts, lines 182-184. *)
Definition isStealthAddress (address : string) : bool :=
  startsWith STEALTH_PREFIX (trim address).

(** [StealthMetaAddress]: the two public keys as hex strings, the chain tag
    and the optional label (the shape the tests of lib/stealth.ts build). *)
Record StealthMetaAddress : Type := mkMeta {
  metaChain : string;
  spendingKey : string;
  viewingKey : string;
  label : option string
}.

(** Modelled from the spec: [formatStealthMetaAddress] of lib/stealth.ts is
    missing from the sources.  Section 4.2: "exact format
    sip:<chain>:<spendingKeyHex>:<viewingKeyHex>; label is never included". *)
Definition formatStealthMetaAddress (meta : StealthMetaAddress) : string :=
  "sip:" ++ metaChain meta ++ ":" ++ spendingKey meta ++ ":" ++ viewingKey meta.

(** Modelled from the spec: [parseStealthMetaAddress] of lib/stealth.ts is
    missing from the sources.  Section 4.2: it "fails (returns a null/invalid
    result, not a thrown fatal error) unless the string starts with sip: and
    splits into exactly 4 colon-delimited segments; the chain segment must be
    one of a supported set (solana, ethereum, near ...); key segments must
    match a hex pattern (optionally 0x-prefixed)". *)
Definition parseStealthMetaAddress (s : string) : option StealthMetaAddress :=
  if negb (startsWith "sip:" s) then None
  else match split ":" s with
       | [_; chain; spending; viewing] =>
           if includes supportedChains chain && hexRegex spending && hexRegex viewing
           then Some (mkMeta chain spending viewing None)
           else None
       | _ => None
       end.

(** A meta-address is valid when its chain is supported and both keys are hex
    strings (section 3 asks in addition that they encode curve points, which
    no string operation here depends on). *)
Definition validMeta (m : StealthMetaAddress) : Prop :=
  includes supportedChains (metaChain m) = true
  /\ hexRegex (spendingKey m) = true
  /\ hexRegex (viewingKey m) = true.

(** The [i]-th colon-delimited segment of a string ([""] when there is none). *)
Definition segment (i : nat) (s : string) : string :=
  default "" (split ":" s !! i).

(** The four conditions of section 4.2 on a serialized meta-address. *)
Definition wellFormed (s : string) : Prop :=
  startsWith "sip:" s = true
  /\ length (split ":" s) = 4
  /\ includes supportedChains (segment 1 s) = true
  /\ hexRegex (segment 2 s) = true
  /\ hexRegex (segment 3 s) = true.

Definition noColon (s : string) : bool :=
  allChars (fun c => negb (Ascii.eqb c ":")) s.

(** The meta-address without its label. *)
Definition withoutLabel (m : StealthMetaAddress) : StealthMetaAddress :=
  mkMeta (metaChain m) (spendingKey m) (viewingKey m) None.

End MetaAddress.

(* ------------------------------------------------------------------ *)
(** ** Amount validation and the send flow ([useSend.ts])              *)
(* ------------------------------------------------------------------ *)

Module Send.
Import Js MetaAddress.

Record AmountValidation : Type := mkAmount {
  amountValid : bool;
  amountError : option string
}.

Definition invalidAmount (msg : string) : AmountValidation :=
  mkAmount false (Some msg).

(** The documented minimum, the binary64 value of the literal [0.001]. *)
Definition MIN_AMOUNT : float := 0.001%float.

Inductive SendStatus : Type :=
| Idle | Validating | Preparing | Signing | Submitting | Confirmed | Failed.

Record SendResult : Type := mkResult {
  success : bool;
  resultTxHash : option string;
  resultError : option string
}.

(** The three pieces of React state of the hook. *)
Record HookState : Type := mkHook {
  status : SendStatus;
  error : option string;
  txHash : option string
}.

(** [e || fallback] on an optional message: the empty string is falsy too. *)
Definition orElse (e : option string) (fallback : string) : string :=
  match e with
  | Some m => if String.eqb m "" then fallback else m
  | None => fallback
  end.

Section WithBuiltins.

(** [parseFloat] is the JavaScript built-in; the code only compares its
    result, so it is a parameter here. *)
Variable parseFloat : string -> float.

(** The type of the [privacyLevel] field, declared in [@/types]. *)
Variable PrivacyLevel : Type.

(** [validateAmount] of useSend.ts, lines 152-180.  [numAmount > balance] is
    [balance < numAmount]. *)
Definition validateAmount (amount : string) (balance : float) : AmountValidation :=
  if String.eqb amount "" || String.eqb (trim amount) "" then
    invalidAmount "Amount is required"
  else
    let numAmount := parseFloat amount in
    if is_nan numAmount then invalidAmount "Invalid amount"
    else if (numAmount <=? 0)%float then invalidAmount "Amount must be greater than 0"
    else if (balance <? numAmount)%float then invalidAmount "Insufficient balance"
    else if (numAmount <? MIN_AMOUNT)%float then
      invalidAmount "Minimum amount is 0.001 SOL"
    else mkAmount true None.

Record SendParams : Type := mkParams {
  amount : string;
  recipient : string;
  privacyLevel : PrivacyLevel;
  memo : option string
}.

(** The record handed to [addPayment]. *)
Record Payment : Type := mkPayment {
  paymentId : Z;
  paymentType : string;
  paymentAmount : string;
  paymentToken : string;
  paymentStatus : string;
  paymentStealthAddress : option string;
  paymentTxHash : string;
  paymentTimestamp : Z;
  paymentPrivacyLevel : PrivacyLevel
}.

(** One run of [send]: what it returns, the hook state it leaves, the
    statuses it set in order, and the payments it handed to the store. *)
Record SendRun : Type := mkRun {
  returned : SendResult;
  finalState : HookState;
  statusLog : list SendStatus;
  recorded : list Payment
}.

(** [send] of useSend.ts, lines 192-262.  [mockTxHash] is the random hash the
    code draws, [now1] and [now2] its two readings of [Date.now()]; the
    awaited timers only delay.  The mock balance is the literal [100]. *)
Definition send (isConnected : bool) (walletAddress : option string)
    (st : HookState) (mockTxHash : string) (now1 now2 : Z)
    (params : SendParams) : SendRun :=
  if negb isConnected || String.eqb (orElse walletAddress "") "" then
    mkRun (mkResult false None (Some "Wallet not connected")) st [] []
  else
    let fail (msg : string) (log : list SendStatus) :=
      mkRun (mkResult false None (Some msg)) (mkHook Failed (Some msg) None)
            (log ++ [Failed]) [] in
    let addressValidation := validateAddress (recipient params) in
    if negb (isValid addressValidation) then
      fail (orElse (MetaAddress.error addressValidation) "Invalid address") [Validating]
    else
      let amountValidation := validateAmount (amount params) 100%float in
      if negb (amountValid amountValidation) then
        fail (orElse (amountError amountValidation) "Invalid amount") [Validating]
      else
        mkRun (mkResult true (Some mockTxHash) None)
              (mkHook Confirmed None (Some mockTxHash))
              [Validating; Preparing; Signing; Submitting; Confirmed]
              [mkPayment now1 "send" (amount params) "SOL" "completed"
                 (match type addressValidation with
                  | TStealth => Some (recipient params)
                  | _ => None
                  end)
                 mockTxHash now2 (privacyLevel params)].

End WithBuiltins.

End Send.

(* ------------------------------------------------------------------ *)
(** ** Node buffers and Solana public keys                             *)
(* ------------------------------------------------------------------ *)

Module Buffer.
Import Js.
Local Open Scope list_scope.

(** A [Buffer] (a [Uint8Array]) is the list of its bytes. *)
Abbreviation t := (list byte).

(** [Buffer.alloc(n)]: [n] zero bytes. *)
Definition alloc (n : nat) : t := replicate n x00.

(** [Buffer.from(array)]: every number is stored modulo 256. *)
Definition from (array : list Z) : t := map byte_of_Z array.

(** [source.copy(target, targetStart)]: as many bytes of [source] as fit
    into [target] from [targetStart] on; gives the target after the copy. *)
Definition copy (source target : t) (targetStart : nat) : t :=
  take targetStart target
  ++ take (length target - targetStart) source
  ++ drop (targetStart + length source) target.

(** The [n] little-endian bytes of [v]. *)
Fixpoint le_bytes (n : nat) (v : Z) : t :=
  match n with
  | O => []
  | S k => byte_of_Z v :: le_bytes k (v / 256)
  end.

(** The number whose little-endian bytes are [bs]. *)
Fixpoint le_value (bs : t) : Z :=
  match bs with
  | [] => 0
  | b :: rest => Z_of_byte b + 256 * le_value rest
  end.

(** [buf.writeUIntLE]-style stores: a value outside [0, 2^(8 width)) or a
    range that leaves the buffer throws a [RangeError]. *)
Definition writeUIntLE (width : nat) (value : Z) (offset : nat) (buf : t) : outcome t :=
  if (value <? 0)%Z || (2 ^ (8 * Z.of_nat width) <=? value)%Z then
    Thrown (RangeError "value")
  else if (length buf <? offset + width)%nat then Thrown (RangeError "offset")
  else Returned (take offset buf ++ le_bytes width value ++ drop (offset + width) buf).

Definition writeUInt32LE : Z -> nat -> t -> outcome t := writeUIntLE 4.
Definition writeBigUInt64LE : Z -> nat -> t -> outcome t := writeUIntLE 8.

(** The matching loads: a range that leaves the buffer throws. *)
Definition readUIntLE (width : nat) (offset : nat) (buf : t) : outcome Z :=
  if (length buf <? offset + width)%nat then Thrown (RangeError "offset")
  else Returned (le_value (take width (drop offset buf))).

Definition readUInt16LE : nat -> t -> outcome Z := readUIntLE 2.
Definition readBigUInt64LE : nat -> t -> outcome Z := readUIntLE 8.

(** [buf.slice(start, end)] and [buf.slice(start)] for [0 <= start <= end]:
    both clamp at the end of the buffer. *)
Definition slice (start stop : nat) (buf : t) : t := take (stop - start) (drop start buf).
Definition sliceFrom (start : nat) (buf : t) : t := drop start buf.

(** [buf[i]]: [None] stands for [undefined]. *)
Definition at_ (buf : t) (i : nat) : option Z := Z_of_byte <$> buf !! i.

End Buffer.

Module PublicKey.
Import Js.
Local Open Scope list_scope.

Definition PUBLIC_KEY_LENGTH : nat := 32.

(** A web3.js [PublicKey] holds a number below [2^256]; it is kept here as
    the 32 big-endian bytes [toBuffer] gives. *)
Record t : Type := mk { toBuffer : Buffer.t }.

Fixpoint stripZeros (bs : Buffer.t) : Buffer.t :=
  match bs with
  | b :: rest => if Byte.eqb b x00 then stripZeros rest else bs
  | [] => []
  end.

(** [new PublicKey(bytes)]: the bytes are read as a big-endian number, which
    must fit 32 bytes. *)
Definition new (value : Buffer.t) : outcome t :=
  let digits := stripZeros value in
  if (PUBLIC_KEY_LENGTH <? length digits)%nat then Thrown (Error "Invalid public key input")
  else Returned (mk (replicate (PUBLIC_KEY_LENGTH - length digits) x00 ++ digits)).

End PublicKey.

(* ------------------------------------------------------------------ *)
(** ** The instruction and account codec ([SipPrivacyClient])          *)
(* ------------------------------------------------------------------ *)

Module Codec.
Import Js.
Local Open Scope list_scope.

(** [ShieldedTransferArgs] of [./types], with the field types of the IDL
    ([number[]] for the fixed arrays, [Buffer] for [bytes], [bigint] for
    [u64]). *)
Record ShieldedTransferArgs : Type := mkArgs {
  amountCommitment : list Z;
  stealthPubkey : PublicKey.t;
  ephemeralPubkey : list Z;
  viewingKeyHash : list Z;
  encryptedAmount : Buffer.t;
  proof : Buffer.t;
  actualAmount : Z
}.

(** The first 8 bytes of sha256("global:shielded_transfer"). *)
Definition discriminator : Buffer.t :=
  Buffer.from [0x5f; 0x80; 0xa9; 0x2e; 0x4b; 0x5d; 0x76; 0x98]%Z.

Definition totalSize (encryptedAmountLen proofLen : nat) : nat :=
  8 + 33 + 32 + 33 + 32 + 4 + encryptedAmountLen + 4 + proofLen + 8.

(** [encodeShieldedTransferData], lines 303-362: the buffer and the offset
    are threaded through the stores in the order of the source. *)
Definition encodeShieldedTransferData (args : ShieldedTransferArgs) : outcome Buffer.t :=
  let encryptedAmountLen := length (encryptedAmount args) in
  let proofLen := length (proof args) in
  let buffer := Buffer.alloc (totalSize encryptedAmountLen proofLen) in
  let offset := 0 in
  let buffer := Buffer.copy discriminator buffer offset in
  let offset := offset + 8 in
  let buffer := Buffer.copy (Buffer.from (amountCommitment args)) buffer offset in
  let offset := offset + 33 in
  let buffer := Buffer.copy (PublicKey.toBuffer (stealthPubkey args)) buffer offset in
  let offset := offset + 32 in
  let buffer := Buffer.copy (Buffer.from (ephemeralPubkey args)) buffer offset in
  let offset := offset + 33 in
  let buffer := Buffer.copy (Buffer.from (viewingKeyHash args)) buffer offset in
  let offset := offset + 32 in
  bindO (Buffer.writeUInt32LE (Z.of_nat encryptedAmountLen) offset buffer) (fun buffer =>
  let offset := offset + 4 in
  let buffer := Buffer.copy (encryptedAmount args) buffer offset in
  let offset := offset + encryptedAmountLen in
  bindO (Buffer.writeUInt32LE (Z.of_nat proofLen) offset buffer) (fun buffer =>
  let offset := offset + 4 in
  let buffer := Buffer.copy (proof args) buffer offset in
  let offset := offset + proofLen in
  Buffer.writeBigUInt64LE (actualAmount args) offset buffer)).

(** The layout the documentation of the encoder lists, field after field. *)
Definition shieldedTransferLayout (args : ShieldedTransferArgs) : Buffer.t :=
  discriminator
  ++ Buffer.from (amountCommitment args)
  ++ PublicKey.toBuffer (stealthPubkey args)
  ++ Buffer.from (ephemeralPubkey args)
  ++ Buffer.from (viewingKeyHash args)
  ++ Buffer.le_bytes 4 (Z.of_nat (length (encryptedAmount args)))
  ++ encryptedAmount args
  ++ Buffer.le_bytes 4 (Z.of_nat (length (proof args)))
  ++ proof args
  ++ Buffer.le_bytes 8 (actualAmount args).

(** The widths and ranges the IDL gives the arguments. *)
Definition fixedWidths (args : ShieldedTransferArgs) : Prop :=
  length (amountCommitment args) = 33
  /\ length (PublicKey.toBuffer (stealthPubkey args)) = 32
  /\ length (ephemeralPubkey args) = 33
  /\ length (viewingKeyHash args) = 32.

Definition inRanges (args : ShieldedTransferArgs) : Prop :=
  (Z.of_nat (length (encryptedAmount args)) < 2 ^ 32)%Z
  /\ (Z.of_nat (length (proof args)) < 2 ^ 32)%Z
  /\ (0 <= actualAmount args < 2 ^ 64)%Z.

(** The example of section 8: 64 encrypted bytes and a 128-byte proof. *)
Definition sampleArgs : ShieldedTransferArgs :=
  mkArgs (replicate 33 2%Z) (PublicKey.mk (replicate 32 x07)) (replicate 33 3%Z)
         (replicate 32 9%Z) (replicate 64 x2a) (replicate 128 x55) 1500000000%Z.

(** [Config] of [./types]; [bump] is [None] when the code read [undefined]. *)
Record Config : Type := mkConfig {
  authority : PublicKey.t;
  feeCollector : PublicKey.t;
  feeBps : Z;
  paused : bool;
  totalTransfers : Z;
  bump : option Z
}.

(** The body of the [try] of [fetchConfig] once the account is there, lines
    140-166: the decoding of the account data. *)
Definition decodeConfig (accountData : Buffer.t) : outcome Config :=
  let data := Buffer.sliceFrom 8 accountData in
  bindO (PublicKey.new (Buffer.slice 0 32 data)) (fun authority =>
  bindO (PublicKey.new (Buffer.slice 32 64 data)) (fun feeCollector =>
  bindO (Buffer.readUInt16LE 64 data) (fun feeBps =>
  let paused := bool_decide (Buffer.at_ data 66 = Some 1%Z) in
  bindO (Buffer.readBigUInt64LE 67 data) (fun totalTransfers =>
  let bump := Buffer.at_ data 75 in
  Returned (mkConfig authority feeCollector feeBps paused totalTransfers bump))))).

(** The account layout of sections 3 and 4.4: an 8-byte discriminator, then
    authority (32), feeCollector (32), feeBps (u16 LE), paused (one byte),
    totalTransfers (u64 LE) and bump (one byte). *)
Definition configLayout (disc : Buffer.t) (authority feeCollector : Buffer.t)
    (feeBps : Z) (paused : bool) (totalTransfers : Z) (bump : Z) : Buffer.t :=
  disc ++ authority ++ feeCollector
  ++ Buffer.le_bytes 2 feeBps
  ++ [if paused then x01 else x00]
  ++ Buffer.le_bytes 8 totalTransfers
  ++ [byte_of_Z bump].

(** The least length of a config account: discriminator and 76 bytes. *)
Definition CONFIG_MIN_LENGTH : nat := 8 + 32 + 32 + 2 + 1 + 8 + 1.

Ltac lengths :=
  unfold Buffer.from;
  rewrite ?length_app, ?length_map, ?length_replicate;
  cbn [length]; unfold totalSize; lia.

End Codec.

(* ------------------------------------------------------------------ *)
(** ** The client: fetching the config and building a transfer         *)
(* ------------------------------------------------------------------ *)

Module Client.
Import Js Codec.
Local Open Scope list_scope.

(** The steps of a run whose order matters: the calls to the connection and
    to the functions of [./crypto], and the encoding of the instruction. *)
Inductive Step : Type :=
| GetAccountInfo (address : PublicKey.t)
| GenerateEphemeralKeyPair
| DeriveSharedSecret
| CreateCommitment (lamports : Z)
| EncryptAmount (lamports : Z)
| ComputeViewingKeyHash
| GenerateMockProof
| EncodeShieldedTransferData
| GetLatestBlockhash.

Inductive ConsoleLine : Type :=
| ConsoleLog (msg : string)
| ConsoleError (msg : string) (err : JsError).

Record AccountInfo : Type := mkAccountInfo { data : Buffer.t }.

Record KeyPair : Type := mkKeyPair { privateKey : Buffer.t; publicKey : Buffer.t }.

Record EncryptedAmount : Type := mkEncrypted { nonce : Buffer.t; ciphertext : Buffer.t }.

Record ShieldedTransferParams : Type := mkTransferParams {
  amount : float;
  stealthPubkey : PublicKey.t;
  recipientSpendingKey : Buffer.t;
  recipientViewingKey : Buffer.t;
  memo : option string
}.

Record AccountMeta : Type := mkMeta {
  pubkey : PublicKey.t;
  isSigner : bool;
  isWritable : bool
}.

Record TransactionInstruction : Type := mkInstruction {
  keys : list AccountMeta;
  instructionProgramId : PublicKey.t;
  instructionData : Buffer.t
}.

Record Transaction : Type := mkTransaction {
  instructions : list TransactionInstruction;
  recentBlockhash : option string;
  feePayer : option PublicKey.t
}.

Record BuiltTransfer : Type := mkBuilt {
  transaction : Transaction;
  transferRecord : PublicKey.t;
  builtEphemeralPubkey : Buffer.t
}.

(** [web3.SystemProgram.programId]: the all-zero key. *)
Definition SystemProgram_programId : PublicKey.t := PublicKey.mk (replicate 32 x00).

Definition LAMPORTS_PER_SOL : float := 1000000000%float.

(** [BigInt(Math.floor(x))]: the integer below a finite [x]; NaN and the
    infinities make [BigInt] throw a [RangeError]. *)
Definition bigIntFloor (x : float) : outcome Z :=
  match Prim2SF x with
  | S754_zero _ => Returned 0%Z
  | S754_finite s m e => Returned (Z.shiftl (if s then Z.neg m else Z.pos m) e)
  | _ => Thrown (RangeError "The number cannot be converted to a BigInt")
  end.

(** Not a finite number: NaN, [Infinity] or [-Infinity]. *)
Definition notFinite (x : float) : Prop :=
  match Prim2SF x with
  | S754_nan | S754_infinity _ => True
  | _ => False
  end.

(** [ProgramState] of [./types]; [None] is [null]. *)
Record ProgramState : Type := mkState {
  stateConfig : option Config;
  isInitialized : bool;
  stateTotalTransfers : Z;
  stateFeeBps : Z;
  stateFeeCollector : option PublicKey.t
}.

Section WithWorld.

(** Everything outside the client that its collaborators read or change:
    the RPC node and the entropy source. *)
Variable World : Type.

(** The functions of [./crypto]; those that draw entropy change the world. *)
Record Crypto : Type := mkCrypto {
  generateEphemeralKeyPair : World -> outcome KeyPair * World;
  deriveSharedSecret : Buffer.t -> Buffer.t -> outcome Buffer.t;
  createCommitment : Z -> World -> outcome (Buffer.t * Buffer.t) * World;
  encryptAmount : Z -> Buffer.t -> World -> outcome EncryptedAmount * World;
  computeViewingKeyHash : Buffer.t -> outcome Buffer.t;
  generateMockProof : Buffer.t -> Buffer.t -> Z -> World -> outcome Buffer.t * World
}.

(** The address derivations of [./types]. *)
Record Pdas : Type := mkPdas {
  getConfigPda : PublicKey.t -> PublicKey.t * Z;
  getTransferRecordPda : PublicKey.t -> Z -> PublicKey.t -> PublicKey.t * Z
}.

Record Connection : Type := mkConnection {
  getAccountInfo : PublicKey.t -> World -> outcome (option AccountInfo) * World;
  getLatestBlockhash : World -> outcome string * World
}.

Record SipPrivacyClient : Type := mkClient {
  connection : Connection;
  programId : PublicKey.t
}.

(** The state a run threads: the world, the steps taken so far and the
    console, both oldest first. *)
Record Run : Type := mkRun {
  world : World;
  steps : list Step;
  console : list ConsoleLine
}.

Definition M (A : Type) : Type := Run -> outcome A * Run.

Definition ret {A} (a : A) : M A := fun r => (Returned a, r).

Definition bind {A B} (m : M A) (k : A -> M B) : M B :=
  fun r => match m r with
           | (Returned a, r') => k a r'
           | (Thrown e, r') => (Thrown e, r')
           end.

Definition throw {A} (e : JsError) : M A := fun r => (Thrown e, r).

(** [try { body } catch (err) { handler }] *)
Definition tryCatch {A} (body : M A) (handler : JsError -> M A) : M A :=
  fun r => match body r with
           | (Returned a, r') => (Returned a, r')
           | (Thrown e, r') => handler e r'
           end.

Definition lift {A} (o : outcome A) : M A := fun r => (o, r).

Definition step (s : Step) : M unit :=
  fun r => (Returned tt, mkRun (world r) (steps r ++ [s]) (console r)).

Definition print (line : ConsoleLine) : M unit :=
  fun r => (Returned tt, mkRun (world r) (steps r) (console r ++ [line])).

(** A call that reads or changes the world, recorded as step [s]. *)
Definition external {A} (s : Step) (f : World -> outcome A * World) : M A :=
  bind (step s) (fun _ r =>
    let (o, w) := f (world r) in (o, mkRun w (steps r) (console r))).

(** A call that only computes, recorded as step [s]. *)
Definition internal {A} (s : Step) (o : outcome A) : M A :=
  bind (step s) (fun _ => lift o).

Variable crypto : Crypto.
Variable pdas : Pdas.

(** [fetchConfig], lines 130-171. *)
Definition fetchConfig (this : SipPrivacyClient) : M (option Config) :=
  tryCatch
    (let configPda := fst (getConfigPda pdas (programId this)) in
     bind (external (GetAccountInfo configPda)
             (getAccountInfo (connection this) configPda)) (fun accountInfo =>
     match accountInfo with
     | None => bind (print (ConsoleLog "Config account not found")) (fun _ => ret None)
     | Some info => bind (lift (decodeConfig (data info))) (fun config => ret (Some config))
     end))
    (fun err => bind (print (ConsoleError "Failed to fetch config:" err)) (fun _ => ret None)).

(** [getState], lines 176-186: [config?.f ?? d] is [d] exactly when the
    config is null, no field of a config being null. *)
Definition getState (this : SipPrivacyClient) : M ProgramState :=
  bind (fetchConfig this) (fun config =>
  ret (mkState config
         (match config with Some _ => true | None => false end)
         (match config with Some c => totalTransfers c | None => 0%Z end)
         (match config with Some c => feeBps c | None => 0%Z end)
         (match config with Some c => Some (feeCollector c) | None => None end))).

(** [buildShieldedTransfer], lines 194-286. *)
Definition buildShieldedTransfer (this : SipPrivacyClient) (sender : PublicKey.t)
    (params : ShieldedTransferParams) : M BuiltTransfer :=
  bind (fetchConfig this) (fun config =>
  match config with
  | None => throw (Error "Program not initialized - config account not found")
  | Some config =>
  if paused config then throw (Error "Program is paused") else
  bind (lift (bigIntFloor (amount params * LAMPORTS_PER_SOL)%float)) (fun lamports =>
  bind (external GenerateEphemeralKeyPair (generateEphemeralKeyPair crypto))
    (fun ephemeralKeyPair =>
  bind (internal DeriveSharedSecret
          (deriveSharedSecret crypto (privateKey ephemeralKeyPair)
             (recipientSpendingKey params))) (fun sharedSecret =>
  bind (external (CreateCommitment lamports) (createCommitment crypto lamports))
    (fun '(commitment, blindingFactor) =>
  bind (external (EncryptAmount lamports) (encryptAmount crypto lamports sharedSecret))
    (fun encryptedAmount =>
  bind (internal ComputeViewingKeyHash
          (computeViewingKeyHash crypto (recipientViewingKey params)))
    (fun viewingKeyHash =>
  bind (external GenerateMockProof
          (generateMockProof crypto commitment blindingFactor lamports)) (fun proof =>
  let configPda := fst (getConfigPda pdas (programId this)) in
  let transferRecordPda :=
    fst (getTransferRecordPda pdas sender (totalTransfers config) (programId this)) in
  bind (internal EncodeShieldedTransferData
          (encodeShieldedTransferData
             (mkArgs (map Z_of_byte commitment)
                     (stealthPubkey params)
                     (map Z_of_byte (publicKey ephemeralKeyPair))
                     (map Z_of_byte viewingKeyHash)
                     (nonce encryptedAmount ++ ciphertext encryptedAmount)
                     proof
                     lamports))) (fun instructionData =>
  let instruction :=
    mkInstruction
      [ mkMeta configPda false true;
        mkMeta transferRecordPda false true;
        mkMeta sender true true;
        mkMeta (stealthPubkey params) false true;
        mkMeta (feeCollector config) false true;
        mkMeta SystemProgram_programId false false ]
      (programId this) instructionData in
  bind (external GetLatestBlockhash (getLatestBlockhash (connection this)))
    (fun blockhash =>
  ret (mkBuilt (mkTransaction [instruction] (Some blockhash) (Some sender))
               transferRecordPda
               (publicKey ephemeralKeyPair)))))))))))
  end).

(** The accounts of the instruction a build makes, lines 261-268. *)
Definition transferKeys (this : SipPrivacyClient) (sender : PublicKey.t)
    (params : ShieldedTransferParams) (config : Config) : list AccountMeta :=
  [ mkMeta (fst (getConfigPda pdas (programId this))) false true;
    mkMeta (fst (getTransferRecordPda pdas sender (totalTransfers config)
                   (programId this))) false true;
    mkMeta sender true true;
    mkMeta (stealthPubkey params) false true;
    mkMeta (feeCollector config) false true;
    mkMeta SystemProgram_programId false false ].

(** The steps of a complete build, in the order of the source. *)
Definition fullOrder (configPda : PublicKey.t) (lamports : Z) : list Step :=
  [ GetAccountInfo configPda;
    GenerateEphemeralKeyPair;
    DeriveSharedSecret;
    CreateCommitment lamports;
    EncryptAmount lamports;
    ComputeViewingKeyHash;
    GenerateMockProof;
    EncodeShieldedTransferData;
    GetLatestBlockhash ].

(** A run that starts in world [w] with nothing done yet. *)
Definition start (w : World) : Run := mkRun w [] [].


(** [m] takes the steps [todo] in this order and no others: whatever was done
    before, it adds a prefix of [todo], and all of [todo] when it returns. *)
Definition emits {A} (m : M A) (todo : list Step) : Prop :=
  forall r, exists taken,
    steps (snd (m r)) = steps r ++ taken
    /\ taken `prefix_of` todo
    /\ (forall a, fst (m r) = Returned a -> taken = todo).

End WithWorld.

(** Sample collaborators for runs on concrete input: a connection that
    answers every account request with [answer], and address derivations
    that return their first argument. *)
Definition answering (answer : outcome (option AccountInfo)) : Connection unit :=
  mkConnection unit (fun _ w => (answer, w)) (fun w => (Returned "blockhash", w)).

Definition samplePdas : Pdas :=
  mkPdas (fun programId => (programId, 255%Z)) (fun sender _ _ => (sender, 254%Z)).

Definition sampleProgramId : PublicKey.t := PublicKey.mk (replicate 32 x05).

(** Stand-ins for the functions of [./crypto] with outputs of the documented
    sizes: a 24-byte nonce and a 40-byte ciphertext, a 128-byte proof. *)
Definition sampleCrypto : Crypto unit :=
  mkCrypto unit
    (fun w => (Returned (mkKeyPair (replicate 32 x11) (replicate 33 x02)), w))
    (fun _ _ => Returned (replicate 32 x33))
    (fun _ w => (Returned (replicate 33 x03, replicate 32 x44), w))
    (fun _ _ w => (Returned (mkEncrypted (replicate 24 x55) (replicate 40 x66)), w))
    (fun _ => Returned (replicate 32 x77))
    (fun _ _ _ w => (Returned (replicate 128 x88), w)).

Definition sampleParams : ShieldedTransferParams :=
  mkTransferParams 1.5%float (PublicKey.mk (replicate 32 x09))
                   (replicate 33 x0a) (replicate 33 x0b) None.

Definition sampleSender : PublicKey.t := PublicKey.mk (replicate 32 x0c).

(** The client whose connection answers with the account [accountData]. *)
Definition sampleClient (accountData : Buffer.t) : SipPrivacyClient unit :=
  mkClient unit (answering (Returned (Some (mkAccountInfo accountData)))) sampleProgramId.

(** A config account: discriminator, then the fields of a paused or running
    program with fee 25 bps, 7 transfers and bump 254. *)
Definition sampleAccount (paused : bool) : Buffer.t :=
  configLayout (replicate 8 x09) (replicate 32 x01) (replicate 32 x02)
               25 paused 7 254.

End Client.

(* ------------------------------------------------------------------ *)
(** ** The module-level client instance                                *)
(* ------------------------------------------------------------------ *)

Module Factory.

Section WithTypes.

Variables Connection PublicKey : Type.

(** The default of the constructor's second parameter. *)
Variable SIP_PRIVACY_PROGRAM_ID : PublicKey.

(** An object of class [SipPrivacyClient]: its two fields and, for its
    identity, the number of the allocation that made it. *)
Record SipPrivacyClient : Type := mkClient {
  objectId : nat;
  connection : Connection;
  programId : PublicKey
}.

(** The module state: the variable [clientInstance] ([None] is [null]) and
    the number of objects allocated so far. *)
Record ModuleState : Type := mkState {
  clientInstance : option SipPrivacyClient;
  allocated : nat
}.

(** [let clientInstance: SipPrivacyClient | null = null] *)
Definition initialState : ModuleState := mkState None 0.

(** [getSipPrivacyClient], lines 409-417. *)
Definition getSipPrivacyClient (connection : Connection) (programId : option PublicKey)
    (st : ModuleState) : SipPrivacyClient * ModuleState :=
  match clientInstance st with
  | None =>
      let client :=
        mkClient (allocated st) connection (default SIP_PRIVACY_PROGRAM_ID programId) in
      (client, mkState (Some client) (S (allocated st)))
  | Some client => (client, st)
  end.

(** [resetSipPrivacyClient], lines 422-424. *)
Definition resetSipPrivacyClient (st : ModuleState) : ModuleState :=
  mkState None (allocated st).

(** The clients a sequence of calls returns, and the state it leaves. *)
Fixpoint getAll (requests : list (Connection * option PublicKey)) (st : ModuleState)
  : list SipPrivacyClient * ModuleState :=
  match requests with
  | [] => ([], st)
  | (connection, programId) :: rest =>
      let (client, st') := getSipPrivacyClient connection programId st in
      let (clients, st'') := getAll rest st' in
      (client :: clients, st'')
  end.

End WithTypes.

End Factory.

(* ------------------------------------------------------------------ *)
(** ** The scan flow ([scan.test.ts])                                  *)
(* ------------------------------------------------------------------ *)

Module Scan.
Local Open Scope list_scope.

Inductive ScanStage : Type :=
| StageIdle | StageFetching | StageScanning | StageProcessing | StageComplete | StageError.

Record ScanProgress : Type := mkProgress {
  stage : ScanStage;
  current : nat;
  total : nat;
  message : string
}.

Record PaymentRecord : Type := mkPayment {
  paymentId : string;
  paymentType : string;
  paymentAmount : string;
  paymentToken : string;
  paymentStatus : string;
  paymentStealthAddress : option string;
  txHash : string;
  paymentTimestamp : Z;
  claimed : bool
}.

Record ScanResult : Type := mkResult {
  found : nat;
  scanned : nat;
  newPayments : list PaymentRecord;
  errors : list string
}.

Record StealthKeys : Type := mkKeys {
  spendingPrivateKey : string;
  viewingPrivateKey : string
}.

Record Announcement : Type := mkAnnouncement {
  announcementId : string;
  ephemeralPubKey : string;
  stealthAddress : string;
  amount : string;
  token : string;
  timestamp : Z;
  announcementTxHash : string;
  isOurs : bool
}.

Record Options : Type := mkOptions {
  limit : option nat;
  fromTimestamp : option Z;
  mockAnnouncements : option (list Announcement)
}.

Record ScanRun : Type := mkScan { progress : ScanProgress; result : ScanResult }.

Definition BATCH_SIZE : nat := 50.

(** The announcements the loop body turns into payments: ours, and not
    known yet. *)
Definition fresh (existingTxHashes : gset string) (announcement : Announcement) : bool :=
  isOurs announcement
  && negb (bool_decide (announcementTxHash announcement ∈ existingTxHashes)).

Section WithEnvironment.

(** [generateMockAnnouncements(count, ourPaymentIndices)] draws the time and
    random amounts; [clock k] is the reading of [Date.now()] when the [k]-th
    payment of a scan is created. *)
Variable generateMockAnnouncements : nat -> list nat -> list Announcement.
Variable clock : nat -> Z.

(** The body of the inner loop, lines 148-172. *)
Definition scanAnnouncement (existingTxHashes : gset string)
    (result : ScanResult) (announcement : Announcement) : ScanResult :=
  let result := mkResult (found result) (S (scanned result))
                         (newPayments result) (errors result) in
  if bool_decide (announcementTxHash announcement ∈ existingTxHashes) then result
  else if isOurs announcement then
    let found' := S (found result) in
    let payment :=
      mkPayment
        ("payment_" +:+ pretty (clock found') +:+ "_" +:+ pretty found')
        "receive" (amount announcement) (token announcement) "completed"
        (Some ("sip:solana:" +:+ ephemeralPubKey announcement +:+ ":derived"))
        (announcementTxHash announcement) (timestamp announcement) false in
    mkResult found' (scanned result) (newPayments result ++ [payment]) (errors result)
  else result.

(** [announcements.slice(i, j)] *)
Definition slice (i j : nat) (announcements : list Announcement) : list Announcement :=
  take (j - i) (drop i announcements).

(** The loop over the batches, lines 144-177; [fuel] bounds its iterations. *)
Fixpoint scanBatches (fuel : nat) (existingTxHashes : gset string)
    (filteredAnnouncements : list Announcement) (i : nat) (result : ScanResult)
  : ScanResult :=
  match fuel with
  | O => result
  | S fuel' =>
      if (i <? length filteredAnnouncements)%nat then
        let batch := slice i (i + BATCH_SIZE) filteredAnnouncements in
        scanBatches fuel' existingTxHashes filteredAnnouncements (i + BATCH_SIZE)
          (fold_left (scanAnnouncement existingTxHashes) batch result)
      else result
  end.

(** [executeScanFlow], lines 97-188.  The loop adds [BATCH_SIZE] to [i] in
    every iteration, so [total] iterations are enough. *)
Definition executeScanFlow (keys : option StealthKeys) (existingTxHashes : gset string)
    (options : Options) : ScanRun :=
  let result := mkResult 0 0 [] [] in
  match keys with
  | None =>
      mkScan (mkProgress StageError 0 0 "No stealth keys found")
             (mkResult 0 0 [] ["No stealth keys found"])
  | Some _ =>
      let announcements :=
        match mockAnnouncements options with
        | Some given => given
        | None =>
            generateMockAnnouncements
              (match limit options with Some (S n) => S n | _ => 100 end)
              [2; 7; 15; 42]
        end in
      let filteredAnnouncements :=
        match fromTimestamp options with
        | Some from =>
            if (from =? 0)%Z then announcements
            else filter (fun a => (from < timestamp a)%Z) announcements
        | None => announcements
        end in
      let total := length filteredAnnouncements in
      if (total =? 0)%nat then
        mkScan (mkProgress StageComplete 0 0 "No announcements to scan") result
      else
        let result := scanBatches total existingTxHashes filteredAnnouncements 0 result in
        mkScan
          (mkProgress StageComplete total total
             ("Found " +:+ pretty (found result) +:+ " payment"
              +:+ (if (found result =? 1)%nat then "" else "s")
              +:+ " in " +:+ pretty total +:+ " announcements"))
          result
  end.

(** The known set of a later scan seeded from the payments of an earlier
    one: [new Set(payments.map((p) => p.txHash))]. *)
Definition knownFrom (payments : list PaymentRecord) : gset string :=
  list_to_set (txHash <$> payments).

(** The payment the loop body builds for the [k]-th announcement it finds,
    lines 158-168. *)
Definition paymentFor (k : nat) (announcement : Announcement) : PaymentRecord :=
  mkPayment
    ("payment_" +:+ pretty (clock k) +:+ "_" +:+ pretty k)
    "receive" (amount announcement) (token announcement) "completed"
    (Some ("sip:solana:" +:+ ephemeralPubKey announcement +:+ ":derived"))
    (announcementTxHash announcement) (timestamp announcement) false.

End WithEnvironment.

(** What [generateMockAnnouncement] draws: the reading of the clock, the
    random amount as [toFixed(4)] prints it, and the random number of days
    (0 to 29) the announcement lies back. *)
Record Random : Type := mkRandom {
  now : Z;
  amountText : string;
  daysBack : Z
}.

(** [generateMockAnnouncement], lines 67-82. *)
Definition generateMockAnnouncement (draw : Random) (index : nat) (isOurs : bool)
  : Announcement :=
  mkAnnouncement
    ("ann_" +:+ pretty (now draw) +:+ "_" +:+ pretty index)
    ("0x02" +:+ Js.repeat "ab" 31 +:+ Js.padStart 2 "0" (Js.toString16 index))
    (if isOurs then "MATCH" else "0x" +:+ Js.repeat "cd" 32)
    (amountText draw)
    "SOL"
    (now draw - daysBack draw * 86400000)
    (Js.repeat "ef" 32 +:+ pretty index)
    isOurs.

(** [generateMockAnnouncements], lines 84-91; the announcement of index [i]
    draws [draws i]. *)
Definition generateMockAnnouncements (draws : nat -> Random) (count : nat)
    (ourPaymentIndices : list nat) : list Announcement :=
  map (fun i => generateMockAnnouncement (draws i) i (bool_decide (i ∈ ourPaymentIndices)))
      (seq 0 count).

(** The hash of the mock announcement of index [i]. *)
Definition mockTxHash (i : nat) : string := Js.repeat "ef" 32 +:+ pretty i.

(** A fixed announcement set for runs on concrete input: three
    announcements, the first and the third ours. *)
Definition sampleAnnouncements : list Announcement :=
  [ mkAnnouncement "ann_0" "0x02ab00" "MATCH" "1.0000" "SOL" 10 "ef0" true;
    mkAnnouncement "ann_1" "0x02ab01" "0xcd" "2.0000" "SOL" 20 "ef1" false;
    mkAnnouncement "ann_2" "0x02ab02" "MATCH" "3.0000" "SOL" 30 "ef2" true ].

Definition sampleOptions : Options := mkOptions None None (Some sampleAnnouncements).

Definition sampleKeys : StealthKeys := mkKeys "0xab" "0xcd".

End Scan.

(* ------------------------------------------------------------------ *)
(** ** The helpers of the scan hook ([useScanPayments.test.ts])        *)
(* ------------------------------------------------------------------ *)

Module ScanPayments.
Local Open Scope list_scope.

Section WithAnnouncements.

(** The helpers read one field of an announcement, its [timestamp]. *)
Context {MockAnnouncement : Type} (timestamp : MockAnnouncement -> Z).

(** [filterByTimestamp], lines 110-116: an absent and a zero
    [fromTimestamp] are both falsy. *)
Definition filterByTimestamp (announcements : list MockAnnouncement)
    (fromTimestamp : option Z) : list MockAnnouncement :=
  match fromTimestamp with
  | None => announcements
  | Some from =>
      if (from =? 0)%Z then announcements
      else filter (fun a => (from < timestamp a)%Z) announcements
  end.

End WithAnnouncements.

(** [checkAnnouncementOwnership], lines 96-108, in mock mode and in real
    mode; the keys are not looked at. *)
Definition checkAnnouncementOwnership (stealthAddress : string) (useMock : bool) : bool :=
  if useMock then String.eqb stealthAddress "MATCH" else false.

(** [getCompletionMessage], lines 126-128. *)
Definition getCompletionMessage (found total : nat) : string :=
  "Found " +:+ pretty found +:+ " payment" +:+ (if (found =? 1)%nat then "" else "s")
  +:+ " in " +:+ pretty total +:+ " announcements".

End ScanPayments.

(* ------------------------------------------------------------------ *)
(** ** The helpers of the stealth hook ([useStealth.test.ts])          *)
(* ------------------------------------------------------------------ *)

Module Stealth.
Import Js.

Definition SIP_CHAIN : string := "solana".
Definition STEALTH_PREFIX : string := "sip:".

(** [StealthAddress], lines 13-20. *)
Record StealthAddress : Type := mkAddress {
  full : string;
  encoded : string;
  chain : string;
  spendingKey : string;
  viewingKey : string;
  solanaAddress : string
}.

(** What [formatStealthAddress] returns. *)
Record Formatted : Type := mkFormatted {
  formattedFull : string;
  formattedChain : string;
  formattedSpendingKey : string;
  formattedViewingKey : string
}.

(** What [parseStealthAddressString] returns when it is not [null]. *)
Record Parsed : Type := mkParsed {
  parsedChain : string;
  parsedSpendingKey : string;
  parsedViewingKey : string
}.

(** [formatStealthAddress], lines 36-48. *)
Definition formatStealthAddress (chain spendingPublicKey viewingPublicKey : string)
  : Formatted :=
  let full :=
    STEALTH_PREFIX ++ chain ++ ":" ++ spendingPublicKey ++ ":" ++ viewingPublicKey in
  mkFormatted full chain spendingPublicKey viewingPublicKey.

(** [parseStealthAddressString], lines 56-71. *)
Definition parseStealthAddressString (addressStr : string) : option Parsed :=
  if negb (startsWith STEALTH_PREFIX addressStr) then None
  else
    let parts := split ":" (sliceFrom (String.length STEALTH_PREFIX) addressStr) in
    match parts with
    | [chain; spendingKey; viewingKey] => Some (mkParsed chain spendingKey viewingKey)
    | _ => None
    end.

(** [truncateKey], lines 86-89; the defaults of [startChars] and [endChars]
    are 10 and 6. *)
Definition truncateKey (key : string) (startChars endChars : nat) : string :=
  if (String.length key <=? startChars + endChars + 3)%nat then key
  else sliceTo startChars key ++ "..." ++ sliceLast endChars key.

(** [getChainFromAddress], lines 91-94. *)
Definition getChainFromAddress (address : string) : option string :=
  parsedChain <$> parseStealthAddressString address.

(** The result of the record validator: [valid] and the optional [error]. *)
Record Validity : Type := mkValidity { valid : bool; validityError : option string }.

(** [validateStealthAddress] on a [StealthAddress] record, lines 96-110. *)
Definition validateStealthAddress (address : StealthAddress) : Validity :=
  if negb (startsWith STEALTH_PREFIX (full address)) then
    mkValidity false (Some "Invalid prefix")
  else if negb (startsWith "0x" (spendingKey address)) then
    mkValidity false (Some "Invalid spending key format")
  else if negb (startsWith "0x" (viewingKey address)) then
    mkValidity false (Some "Invalid viewing key format")
  else if negb (includes ["solana"; "ethereum"; "near"] (chain address)) then
    mkValidity false (Some "Unsupported chain")
  else mkValidity true None.

End Stealth.

(* ------------------------------------------------------------------ *)
(** ** Security utilities ([security.ts])                              *)
(* ------------------------------------------------------------------ *)

Module Security.
Import Js.

(** Session timeout (5 minutes), maximum of PIN attempts and PIN lockout. *)
Definition SESSION_TIMEOUT_MS : Z := 5 * 60 * 1000.
Definition MAX_PIN_ATTEMPTS : Z := 5.
Definition PIN_LOCKOUT_MS : Z := 5 * 60 * 1000.

(** The text [generateRandomHex], lines 108-113, makes of the random bytes
    it was given:
    [Array.from(randomBytes).map((b) => b.toString(16).padStart(2, "0")).join("")]. *)
Definition hexOfRandomBytes (randomBytes : list byte) : string :=
  join "" (map (fun b => padStart 2 "0" (toString16 (N.to_nat (Byte.to_N b)))) randomBytes).

(** [generateRandomHex]; [getRandomBytesAsync] is the source of entropy of
    [expo-crypto], and the default of [bytes] is 32. *)
Definition generateRandomHex (getRandomBytesAsync : nat -> outcome (list byte))
    (bytes : nat) : outcome string :=
  bindO (getRandomBytesAsync bytes) (fun randomBytes =>
  Returned (hexOfRandomBytes randomBytes)).

(** The character class [\d]. *)
Definition isDigit (c : ascii) : bool := inRange 48 57 c.

(** [isValidPin], lines 131-134: [/^\d{4,6}$/.test(pin)]. *)
Definition isValidPin (pin : string) : bool :=
  (4 <=? String.length pin)%nat && (String.length pin <=? 6)%nat && allChars isDigit pin.

(** The letter of either case read as its lower-case form: how a pattern of
    lower-case ASCII letters compares under the flag [i]. *)
Definition toLower (c : ascii) : ascii :=
  if inRange 65 90 c then ascii_of_nat (nat_of_ascii c + 32) else c.

(** [pattern] (lower-case letters and punctuation) matches at the start of
    [s], ignoring case. *)
Fixpoint matchesIgnoreCase (pattern s : string) : bool :=
  match pattern, s with
  | EmptyString, _ => true
  | String p pattern', String c s' =>
      Ascii.eqb (toLower c) p && matchesIgnoreCase pattern' s'
  | String _ _, EmptyString => false
  end.

(** The character class [\w]. *)
Definition isWordChar (c : ascii) : bool :=
  inRange 97 122 c || inRange 65 90 c || inRange 48 57 c || Ascii.eqb c "_".

(** The length of the longest run of word characters at the start of [s],
    and what follows it. *)
Fixpoint wordRun (s : string) : nat * string :=
  match s with
  | String c r => if isWordChar c then let (n, rest) := wordRun r in (S n, rest) else (0, s)
  | EmptyString => (0, s)
  end.

(** The length of the match of [/javascript:/i] at the start of [s]. *)
Definition matchJavascript (s : string) : option nat :=
  if matchesIgnoreCase "javascript:" s then Some 11 else None.

(** The length of the match of [/on\w+=/i] at the start of [s]: the greedy
    [\w+] takes the whole run of word characters, and giving characters
    back cannot help, [=] not being a word character. *)
Definition matchHandler (s : string) : option nat :=
  if matchesIgnoreCase "on" s then
    let (n, rest) := wordRun (sliceFrom 2 s) in
    if (1 <=? n)%nat && startsWith "=" rest then Some (2 + n + 1) else None
  else None.

(** [s.replace(re, "")] for a global pattern whose matches are not empty:
    the string is read from the left; where the pattern matches, the match
    is dropped and reading goes on behind it; elsewhere one character is
    kept.  [skip] counts the characters of a match still to drop. *)
Fixpoint removeMatches (matchAt : string -> option nat) (skip : nat) (s : string) : string :=
  match s with
  | EmptyString => EmptyString
  | String c r =>
      match skip with
      | S k => removeMatches matchAt k r
      | O =>
          match matchAt s with
          | Some (S k) => removeMatches matchAt k r
          | _ => String c (removeMatches matchAt 0 r)
          end
      end
  end.

(** [s.replace(/[<>]/g, "")] *)
Fixpoint removeAngleBrackets (s : string) : string :=
  match s with
  | EmptyString => EmptyString
  | String c r =>
      if Ascii.eqb c "<" || Ascii.eqb c ">" then removeAngleBrackets r
      else String c (removeAngleBrackets r)
  end.

(** Neither [<] nor [>]. *)
Definition noAngleBracket (c : ascii) : bool :=
  negb (Ascii.eqb c "<" || Ascii.eqb c ">").

(** [sanitizeInput], lines 147-153. *)
Definition sanitizeInput (input : string) : string :=
  trim (removeMatches matchHandler 0
          (removeMatches matchJavascript 0 (removeAngleBrackets input))).

(** [maskSensitiveData], lines 158-164; the default of [visibleChars] is 4. *)
Definition maskSensitiveData (data : string) (visibleChars : nat) : string :=
  if (String.length data <=? visibleChars * 2)%nat then "***"
  else sliceTo visibleChars data ++ "..." ++ sliceLast visibleChars data.

(** [RateLimitEntry], lines 170-173. *)
Record RateLimitEntry : Type := mkEntry { count : Z; firstAttempt : Z }.

(** The module state: the map [rateLimitMap] and the variable
    [lastActivityTimestamp]. *)
Record Memory : Type := mkMemory {
  rateLimitMap : gmap string RateLimitEntry;
  lastActivityTimestamp : Z
}.

(** [isRateLimited], lines 180-207, called when [Date.now()] reads [now]:
    the answer and the module state it leaves.  [entry.count++] changes the
    entry the map holds. *)
Definition isRateLimited (action : string) (maxAttempts windowMs : Z) (now : Z)
    (m : Memory) : bool * Memory :=
  let store (entry : RateLimitEntry) :=
    mkMemory (<[action := entry]> (rateLimitMap m)) (lastActivityTimestamp m) in
  match rateLimitMap m !! action with
  | None => (false, store (mkEntry 1 now))
  | Some entry =>
      if (windowMs <? now - firstAttempt entry)%Z then (false, store (mkEntry 1 now))
      else if (maxAttempts <=? count entry)%Z then (true, m)
      else (false, store (mkEntry (count entry + 1) (firstAttempt entry)))
  end.

(** [resetRateLimit], lines 212-214. *)
Definition resetRateLimit (action : string) (m : Memory) : Memory :=
  mkMemory (delete action (rateLimitMap m)) (lastActivityTimestamp m).

(** [getRateLimitRemaining], lines 219-227. *)
Definition getRateLimitRemaining (action : string) (windowMs : Z) (now : Z)
    (m : Memory) : Z :=
  match rateLimitMap m !! action with
  | None => 0
  | Some entry =>
      let elapsed := (now - firstAttempt entry)%Z in
      let remaining := (windowMs - elapsed)%Z in
      if (0 <? remaining)%Z then remaining else 0%Z
  end.

(** [updateActivity], lines 238-240. *)
Definition updateActivity (now : Z) (m : Memory) : Memory :=
  mkMemory (rateLimitMap m) now.

(** [isSessionExpired], lines 245-247; the default of [timeoutMs] is
    [SESSION_TIMEOUT_MS]. *)
Definition isSessionExpired (timeoutMs : Z) (now : Z) (m : Memory) : bool :=
  (timeoutMs <? now - lastActivityTimestamp m)%Z.

(** [getSessionRemaining], lines 252-257. *)
Definition getSessionRemaining (timeoutMs : Z) (now : Z) (m : Memory) : Z :=
  let remaining := (timeoutMs - (now - lastActivityTimestamp m))%Z in
  if (0 <? remaining)%Z then remaining else 0%Z.

(** [clearSensitiveMemory], lines 340-346. *)
Definition clearSensitiveMemory (m : Memory) : Memory := mkMemory ∅ 0.

(** A series of calls of [isRateLimited] for one action, at the given
    readings of the clock: the answers, and the state left. *)
Fixpoint attempts (action : string) (maxAttempts windowMs : Z) (times : list Z)
    (m : Memory) : list bool * Memory :=
  match times with
  | [] => ([], m)
  | now :: later =>
      let (answer, m') := isRateLimited action maxAttempts windowMs now m in
      let (answers, m'') := attempts action maxAttempts windowMs later m' in
      (answer :: answers, m'')
  end.

End Security.

(* ------------------------------------------------------------------ *)
(** ** Biometric and PIN authentication ([useBiometrics.ts])           *)
(* ------------------------------------------------------------------ *)

Module Biometrics.
Import Js.
Local Open Scope list_scope.

(** [AuthResult], lines 28-30: success, or an error that may be a
    cancellation. *)
Inductive AuthResult : Type :=
| AuthOk
| AuthFailed (error : string) (cancelled : bool).

Definition isSuccess (result : AuthResult) : bool :=
  match result with AuthOk => true | AuthFailed _ _ => false end.

Inductive Operation : Type := OpSend | OpClaim | OpExport.

(** What the hook reads of the security store when it renders. *)
Record Store : Type := mkStore {
  biometricsEnabled : bool;
  requireBiometricsForSend : bool;
  requireBiometricsForClaim : bool;
  requireBiometricsForExport : bool;
  pinEnabled : bool;
  pinHash : option string;
  pinAttempts : Z;
  pinLockedUntil : option Z;
  isAuthenticated : bool
}.

(** The two fields of [BiometricCapabilities] the hook tests. *)
Record Capabilities : Type := mkCapabilities { isAvailable : bool; isEnrolled : bool }.

(** The result of [LocalAuthentication.authenticateAsync]. *)
Record PromptResult : Type := mkPrompt { promptSuccess : bool; promptError : option string }.

(** What a call does besides returning: the actions of the security store
    it calls, the prompts it shows and the digests it asks for, in order. *)
Inductive Effect : Type :=
| SetPinHash (hash : option string)
| SetPinEnabled (enabled : bool)
| ResetPinAttempts
| IncrementPinAttempts
| StoreAuthenticate
| Prompt (message : string)
| Digest (input : string).

Definition DEFAULT_AUTH_REASON : string := "Verify your identity to continue".

(** The message of a caught value: [err instanceof Error ? err.message : ...];
    every value thrown here is an [Error]. *)
Definition messageOf (e : JsError) : string :=
  match e with RangeError m => m | Error m => m end.

(** [Math.ceil(x / d)] on integers, [0 < d]. *)
Definition ceilDiv (x d : Z) : Z := (- ((- x) / d))%Z.

Section WithDevice.

(** [Crypto.digestStringAsync(SHA256, .)] and
    [LocalAuthentication.authenticateAsync({promptMessage: ., ...})]. *)
Variable digestStringAsync : string -> outcome string.
Variable authenticateAsync : string -> outcome PromptResult.

(** [hashPin], lines 85-91. *)
Definition hashPin (pin : string) : outcome string * list Effect :=
  (digestStringAsync (pin +:+ "sip-salt-v1"), [Digest (pin +:+ "sip-salt-v1")]).

(** [authenticate], lines 160-196; the default of [reason] is
    [DEFAULT_AUTH_REASON]. *)
Definition authenticate (capabilities : option Capabilities) (reason : string)
  : AuthResult * list Effect :=
  if negb (from_option isAvailable false capabilities)
     || negb (from_option isEnrolled false capabilities) then
    (AuthFailed "Biometrics not available on this device" false, [])
  else
    match authenticateAsync reason with
    | Returned result =>
        if promptSuccess result then (AuthOk, [Prompt reason; StoreAuthenticate])
        else if bool_decide (promptError result = Some "user_cancel") then
          (AuthFailed "Cancelled" true, [Prompt reason])
        else
          (AuthFailed (match promptError result with
                       | Some e => if String.eqb e "" then "Authentication failed" else e
                       | None => "Authentication failed"
                       end) false, [Prompt reason])
    | Thrown err => (AuthFailed (messageOf err) false, [Prompt reason])
    end.

(** [authenticateForOperation], lines 198-242. *)
Definition authenticateForOperation (store : Store) (capabilities : option Capabilities)
    (operation : Operation) (reason : option string) : AuthResult * list Effect :=
  let required :=
    match operation with
    | OpSend => requireBiometricsForSend store
    | OpClaim => requireBiometricsForClaim store
    | OpExport => requireBiometricsForExport store
    end in
  if negb required || negb (biometricsEnabled store) then (AuthOk, [])
  else if isAuthenticated store then (AuthOk, [])
  else
    let defaultReason :=
      match operation with
      | OpSend => "Authenticate to send payment"
      | OpClaim => "Authenticate to claim payment"
      | OpExport => "Authenticate to export viewing key"
      end in
    authenticate capabilities
      (match reason with
       | Some r => if String.eqb r "" then defaultReason else r
       | None => defaultReason
       end).

(** [isPinLocked], lines 277-280, when [Date.now()] reads [now]. *)
Definition isPinLocked (store : Store) (now : Z) : bool :=
  match pinLockedUntil store with
  | None => false
  | Some lockedUntil => if (lockedUntil =? 0)%Z then false else (now <? lockedUntil)%Z
  end.

(** [getPinLockRemaining], lines 282-286. *)
Definition getPinLockRemaining (store : Store) (now : Z) : Z :=
  match pinLockedUntil store with
  | None => 0
  | Some lockedUntil =>
      if (lockedUntil =? 0)%Z then 0%Z
      else let remaining := (lockedUntil - now)%Z in
           if (0 <? remaining)%Z then remaining else 0%Z
  end.

(** [verifyPin], lines 288-333; [now1] and [now2] are the readings of the
    clock in [isPinLocked] and in [getPinLockRemaining]. *)
Definition verifyPin (store : Store) (now1 now2 : Z) (pin : string)
  : outcome AuthResult * list Effect :=
  if isPinLocked store now1 then
    let remainingSec := ceilDiv (getPinLockRemaining store now2) 1000 in
    (Returned (AuthFailed ("Too many attempts. Try again in " +:+ pretty remainingSec
                           +:+ "s") false), [])
  else
    match pinEnabled store, pinHash store with
    | true, Some stored =>
        if String.eqb stored "" then (Returned (AuthFailed "PIN not set" false), [])
        else
          let (digest, asked) := hashPin pin in
          match digest with
          | Thrown err => (Thrown err, asked)
          | Returned hash =>
              if String.eqb hash stored then
                (Returned AuthOk, asked ++ [ResetPinAttempts; StoreAuthenticate])
              else
                let attemptsLeft := (5 - pinAttempts store - 1)%Z in
                (Returned
                   (AuthFailed
                      (if (0 <? attemptsLeft)%Z then
                         "Incorrect PIN. " +:+ pretty attemptsLeft +:+ " attempt"
                         +:+ (if (attemptsLeft =? 1)%Z then "" else "s") +:+ " remaining"
                       else "Too many attempts. Please wait 5 minutes.") false),
                 asked ++ [IncrementPinAttempts])
          end
    | _, _ => (Returned (AuthFailed "PIN not set" false), [])
    end.

(** [setPin], lines 335-351. *)
Definition setPin (pin : string) : outcome unit * list Effect :=
  if (String.length pin <? 4)%nat || (6 <? String.length pin)%nat then
    (Thrown (Error "PIN must be 4-6 digits"), [])
  else if negb (negb (String.eqb pin "") && allChars Security.isDigit pin) then
    (Thrown (Error "PIN must contain only numbers"), [])
  else
    let (digest, asked) := hashPin pin in
    match digest with
    | Thrown err => (Thrown err, asked)
    | Returned hash =>
        (Returned tt, asked ++ [SetPinHash (Some hash); SetPinEnabled true; ResetPinAttempts])
    end.

(** [clearPin], lines 353-357. *)
Definition clearPin : list Effect :=
  [SetPinEnabled false; SetPinHash None; ResetPinAttempts].

End WithDevice.

End Biometrics.

(* ------------------------------------------------------------------ *)
(** ** The mock RPC client of the flows ([mockRpc.ts])                 *)
(* ------------------------------------------------------------------ *)

Module MockRpc.
Import Js.

Inductive ConfirmationStatus : Type := Processed | Confirmed | Finalized.

(** [MockTransaction], lines 21-26. *)
Record MockTransaction : Type := mkTransaction {
  signature : string;
  slot : Z;
  blockTime : Z;
  confirmationStatus : ConfirmationStatus
}.

(** [MockAccount], lines 14-19. *)
Record MockAccount : Type := mkAccount {
  pubkey : string;
  lamports : float;
  owner : string;
  accountData : string
}.

(** [MockRpcConfig], lines 28-33. *)
Record MockRpcConfig : Type := mkConfig {
  network : string;
  delay : Z;
  shouldFail : bool;
  failureMessage : option string
}.

(** An object of class [MockRpcClient], lines 110-223. *)
Record MockRpcClient : Type := mkClient {
  config : MockRpcConfig;
  accounts : gmap string MockAccount;
  transactions : gmap string MockTransaction
}.

(** What [createMockTransaction] draws: the random signature and slot, and
    the reading of the clock in seconds. *)
Record Draw : Type := mkDraw {
  drawSignature : string;
  drawSlot : Z;
  drawBlockTime : Z
}.

(** [createMockTransaction], lines 83-92. *)
Definition createMockTransaction (draw : Draw) (status : ConfirmationStatus)
  : MockTransaction :=
  mkTransaction (drawSignature draw) (drawSlot draw) (drawBlockTime draw) status.

(** [checkFailure], lines 130-134: an empty message is falsy too. *)
Definition checkFailure (this : MockRpcClient) : outcome unit :=
  if shouldFail (config this) then
    Thrown (Error (match failureMessage (config this) with
                   | Some m => if String.eqb m "" then "RPC request failed" else m
                   | None => "RPC request failed"
                   end))
  else Returned tt.

(** [sendTransaction], lines 161-168. *)
Definition sendTransaction (draw : Draw) (this : MockRpcClient)
  : outcome string * MockRpcClient :=
  match checkFailure this with
  | Thrown e => (Thrown e, this)
  | Returned _ =>
      let tx := createMockTransaction draw Processed in
      (Returned (signature tx),
       mkClient (config this) (accounts this)
                (<[signature tx := tx]> (transactions this)))
  end.

(** [confirmTransaction], lines 170-182: the result is [value.err], which
    is always [null]. *)
Definition confirmTransaction (sig : string) (this : MockRpcClient)
  : outcome (option unit) * MockRpcClient :=
  match checkFailure this with
  | Thrown e => (Thrown e, this)
  | Returned _ =>
      (Returned None,
       match transactions this !! sig with
       | Some tx =>
           mkClient (config this) (accounts this)
             (<[sig := mkTransaction (signature tx) (slot tx) (blockTime tx) Confirmed]>
                (transactions this))
       | None => this
       end)
  end.

(** [setFailure], lines 212-215, and [reset], lines 218-222. *)
Definition setFailure (fail : bool) (message : option string) (this : MockRpcClient)
  : MockRpcClient :=
  mkClient (mkConfig (network (config this)) (delay (config this)) fail message)
           (accounts this) (transactions this).

Definition reset (this : MockRpcClient) : MockRpcClient :=
  mkClient (mkConfig (network (config this)) (delay (config this)) false
                     (failureMessage (config this))) ∅ ∅.

(** [new MockRpcClient(config)], lines 115-122, for a partial [config]; a
    missing, empty or zero field takes its default. *)
Definition new (network : option string) (delay : option Z) (shouldFail : option bool)
    (failureMessage : option string) : MockRpcClient :=
  mkClient
    (mkConfig (match network with
               | Some n => if String.eqb n "" then "devnet" else n
               | None => "devnet"
               end)
              (match delay with
               | Some d => if (d =? 0)%Z then 100%Z else d
               | None => 100%Z
               end)
              (default false shouldFail)
              failureMessage)
    ∅ ∅.

(** The shared instance: [export const mockRpc = new MockRpcClient()]. *)
Definition mockRpc : MockRpcClient := new None None None None.

End MockRpc.

(* ------------------------------------------------------------------ *)
(** ** The claim flow (claim flow tests and [useClaim] helpers)        *)
(* ------------------------------------------------------------------ *)

Module Claim.
Import Js MockRpc.
Local Open Scope list_scope.

Inductive ClaimStatus : Type :=
| ClaimIdle | ClaimDeriving | ClaimSigning | ClaimSubmitting | ClaimConfirmed | ClaimError.

(** [PaymentRecord] of the claim flow: here the transaction hash is
    optional. *)
Record PaymentRecord : Type := mkPayment {
  paymentId : string;
  paymentType : string;
  paymentAmount : string;
  paymentToken : string;
  paymentStatus : string;
  paymentStealthAddress : option string;
  paymentTxHash : option string;
  paymentTimestamp : Z;
  claimed : bool
}.

(** A payment record of the scan flow is one of the claim flow. *)
Definition ofScan (payment : Scan.PaymentRecord) : PaymentRecord :=
  mkPayment (Scan.paymentId payment) (Scan.paymentType payment)
    (Scan.paymentAmount payment) (Scan.paymentToken payment)
    (Scan.paymentStatus payment) (Scan.paymentStealthAddress payment)
    (Some (Scan.txHash payment)) (Scan.paymentTimestamp payment) (Scan.claimed payment).

Record StealthKeys : Type := mkKeys {
  spendingPrivateKey : string;
  spendingPublicKey : string;
  viewingPrivateKey : string;
  viewingPublicKey : string
}.

Record ClaimResult : Type := mkResult {
  success : bool;
  txHash : option string;
  error : option string
}.

Record ClaimRun : Type := mkRun { status : ClaimStatus; result : ClaimResult }.

Definition failed (msg : string) : ClaimRun :=
  mkRun ClaimError (mkResult false None (Some msg)).

(** The message of a caught value; every value thrown here is an [Error]. *)
Definition messageOf (e : JsError) : string :=
  match e with RangeError m => m | Error m => m end.

(** [executeClaimFlow], claim flow tests lines 67-150, against the shared
    client [mockRpc]; [draw] is what the submission draws. *)
Definition executeClaimFlow (payment : option PaymentRecord) (keys : option StealthKeys)
    (destinationAddress : string) (draw : Draw) (mockRpc : MockRpcClient)
  : ClaimRun * MockRpcClient :=
  match payment with
  | None => (failed "No payment to claim", mockRpc)
  | Some payment =>
  if claimed payment then (failed "Payment already claimed", mockRpc)
  else if negb (String.eqb (paymentType payment) "receive") then
    (failed "Can only claim received payments", mockRpc)
  else if negb (String.eqb (paymentStatus payment) "completed") then
    (failed "Payment not yet completed", mockRpc)
  else
  match keys with
  | None => (failed "Stealth keys not found", mockRpc)
  | Some keys =>
  if negb (from_option (fun a => negb (String.eqb a "") && startsWith "sip:" a) false
             (paymentStealthAddress payment)) then
    (failed "Invalid stealth address format", mockRpc)
  else
    match sendTransaction draw mockRpc with
    | (Thrown err, mockRpc) => (failed (messageOf err), mockRpc)
    | (Returned sig, mockRpc) =>
        match confirmTransaction sig mockRpc with
        | (Thrown err, mockRpc) => (failed (messageOf err), mockRpc)
        | (Returned (Some _), mockRpc) => (failed "Claim failed on-chain", mockRpc)
        | (Returned None, mockRpc) =>
            (mkRun ClaimConfirmed (mkResult true (Some sig) None), mockRpc)
        end
    end
  end
  end.

(** [executeMultiClaimFlow], lines 156-174; the [i]-th claim draws
    [draws i]. *)
Fixpoint executeMultiClaimFlowFrom (i : nat) (payments : list PaymentRecord)
    (keys : option StealthKeys) (destinationAddress : string) (draws : nat -> Draw)
    (mockRpc : MockRpcClient) : list ClaimResult * MockRpcClient :=
  match payments with
  | [] => ([], mockRpc)
  | payment :: rest =>
      let (run, mockRpc) :=
        executeClaimFlow (Some payment) keys destinationAddress (draws i) mockRpc in
      let (results, mockRpc) :=
        executeMultiClaimFlowFrom (S i) rest keys destinationAddress draws mockRpc in
      (result run :: results, mockRpc)
  end.

Definition executeMultiClaimFlow := executeMultiClaimFlowFrom 0.

(** [StealthAddress] of the claim hook helpers, lines 34-38. *)
Record StealthAddress : Type := mkStealthAddress {
  address : string;
  ephemeralPublicKey : string;
  viewTag : JsInteger
}.

(** [parsePaymentStealthAddress] of the claim hook helpers, lines 59-82. *)
Definition parsePaymentStealthAddress (addressStr : option string)
  : option StealthAddress :=
  match addressStr with
  | None => None
  | Some addressStr =>
      if String.eqb addressStr "" then None
      else if startsWith "sip:" addressStr then
        match split ":" addressStr with
        | _ :: _ :: ephemeralPubKey :: rest =>
            let viewTag := parseInt16 (slice 2 4 ephemeralPubKey) in
            Some (mkStealthAddress
                    (match rest with
                     | part :: _ => part
                     | [] => ""
                     end)
                    (if startsWith "0x" ephemeralPubKey then ephemeralPubKey
                     else "0x" ++ ephemeralPubKey)
                    viewTag)
        | _ => None
        end
      else None
  end.

(** The checks a claim makes on the payment before it submits, lines 73-111
    (the check of the keys apart). *)
Definition claimable (payment : PaymentRecord) : bool :=
  negb (claimed payment)
  && String.eqb (paymentType payment) "receive"
  && String.eqb (paymentStatus payment) "completed"
  && from_option (fun a => negb (String.eqb a "") && startsWith "sip:" a) false
       (paymentStealthAddress payment).

(** The transaction with this signature is held as confirmed. *)
Definition confirmedIn (mockRpc : MockRpcClient) (sig : string) : Prop :=
  exists tx, transactions mockRpc !! sig = Some tx /\ confirmationStatus tx = Confirmed.

(** [canClaim] of the claim hook helpers, lines 113-115. *)
Definition canClaim (paymentStatus : string) (claimed : bool) : bool :=
  String.eqb paymentStatus "completed" && negb claimed.

(** [isClaimComplete] and [isClaimInProgress], lines 103-111. *)
Definition isClaimComplete (status : ClaimStatus) : bool :=
  match status with ClaimConfirmed | ClaimError => true | _ => false end.

Definition isClaimInProgress (status : ClaimStatus) : bool :=
  match status with ClaimDeriving | ClaimSigning | ClaimSubmitting => true | _ => false end.

(** The keys the claim flow tests use, and a submission for runs on
    concrete input. *)
Definition MOCK_STEALTH_KEYS : StealthKeys :=
  mkKeys ("0x" ++ Js.repeat "ab" 32) ("0x" ++ Js.repeat "cd" 32)
         ("0x" ++ Js.repeat "ef" 32) ("0x" ++ Js.repeat "12" 32).

Definition sampleDraw : Draw := mkDraw "5Sig" 200000001 1700000000.

End Claim.

(* ------------------------------------------------------------------ *)
(** ** Viewing key disclosures ([useViewingKeys.test.ts])              *)
(* ------------------------------------------------------------------ *)

Module ViewingKeys.
Import Js.
Local Open Scope list_scope.

(** [DisclosureInput], lines 21-26, and [DisclosedKey], lines 28-36. *)
Record DisclosureInput : Type := mkInput {
  inputViewingKey : string;
  inputRecipientName : string;
  inputPurpose : string;
  inputExpiresAt : option Z
}.

Record DisclosedKey : Type := mkDisclosed {
  id : string;
  viewingKey : string;
  recipientName : string;
  purpose : string;
  disclosedAt : Z;
  expiresAt : option Z;
  revoked : bool
}.

Record Validity : Type := mkValidity { valid : bool; error : option string }.

(** An optional timestamp is truthy when it is there and is not 0. *)
Definition truthy (timestamp : option Z) : bool :=
  match timestamp with
  | Some t => negb (t =? 0)%Z
  | None => false
  end.

(** [createDisclosure], lines 88-101, when the clock reads [now]. *)
Definition createDisclosure (input : DisclosureInput) (id : string) (now : Z)
  : DisclosedKey :=
  mkDisclosed id (inputViewingKey input) (inputRecipientName input) (inputPurpose input)
              now (inputExpiresAt input) false.

(** [isDisclosureExpired], lines 103-106, when the clock reads [now]. *)
Definition isDisclosureExpired (disclosure : DisclosedKey) (now : Z) : bool :=
  if negb (truthy (expiresAt disclosure)) then false
  else (default 0%Z (expiresAt disclosure) <? now)%Z.

(** [isDisclosureActive], lines 108-110. *)
Definition isDisclosureActive (disclosure : DisclosedKey) (now : Z) : bool :=
  negb (revoked disclosure) && negb (isDisclosureExpired disclosure now).

(** A filter whose callback reads the clock for each element: [clock i] is
    the reading for the element at index [i]. *)
Fixpoint filterFrom {A} (keep : A -> Z -> bool) (clock : nat -> Z) (i : nat)
    (items : list A) : list A :=
  match items with
  | [] => []
  | x :: rest =>
      if keep x (clock i) then x :: filterFrom keep clock (S i) rest
      else filterFrom keep clock (S i) rest
  end.

Definition filterAt {A} (keep : A -> Z -> bool) (clock : nat -> Z) (items : list A)
  : list A :=
  filterFrom keep clock 0 items.

(** [getActiveDisclosures], [getRevokedDisclosures] and
    [getExpiredDisclosures], lines 112-122. *)
Definition getActiveDisclosures (clock : nat -> Z) (disclosures : list DisclosedKey)
  : list DisclosedKey :=
  filterAt isDisclosureActive clock disclosures.

Definition getRevokedDisclosures (disclosures : list DisclosedKey) : list DisclosedKey :=
  filter (fun d => revoked d = true) disclosures.

Definition getExpiredDisclosures (clock : nat -> Z) (disclosures : list DisclosedKey)
  : list DisclosedKey :=
  filterAt (fun d now => negb (revoked d) && isDisclosureExpired d now) clock disclosures.

(** [validateDisclosureInput], lines 124-138, when the clock reads [now]. *)
Definition validateDisclosureInput (input : DisclosureInput) (now : Z) : Validity :=
  if String.eqb (inputViewingKey input) "" then
    mkValidity false (Some "Viewing key is required")
  else if String.eqb (inputRecipientName input) ""
          || String.eqb (trim (inputRecipientName input)) "" then
    mkValidity false (Some "Recipient name is required")
  else if String.eqb (inputPurpose input) ""
          || String.eqb (trim (inputPurpose input)) "" then
    mkValidity false (Some "Purpose is required")
  else if truthy (inputExpiresAt input)
          && (default 0%Z (inputExpiresAt input) <=? now)%Z then
    mkValidity false (Some "Expiration must be in the future")
  else mkValidity true None.

(** [truncateViewingKey], lines 140-143. *)
Definition truncateViewingKey (key : string) : string :=
  if (String.length key <=? 16)%nat then key
  else sliceTo 8 key ++ "..." ++ sliceLast 6 key.

End ViewingKeys.

(* ------------------------------------------------------------------ *)
(** ** The send flow of the end-to-end tests                           *)
(* ------------------------------------------------------------------ *)

Module SendFlow.
Import Js MockRpc.
Local Open Scope list_scope.

Inductive PrivacyLevel : Type := Transparent | Shielded | Compliant.

(** [SendParams], send flow tests lines 509-514; the status and the result
    are the types of the hook, which the tests mirror. *)
Record SendParams : Type := mkParams {
  amount : string;
  recipient : string;
  privacyLevel : PrivacyLevel;
  memo : option string
}.

Record SendFlowRun : Type := mkRun {
  status : Send.SendStatus;
  result : Send.SendResult
}.

Definition failed (msg : string) : SendFlowRun :=
  mkRun Send.Failed (Send.mkResult false None (Some msg)).

(** The message of a caught value; every value thrown here is an [Error]. *)
Definition messageOf (e : JsError) : string :=
  match e with RangeError m => m | Error m => m end.

Section WithBuiltins.

(** [parseFloat], and the signer the caller passes. *)
Variable parseFloat : string -> float.
Variable signTransaction : list byte -> outcome (option (list byte)).

(** [executeSendFlow], send flow tests lines 526-620; a signer that throws
    makes the flow throw, the call being outside the [try]. *)
Definition executeSendFlow (params : SendParams) (walletAddress : string)
    (balance : float) (draw : Draw) (mockRpc : MockRpcClient)
  : outcome SendFlowRun * MockRpcClient :=
  if String.eqb (recipient params) "" || String.eqb (trim (recipient params)) "" then
    (Returned (failed "Recipient address is required"), mockRpc)
  else
    let isStealthAddress := startsWith "sip:" (recipient params) in
    if negb isStealthAddress && negb (MetaAddress.SOLANA_ADDRESS_REGEX (recipient params))
    then (Returned (failed "Invalid recipient address"), mockRpc)
    else
      let amount := parseFloat (amount params) in
      if is_nan amount || (amount <=? 0)%float then
        (Returned (failed "Invalid amount"), mockRpc)
      else if (balance <? amount)%float then
        (Returned (failed "Insufficient balance"), mockRpc)
      else if (amount <? 0.001)%float then
        (Returned (failed "Minimum amount is 0.001 SOL"), mockRpc)
      else
        let txBytes := replicate 512 x00 in
        match signTransaction txBytes with
        | Thrown err => (Thrown err, mockRpc)
        | Returned None => (Returned (failed "Transaction signing rejected"), mockRpc)
        | Returned (Some signedTx) =>
            match sendTransaction draw mockRpc with
            | (Thrown err, mockRpc) => (Returned (failed (messageOf err)), mockRpc)
            | (Returned sig, mockRpc) =>
                match confirmTransaction sig mockRpc with
                | (Thrown err, mockRpc) => (Returned (failed (messageOf err)), mockRpc)
                | (Returned (Some _), mockRpc) =>
                    (Returned (failed "Transaction failed on-chain"), mockRpc)
                | (Returned None, mockRpc) =>
                    (Returned (mkRun Send.Confirmed (Send.mkResult true (Some sig) None)),
                     mockRpc)
                end
            end
        end.

End WithBuiltins.

End SendFlow.

(* ================================================================== *)
(** * Part II: properties                                              *)
(* ================================================================== *)

Module HexFacts.
Import Js Hex.

(** What the two characters written for one byte decode to. *)
Lemma byte_digits (b : byte) :
  let n := N.to_nat (Byte.to_N b) in
  hexValue (hexDigit (n / 16)) = Some (n / 16)
  /\ hexValue (hexDigit (n mod 16)) = Some (n mod 16)
  /\ byte_of_Z (Z.of_nat (16 * (n / 16) + n mod 16)) = b
  /\ isLowerHexChar (hexDigit (n / 16)) = true
  /\ isLowerHexChar (hexDigit (n mod 16)) = true
  /\ Ascii.eqb (hexDigit (n mod 16)) "x" = false.
Proof. destruct b; vm_compute; repeat split; reflexivity. Qed.

Lemma decodePairs_bytesToHex (bs : list byte) :
  decodePairs (bytesToHex bs) = Some bs.
Proof.
  induction bs as [|b bs IH]; [reflexivity|].
  destruct (byte_digits b) as (Hhi & Hlo & Hb & _).
  cbn [bytesToHex decodePairs]. cbv zeta in Hhi, Hlo, Hb.
  rewrite Hhi, Hlo, IH, Hb. reflexivity.
Qed.

(** The output never starts with the [0x] marker, so [hexToBytes] strips
    nothing from it. *)
Lemma bytesToHex_no_marker (bs : list byte) :
  startsWith "0x" (bytesToHex bs) = false.
Proof.
  destruct bs as [|b bs]; [reflexivity|].
  destruct (byte_digits b) as (_ & _ & _ & _ & _ & Hx).
  cbn [bytesToHex]. cbv zeta in Hx. unfold startsWith.
  cbn [String.prefix]. destruct (ascii_dec _ _) as [_|]; [|reflexivity].
  destruct (ascii_dec _ _) as [Heq|]; [|reflexivity].
  rewrite <- Heq in Hx. discriminate Hx.
Qed.

Lemma bytesToHex_length (bs : list byte) :
  String.length (bytesToHex bs) = 2 * length bs.
Proof. induction bs as [|b bs IH]; cbn [bytesToHex String.length length]; lia. Qed.

Lemma bytesToHex_lowercase (bs : list byte) :
  allChars isLowerHexChar (bytesToHex bs) = true.
Proof.
  induction bs as [|b bs IH]; [reflexivity|].
  destruct (byte_digits b) as (_ & _ & _ & Hhi & Hlo & _).
  cbn [bytesToHex allChars]. cbv zeta in Hhi, Hlo. by rewrite Hhi, Hlo, IH.
Qed.

(** The vectors of the tests of lib/stealth.ts. *)
Example hex_vectors :
  bytesToHex [] = ""
  /\ bytesToHex [x00] = "00" /\ bytesToHex [xff] = "ff"
  /\ bytesToHex [x0f] = "0f" /\ bytesToHex [x10] = "10"
  /\ bytesToHex [x01; x02; x03] = "010203"
  /\ bytesToHex [xff; x00; x80] = "ff0080"
  /\ hexToBytes "" = HexOk []
  /\ hexToBytes "0x0102" = HexOk [x01; x02]
  /\ hexToBytes "FF" = HexOk [xff]
  /\ hexToBytes "aB" = HexOk [xab]
  /\ hexToBytes "abc" = HexErr InvalidEncoding
  /\ hexToBytes "zz" = HexErr InvalidEncoding.
Proof. repeat split; reflexivity. Qed.

(** C7.  Hex round trip: decoding the hex text of any byte sequence gives the
    sequence back; the text has two characters per byte, all of them lowercase
    hex digits (so no separator), and the empty sequence gives the empty
    string. *)
Theorem hexToBytes_bytesToHex (b : list byte) :
  hexToBytes (bytesToHex b) = HexOk b
  /\ String.length (bytesToHex b) = 2 * length b
  /\ allChars isLowerHexChar (bytesToHex b) = true
  /\ bytesToHex [] = "".
Proof.
  split; [|auto using bytesToHex_length, bytesToHex_lowercase].
  unfold hexToBytes. by rewrite bytesToHex_no_marker, decodePairs_bytesToHex.
Qed.

End HexFacts.

Module MetaAddressFacts.
Import Js MetaAddress.

Lemma split_not_nil sep s : split sep s <> [].
Proof. destruct s as [|c r]; cbn; [done|]. destruct (Ascii.eqb c sep); [done|]. by destruct (split sep r). Qed.

Lemma append_String a p r : String a p ++ r = String a (p ++ r).
Proof. reflexivity. Qed.

Lemma startsWith_append p r : startsWith p (p ++ r) = true.
Proof.
  unfold startsWith. induction p as [|a p IH]; [by destruct r|].
  rewrite append_String. cbn [String.prefix]. by destruct (ascii_dec a a).
Qed.

(** A string that starts with [p] is [p] followed by its slice. *)
Lemma startsWith_sliceFrom p s :
  startsWith p s = true -> s = p ++ sliceFrom (String.length p) s.
Proof.
  unfold startsWith. revert s. induction p as [|a p IH]; intros s H; [reflexivity|].
  destruct s as [|b s]; [discriminate|]. cbn in H.
  destruct (ascii_dec a b) as [->|]; [|discriminate].
  rewrite append_String. cbn [String.length sliceFrom]. f_equal. by apply IH.
Qed.

(** Splitting after a colon-free head. *)
Lemma split_app_colon a r :
  noColon a = true -> split ":" (a ++ String ":" r) = a :: split ":" r.
Proof.
  induction a as [|c a IH]; intros H; [reflexivity|].
  cbn in H. apply andb_true_iff in H as [Hc Ha].
  rewrite append_String. cbn [split]. apply negb_true_iff in Hc.
  rewrite Hc, (IH Ha). reflexivity.
Qed.

Lemma split_noColon a : noColon a = true -> split ":" a = [a].
Proof.
  induction a as [|c a IH]; intros H; [reflexivity|].
  cbn in H. apply andb_true_iff in H as [Hc Ha].
  cbn [split]. apply negb_true_iff in Hc. rewrite Hc, (IH Ha). reflexivity.
Qed.

(** The prefix [sip:] contributes exactly the first segment: the whole
    string has one segment more than what follows the prefix. *)
Lemma split_sip s :
  startsWith "sip:" s = true ->
  split ":" s = "sip" :: split ":" (sliceFrom 4 s).
Proof.
  intros H. rewrite (startsWith_sliceFrom _ _ H) at 1.
  change ("sip:" ++ ?r) with ("sip" ++ String ":" r).
  by rewrite split_app_colon.
Qed.

Lemma hexDigits_noColon s : allChars isHexDigit s = true -> noColon s = true.
Proof.
  unfold noColon. induction s as [|c s IH]; [done|].
  cbn [allChars]. intros [Hc Hs]%andb_true_iff.
  rewrite (IH Hs), andb_true_r.
  destruct (Ascii.eqb_spec c ":") as [->|]; [discriminate Hc|reflexivity].
Qed.

Lemma hexRegex_noColon s : hexRegex s = true -> noColon s = true.
Proof.
  unfold hexRegex, hexDigits1.
  intros [[Hp [_ Hd]%andb_true_iff]%andb_true_iff | [_ Hd]%andb_true_iff]%orb_true_iff.
  - rewrite (startsWith_sliceFrom _ _ Hp).
    change (noColon (sliceFrom 2 s) = true). by apply hexDigits_noColon.
  - by apply hexDigits_noColon.
Qed.

Lemma supported_noColon c : includes supportedChains c = true -> noColon c = true.
Proof.
  unfold includes, supportedChains. cbn [existsb].
  intros H. repeat apply orb_true_iff in H as [H|H]; try discriminate;
    apply String.eqb_eq in H; subst; reflexivity.
Qed.

(** The vectors of the tests of useSend.ts and lib/stealth.ts. *)
Example address_vectors :
  validateStealthAddress "sip:solana:0x1234:0x5678"
    = mkValidation true TStealth (Some "solana") None
  /\ validateStealthAddress "sip:near:0x1111:0x2222"
     = mkValidation true TStealth (Some "near") None
  /\ validateStealthAddress "sip:bitcoin:0x1234:0x5678"
     = mkValidation false TInvalid None (Some "Unsupported chain: bitcoin")
  /\ validateStealthAddress "sip:solana:not-hex:0x5678"
     = mkValidation false TInvalid None (Some "Invalid key format")
  /\ isValid (validateStealthAddress "sip:solana:0x1234") = false
  /\ isValid (validateStealthAddress "sip:solana:0x1:0x2:0x3") = false
  /\ validateStealthAddress "not:solana:0x1234:0x5678"
     = mkValidation false TInvalid None (Some "Not a stealth address")
  /\ isValid (validateAddress "  11111111111111111111111111111111  ") = true
  /\ validateAddress "   " = mkValidation false TInvalid None (Some "Address is required")
  /\ isValid (validateSolanaAddress "0OOOOOOOOOOOOOOOOOOOOOOOOOOOOOOO") = false
  /\ parseStealthMetaAddress "sip:solana:0x1234:0x5678"
     = Some (mkMeta "solana" "0x1234" "0x5678" None)
  /\ parseStealthMetaAddress "invalid:solana:0x1234:0x5678" = None
  /\ parseStealthMetaAddress "" = None
  /\ parseStealthMetaAddress "sip:solana:0x1234" = None
  /\ parseStealthMetaAddress "sip:solana:0x1234:0x5678:extra" = None
  /\ formatStealthMetaAddress (mkMeta "ethereum" "0xabc" "0xdef" None)
     = "sip:ethereum:0xabc:0xdef".
Proof. repeat split; reflexivity. Qed.

(** C5.  Every string is either well formed (it starts with [sip:], has
    exactly four colon-delimited segments, a supported chain and two hex
    keys), and then the parser returns the three segments as the
    meta-address and the validator of useSend.ts accepts it with that chain;
    or it is not, and then the parser returns null and the validator returns
    an invalid result.  Both are total: nothing is thrown. *)
Theorem parseStealthMetaAddress_spec (s : string) :
  (wellFormed s
   /\ parseStealthMetaAddress s =
        Some (mkMeta (segment 1 s) (segment 2 s) (segment 3 s) None)
   /\ validateStealthAddress s =
        mkValidation true TStealth (Some (segment 1 s)) None)
  \/ (~ wellFormed s
      /\ parseStealthMetaAddress s = None
      /\ isValid (validateStealthAddress s) = false
      /\ type (validateStealthAddress s) = TInvalid).
Proof.
  unfold wellFormed, parseStealthMetaAddress, validateStealthAddress, segment.
  change (String.length STEALTH_PREFIX) with 4.
  change STEALTH_PREFIX with "sip:".
  destruct (startsWith "sip:" s) eqn:Hp; cbn [negb].
  2:{ right. repeat split; try reflexivity. intros [? _]; discriminate. }
  rewrite (split_sip _ Hp).
  destruct (split ":" (sliceFrom 4 s)) as [|c [|k1 [|k2 [|x rest]]]];
    try (right; repeat split; try reflexivity; cbn; intros (_ & ? & _); discriminate).
  cbn [lookup list_lookup default length]. unfold id.
  destruct (includes supportedChains c) eqn:Hc; cbn [negb andb orb].
  2:{ right. repeat split; try reflexivity. intros (_ & _ & ? & _); discriminate. }
  destruct (hexRegex k1) eqn:H1; cbn [negb andb orb].
  2:{ right. repeat split; try reflexivity. intros (_ & _ & _ & ? & _); discriminate. }
  destruct (hexRegex k2) eqn:H2; cbn [negb andb orb].
  2:{ right. repeat split; try reflexivity. intros (_ & _ & _ & _ & ?); discriminate. }
  left. repeat split; reflexivity.
Qed.

(** Parsing what [formatStealthMetaAddress] writes. *)
Lemma parse_format_fields c k1 k2 l :
  validMeta (mkMeta c k1 k2 l) ->
  parseStealthMetaAddress (formatStealthMetaAddress (mkMeta c k1 k2 l))
  = Some (mkMeta c k1 k2 None).
Proof.
  intros (Hc & H1 & H2). cbn [metaChain spendingKey viewingKey] in Hc, H1, H2.
  unfold parseStealthMetaAddress, formatStealthMetaAddress. cbn [metaChain spendingKey viewingKey].
  rewrite startsWith_append. cbn [negb].
  change ("sip:" ++ ?r) with ("sip" ++ String ":" r).
  rewrite split_app_colon by reflexivity.
  change (c ++ ":" ++ ?r) with (c ++ String ":" r).
  rewrite split_app_colon by by apply supported_noColon.
  change (k1 ++ ":" ++ ?r) with (k1 ++ String ":" r).
  rewrite split_app_colon by by apply hexRegex_noColon.
  rewrite split_noColon by by apply hexRegex_noColon.
  rewrite Hc, H1, H2. reflexivity.
Qed.

(** C6 (as amended).  For every valid meta-address the text written by
    [formatStealthMetaAddress] is exactly [sip:<chain>:<spending>:<viewing>],
    it does not depend on the label, and parsing it gives the meta-address
    back without its label: the address itself when it carries none. *)
Theorem parse_format_roundtrip (m : MetaAddress.StealthMetaAddress) :
  validMeta m ->
  formatStealthMetaAddress m
    = "sip:" ++ metaChain m ++ ":" ++ spendingKey m ++ ":" ++ viewingKey m
  /\ (forall l, formatStealthMetaAddress
                  (mkMeta (metaChain m) (spendingKey m) (viewingKey m) l)
                = formatStealthMetaAddress m)
  /\ parseStealthMetaAddress (formatStealthMetaAddress m) = Some (withoutLabel m)
  /\ (label m = None ->
      parseStealthMetaAddress (formatStealthMetaAddress m) = Some m).
Proof.
  intros Hv. destruct m as [c k1 k2 l].
  split; [reflexivity|]. split; [reflexivity|].
  split; [by apply parse_format_fields|].
  cbn [label]. intros ->. by apply parse_format_fields.
Qed.

Lemma parse_format_roundtrip_witness :
  parseStealthMetaAddress
    (formatStealthMetaAddress (mkMeta "solana" "0xabcdef123456" "0x987654fedcba" None))
  = Some (mkMeta "solana" "0xabcdef123456" "0x987654fedcba" None).
Proof.
  refine (proj2 (proj2 (proj2
    (parse_format_roundtrip (mkMeta "solana" "0xabcdef123456" "0x987654fedcba" None) _))) _).
  - repeat split; reflexivity.
  - reflexivity.
Defined.

(** C6, the counterexample: the labelled meta-address of the test "should
    ignore optional label in format" is valid, is written exactly like its
    unlabelled twin, and comes back from the parser without its label, so
    not equal to itself. *)
Lemma parse_format_drops_label :
  validMeta (mkMeta "solana" "0x1234" "0x5678" (Some "My Wallet"))
  /\ formatStealthMetaAddress (mkMeta "solana" "0x1234" "0x5678" (Some "My Wallet"))
     = formatStealthMetaAddress (mkMeta "solana" "0x1234" "0x5678" None)
  /\ parseStealthMetaAddress
       (formatStealthMetaAddress (mkMeta "solana" "0x1234" "0x5678" (Some "My Wallet")))
     = Some (mkMeta "solana" "0x1234" "0x5678" None)
  /\ parseStealthMetaAddress
       (formatStealthMetaAddress (mkMeta "solana" "0x1234" "0x5678" (Some "My Wallet")))
     <> Some (mkMeta "solana" "0x1234" "0x5678" (Some "My Wallet")).
Proof.
  split; [repeat split; reflexivity|].
  split; [reflexivity|]. split; [reflexivity|]. vm_compute. discriminate.
Qed.


(** *** The verdicts of [validateAddress] *)

Lemma trimEnd_idem s : trimEnd (trimEnd s) = trimEnd s.
Proof.
  induction s as [|c r IH]; [done|]. cbn [trimEnd].
  destruct (trimEnd r) as [|c' r'] eqn:E.
  - destruct (isWhiteSpace c) eqn:W; [done|]. cbn [trimEnd]. by rewrite W.
  - cbn [trimEnd] in *. by rewrite IH.
Qed.

(** What [trimStart] leaves does not start with white space. *)
Lemma trimStart_head s :
  trimStart s = "" \/ exists c r, trimStart s = String c r /\ isWhiteSpace c = false.
Proof.
  induction s as [|c r IH]; [by left|]. cbn [trimStart].
  destruct (isWhiteSpace c) eqn:W; [done|]. right. by exists c, r.
Qed.

Lemma trimStart_trimEnd c r :
  isWhiteSpace c = false -> trimStart (trimEnd (String c r)) = trimEnd (String c r).
Proof.
  intros W. cbn [trimEnd]. destruct (trimEnd r); rewrite ?W; cbn [trimStart]; by rewrite W.
Qed.

Lemma trim_idem s : trim (trim s) = trim s.
Proof.
  unfold trim. destruct (trimStart_head s) as [->|(c & r & -> & W)]; [done|].
  by rewrite trimStart_trimEnd, trimEnd_idem.
Qed.

Lemma validateStealthAddress_cases address :
  (exists chain,
     validateStealthAddress address = mkValidation true TStealth (Some chain) None
     /\ includes supportedChains chain = true)
  \/ (exists msg,
        validateStealthAddress address = mkValidation false TInvalid None (Some msg)
        /\ msg <> "").
Proof.
  unfold validateStealthAddress.
  destruct (negb (startsWith _ _)); [right; by eexists|].
  destruct (split _ _) as [|chain [|sk [|vk [|]]]]; try (right; by eexists).
  destruct (includes _ _) eqn:I; cbn [negb]; [|right; by eexists].
  destruct (_ || _); [right; by eexists|]. left. by exists chain.
Qed.

Lemma validateSolanaAddress_cases address :
  validateSolanaAddress address = mkValidation true TRegular (Some "solana") None
  \/ validateSolanaAddress address
     = mkValidation false TInvalid None (Some "Invalid Solana address").
Proof. unfold validateSolanaAddress. destruct (negb _); [by right|by left]. Qed.

(** The two shapes of a result of [validateAddress]. *)
Lemma validateAddress_cases address :
  (exists chain,
     validateAddress address
     = mkValidation true (if isStealthAddress address then TStealth else TRegular)
                    (Some chain) None
     /\ includes supportedChains chain = true)
  \/ (exists msg,
        validateAddress address = mkValidation false TInvalid None (Some msg)
        /\ msg <> "").
Proof.
  unfold validateAddress, isStealthAddress.
  destruct (_ || _); [right; by eexists|].
  destruct (startsWith _ _).
  - destruct (validateStealthAddress_cases (trim address)) as [(c & -> & H)|(m & -> & H)];
      [left; by exists c|right; by exists m].
  - destruct (validateSolanaAddress_cases (trim address)) as [-> | ->];
      [left; by exists "solana"|right; by eexists].
Qed.

(** X2.  [validateAddress] gives one of two verdicts.  An accepted address
    has no error and a supported chain, and its type is stealth exactly when
    [isStealthAddress] holds of it (regular otherwise); a rejected address
    has the type invalid, no chain, and an error message that is not empty
    (so no caller ever needs a fallback message). *)
Theorem validateAddress_verdict (address : string) :
  let verdict := validateAddress address in
  (isValid verdict = true
   /\ error verdict = None
   /\ type verdict = (if isStealthAddress address then TStealth else TRegular)
   /\ exists c, chain verdict = Some c /\ includes supportedChains c = true)
  \/ (isValid verdict = false
      /\ type verdict = TInvalid
      /\ chain verdict = None
      /\ exists msg, error verdict = Some msg /\ msg <> "").
Proof.
  cbv zeta. destruct (validateAddress_cases address) as [(c & -> & H)|(m & -> & H)].
  - left. repeat split. by exists c.
  - right. repeat split. by exists m.
Qed.

(** X3.  [validateAddress] looks at the trimmed address only: white space
    around an address changes nothing of the verdict, and a blank address is
    the empty one. *)
Theorem validateAddress_trim (address : string) :
  validateAddress (trim address) = validateAddress address.
Proof.
  unfold validateAddress. rewrite trim_idem.
  destruct (String.eqb address "") eqn:E.
  - apply String.eqb_eq in E as ->. reflexivity.
  - cbn [orb]. by rewrite orb_diag.
Qed.

End MetaAddressFacts.

(* ------------------------------------------------------------------ *)
(** ** Comparisons of binary64 numbers                                 *)
(* ------------------------------------------------------------------ *)

Module FloatFacts.

Lemma SFcompare_antisym x y :
  SFcompare y x = option_map CompOpp (SFcompare x y).
Proof.
  destruct x as [[]| [] | | [] m1 e1], y as [[]| [] | | [] m2 e2];
    try reflexivity; cbn;
    change (PosDef.Pos.compare_cont Eq ?a ?b) with (Pos.compare a b);
    rewrite (Z.compare_antisym e1 e2); destruct (e1 ?= e2)%Z; cbn; try reflexivity;
    rewrite (Pos.compare_antisym m1 m2); destruct (m1 ?= m2)%positive; reflexivity.
Qed.

(** A number that compares with anything is not NaN, so equal to itself. *)
Lemma SFcompare_diag x y c : SFcompare x y = Some c -> SFcompare y y = Some Eq.
Proof.
  destruct x as [[]| [] | | [] m1 e1], y as [[]| [] | | [] m2 e2]; cbn; try done;
    intros _; change (PosDef.Pos.compare_cont Eq ?a ?b) with (Pos.compare a b);
    rewrite Z.compare_refl, Pos.compare_refl; done.
Qed.

Lemma ltb_leb_false (x y : float) : (x <? y)%float = true -> (y <=? x)%float = false.
Proof.
  rewrite ltb_spec, leb_spec. unfold SFltb, SFleb.
  rewrite (SFcompare_antisym (Prim2SF x) (Prim2SF y)).
  by destruct (SFcompare (Prim2SF x) (Prim2SF y)) as [[]|].
Qed.

Lemma leb_ltb_false (x y : float) : (x <=? y)%float = true -> (y <? x)%float = false.
Proof.
  rewrite ltb_spec, leb_spec. unfold SFltb, SFleb.
  rewrite (SFcompare_antisym (Prim2SF x) (Prim2SF y)).
  by destruct (SFcompare (Prim2SF x) (Prim2SF y)) as [[]|].
Qed.

Lemma ltb_not_nan (x y : float) : (x <? y)%float = true -> is_nan y = false.
Proof.
  unfold is_nan. rewrite ltb_spec, FloatAxioms.eqb_spec. unfold SFltb, SFeqb.
  destruct (SFcompare (Prim2SF x) (Prim2SF y)) as [c|] eqn:E; [|done].
  by rewrite (SFcompare_diag _ _ _ E).
Qed.

Lemma leb_not_nan (x y : float) : (x <=? y)%float = true -> is_nan y = false.
Proof.
  unfold is_nan. rewrite leb_spec, FloatAxioms.eqb_spec. unfold SFleb, SFeqb.
  destruct (SFcompare (Prim2SF x) (Prim2SF y)) as [c|] eqn:E; [|done].
  by rewrite (SFcompare_diag _ _ _ E).
Qed.

(** Nor is the smaller side of a comparison that holds. *)
Lemma leb_not_nan_l (x y : float) : (x <=? y)%float = true -> is_nan x = false.
Proof.
  unfold is_nan. rewrite leb_spec, FloatAxioms.eqb_spec. unfold SFleb, SFeqb.
  destruct (SFcompare (Prim2SF x) (Prim2SF y)) as [c|] eqn:E; [|done]. intros _.
  assert (E' : SFcompare (Prim2SF y) (Prim2SF x) = Some (CompOpp c))
    by (by rewrite SFcompare_antisym, E).
  by rewrite (SFcompare_diag _ _ _ E').
Qed.

(** Nothing at or above the minimum is at or below zero. *)
Lemma min_leb_positive (n : float) :
  (Send.MIN_AMOUNT <=? n)%float = true -> (n <=? 0)%float = false.
Proof.
  rewrite !leb_spec.
  replace (Prim2SF Send.MIN_AMOUNT) with (S754_finite false 4611686018427388 (-62))
    by (vm_compute; reflexivity).
  replace (Prim2SF 0) with (S754_zero false) by (vm_compute; reflexivity).
  unfold SFleb. destruct (Prim2SF n) as [[]|[]| |[] m e]; cbn; done.
Qed.

End FloatFacts.

(* ------------------------------------------------------------------ *)
(** ** Amount validation                                               *)
(* ------------------------------------------------------------------ *)

Module SendFacts.
Import Js MetaAddress Send FloatFacts.

(** Every result but the last of [validateAmount] is a rejection that
    carries a message. *)
Lemma validateAmount_cases parseFloat amount balance :
  (amountValid (validateAmount parseFloat amount balance) = false
   /\ is_Some (amountError (validateAmount parseFloat amount balance)))
  \/ (validateAmount parseFloat amount balance = mkAmount true None
      /\ (parseFloat amount <? MIN_AMOUNT)%float = false).
Proof.
  unfold validateAmount.
  repeat (match goal with |- context [if ?b then _ else _] => destruct b eqn:? end;
          [left; split; [reflexivity|eexists; reflexivity] |]).
  right. done.
Qed.

(** A rejected amount ends [send] before it prepares, signs or submits. *)
Lemma send_rejected_amount parseFloat PrivacyLevel isConnected wallet st hash now1 now2
    (params : SendParams PrivacyLevel) :
  amountValid (validateAmount parseFloat (amount _ params) 100%float) = false ->
  let run := send parseFloat PrivacyLevel isConnected wallet st hash now1 now2 params in
  success (returned _ run) = false
  /\ is_Some (resultError (returned _ run))
  /\ (statusLog _ run = [] \/ statusLog _ run = [Validating; Failed])
  /\ recorded _ run = [].
Proof.
  intros H. unfold send.
  destruct (negb isConnected || _); [cbn; eauto 10|].
  destruct (negb (isValid _)); [cbn; eauto 10|].
  rewrite H. cbn. eauto 10.
Qed.

(** The vectors of the tests of [validateAmount], with balance 10: what the
    validator answers once [parseFloat] has read the text. *)
Example amount_vectors (parseFloat : string -> float) :
  validateAmount parseFloat "" 10%float = invalidAmount "Amount is required"
  /\ validateAmount parseFloat "  " 10%float = invalidAmount "Amount is required"
  /\ (parseFloat "1.5" = 1.5%float ->
      validateAmount parseFloat "1.5" 10%float = mkAmount true None)
  /\ (parseFloat "0.001" = 0.001%float ->
      validateAmount parseFloat "0.001" 10%float = mkAmount true None)
  /\ (parseFloat "abc" = nan ->
      validateAmount parseFloat "abc" 10%float = invalidAmount "Invalid amount")
  /\ (parseFloat "-1" = (-1)%float ->
      validateAmount parseFloat "-1" 10%float
      = invalidAmount "Amount must be greater than 0")
  /\ (parseFloat "10.01" = 10.01%float ->
      validateAmount parseFloat "10.01" 10%float = invalidAmount "Insufficient balance")
  /\ (parseFloat "0.0009" = 0.0009%float ->
      validateAmount parseFloat "0.0009" 10%float
      = invalidAmount "Minimum amount is 0.001 SOL").
Proof.
  repeat split; try reflexivity; intros H; unfold validateAmount; rewrite H; reflexivity.
Qed.

(** C8 (as amended).  An amount below the minimum of 0.001 SOL is always
    rejected with an explicit message, and [send] then stops while validating:
    it never prepares, signs or submits, and records no payment.  The message
    is "Minimum amount is 0.001 SOL" when the amount is positive and within
    the balance; the guards that come first answer "Amount must be greater
    than 0" for every amount that is not positive, and "Insufficient balance"
    for every positive amount above the balance, whatever the minimum.  An
    amount at or above the minimum and within the balance is accepted. *)
Theorem validateAmount_minimum (parseFloat : string -> float)
    (amount : string) (balance : float) :
  let n := parseFloat amount in
  let blank := String.eqb amount "" || String.eqb (trim amount) "" in
  ((n <? MIN_AMOUNT)%float = true ->
     amountValid (validateAmount parseFloat amount balance) = false
     /\ is_Some (amountError (validateAmount parseFloat amount balance))
     /\ forall PrivacyLevel isConnected wallet st hash now1 now2 recipient level memo,
          let run := send parseFloat PrivacyLevel isConnected wallet st hash now1 now2
                       (mkParams _ amount recipient level memo) in
          success (returned _ run) = false
          /\ is_Some (resultError (returned _ run))
          /\ (statusLog _ run = [] \/ statusLog _ run = [Validating; Failed])
          /\ recorded _ run = [])
  /\ (blank = false -> (0 <? n)%float = true -> (n <=? balance)%float = true ->
      (n <? MIN_AMOUNT)%float = true ->
      validateAmount parseFloat amount balance
      = invalidAmount "Minimum amount is 0.001 SOL")
  /\ (blank = false -> (MIN_AMOUNT <=? n)%float = true -> (n <=? balance)%float = true ->
      validateAmount parseFloat amount balance = mkAmount true None)
  /\ (blank = false -> (n <=? 0)%float = true ->
      validateAmount parseFloat amount balance
      = invalidAmount "Amount must be greater than 0")
  /\ (blank = false -> (0 <? n)%float = true -> (balance <? n)%float = true ->
      validateAmount parseFloat amount balance = invalidAmount "Insufficient balance")
  /\ ((n <? MIN_AMOUNT)%float = true ->
      validateAmount parseFloat amount balance
      = invalidAmount
          (if blank then "Amount is required"
           else if (n <=? 0)%float then "Amount must be greater than 0"
           else if (balance <? n)%float then "Insufficient balance"
           else "Minimum amount is 0.001 SOL")).
Proof.
  intros n blank. subst n blank. split; [|split; [|split; [|split; [|split]]]].
  - intros Hlow.
    assert (Hrej : forall b, amountValid (validateAmount parseFloat amount b) = false
                     /\ is_Some (amountError (validateAmount parseFloat amount b))).
    { intros b. destruct (validateAmount_cases parseFloat amount b) as [?|[_ E]];
        [done|congruence]. }
    split; [apply Hrej|]. split; [apply Hrej|].
    intros. apply send_rejected_amount. cbn [Send.amount]. apply Hrej.
  - intros Hb Hpos Hbal Hmin. unfold validateAmount. rewrite Hb.
    rewrite (ltb_not_nan _ _ Hpos), (ltb_leb_false _ _ Hpos),
      (leb_ltb_false _ _ Hbal), Hmin. reflexivity.
  - intros Hb Hmin Hbal. unfold validateAmount. rewrite Hb.
    rewrite (leb_not_nan _ _ Hmin), (min_leb_positive _ Hmin),
      (leb_ltb_false _ _ Hbal), (leb_ltb_false _ _ Hmin). reflexivity.
  - intros Hb Hneg. unfold validateAmount. rewrite Hb.
    rewrite (leb_not_nan_l _ _ Hneg), Hneg. reflexivity.
  - intros Hb Hpos Habove. unfold validateAmount. rewrite Hb.
    rewrite (ltb_not_nan _ _ Hpos), (ltb_leb_false _ _ Hpos), Habove. reflexivity.
  - intros Hlow. unfold validateAmount.
    destruct (_ || _); [done|].
    assert (N : is_nan (parseFloat amount) = false).
    { apply (leb_not_nan_l _ MIN_AMOUNT).
      revert Hlow. rewrite ltb_spec, leb_spec. unfold SFltb, SFleb.
      by destruct (SFcompare _ _) as [[]|]. }
    rewrite N, Hlow.
    destruct (_ <=? 0)%float; [done|]. by destruct (balance <? _)%float.
Qed.

Lemma validateAmount_minimum_witness :
  validateAmount (fun _ => 0.0001%float) "0.0001" 10%float
    = invalidAmount "Minimum amount is 0.001 SOL"
  /\ validateAmount (fun _ => 0.001%float) "0.001" 10%float = mkAmount true None
  /\ validateAmount (fun _ => (-1)%float) "-1" 10%float
     = invalidAmount "Amount must be greater than 0"
  /\ validateAmount (fun _ => 0.0005%float) "0.0005" 0.0001%float
     = invalidAmount "Insufficient balance".
Proof.
  split; [|split; [|split]].
  - apply (proj1 (proj2 (validateAmount_minimum (fun _ => 0.0001%float) "0.0001" 10%float)));
      vm_compute; reflexivity.
  - apply (proj1 (proj2 (proj2
      (validateAmount_minimum (fun _ => 0.001%float) "0.001" 10%float))));
      vm_compute; reflexivity.
  - apply (proj1 (proj2 (proj2 (proj2
      (validateAmount_minimum (fun _ => (-1)%float) "-1" 10%float)))));
      vm_compute; reflexivity.
  - apply (proj1 (proj2 (proj2 (proj2 (proj2
      (validateAmount_minimum (fun _ => 0.0005%float) "0.0005" 0.0001%float))))));
      vm_compute; reflexivity.
Defined.

(** C8, the counterexample.  The amounts [0] and [0.0005] are below the
    minimum; with a balance of 10 the first is rejected as not greater than
    0, and with a balance of 0.0001 the second as exceeding the balance:
    neither gets the minimum-amount message.  ([parseFloat] only has to read
    the two literals as JavaScript does.) *)
Lemma validateAmount_below_minimum_other_message :
  (forall parseFloat : string -> float, parseFloat "0" = 0%float ->
     (parseFloat "0" <? MIN_AMOUNT)%float = true
     /\ validateAmount parseFloat "0" 10%float
        = invalidAmount "Amount must be greater than 0"
     /\ validateAmount parseFloat "0" 10%float
        <> invalidAmount "Minimum amount is 0.001 SOL")
  /\ (forall parseFloat : string -> float, parseFloat "0.0005" = 0.0005%float ->
        (parseFloat "0.0005" <? MIN_AMOUNT)%float = true
        /\ validateAmount parseFloat "0.0005" 0.0001%float
           = invalidAmount "Insufficient balance"
        /\ validateAmount parseFloat "0.0005" 0.0001%float
           <> invalidAmount "Minimum amount is 0.001 SOL").
Proof.
  split; intros parseFloat H; unfold validateAmount; rewrite H.
  - split; [reflexivity|]. split; [reflexivity|]. vm_compute. discriminate.
  - split; [reflexivity|]. split; [reflexivity|]. vm_compute. discriminate.
Qed.


(** *** The outcomes of [send] *)

Lemma validateAmount_message parseFloat amount balance :
  amountValid (validateAmount parseFloat amount balance) = false ->
  exists msg, amountError (validateAmount parseFloat amount balance) = Some msg
              /\ msg <> "".
Proof.
  unfold validateAmount.
  repeat (match goal with |- context [if ?b then _ else _] => destruct b end;
          [intros _; by eexists|]).
  done.
Qed.

Lemma orElse_message msg fallback : msg <> "" -> orElse (Some msg) fallback = msg.
Proof. intros H. unfold orElse. by rewrite (proj2 (String.eqb_neq msg "")). Qed.

(** X4.  A call of [send] ends in one of three ways.  Confirmed: it returns
    success with the drawn hash, leaves the hook confirmed with that hash,
    went through validating, preparing, signing, submitting and confirmed in
    this order, and handed exactly one payment to the store, which carries
    the hash, the amount as typed and, for a stealth recipient, the
    recipient as typed.  Not connected: it returns the wallet error and
    touches neither the hook state nor the store.  Failed: both validators
    ran first, the failing one's message is what is returned and what the
    hook holds, the statuses were validating then error, and the store is
    untouched.  Every failure carries a message that is not empty. *)
Theorem send_outcomes (parseFloat : string -> float) (PrivacyLevel : Type)
    (isConnected : bool) (wallet : option string) (st : HookState) (hash : string)
    (now1 now2 : Z) (params : SendParams PrivacyLevel) :
  let run := send parseFloat PrivacyLevel isConnected wallet st hash now1 now2 params in
  let address := validateAddress (recipient _ params) in
  let amount := validateAmount parseFloat (amount _ params) 100%float in
  (returned _ run = mkResult true (Some hash) None
   /\ finalState _ run = mkHook Confirmed None (Some hash)
   /\ statusLog _ run = [Validating; Preparing; Signing; Submitting; Confirmed]
   /\ recorded _ run
      = [mkPayment _ now1 "send" (Send.amount _ params) "SOL" "completed"
           (if isStealthAddress (recipient _ params)
            then Some (recipient _ params) else None)
           hash now2 (privacyLevel _ params)]
   /\ isValid address = true
   /\ amountValid amount = true)
  \/ (exists msg,
        msg <> ""
        /\ returned _ run = mkResult false None (Some msg)
        /\ recorded _ run = []
        /\ ((msg = "Wallet not connected" /\ finalState _ run = st /\ statusLog _ run = [])
            \/ (finalState _ run = mkHook Failed (Some msg) None
                /\ statusLog _ run = [Validating; Failed]
                /\ (MetaAddress.error address = Some msg
                    \/ isValid address = true /\ amountError amount = Some msg)))).
Proof.
  cbv zeta. unfold send.
  destruct (negb isConnected || _).
  { right. exists "Wallet not connected". repeat split; try done. by left. }
  destruct (MetaAddressFacts.validateAddress_cases (recipient _ params))
    as [(c & -> & Hc)|(msg & -> & Hm)]; cbn [isValid negb type MetaAddress.error].
  - destruct (amountValid _) eqn:Ha; cbn [negb].
    + left. repeat split. cbn [recorded]. do 2 f_equal.
      by destruct (isStealthAddress _).
    + destruct (validateAmount_message _ _ _ Ha) as (msg & He' & Hm).
      right. exists msg. rewrite He', (orElse_message _ _ Hm).
      repeat split; try done. right. repeat split; try done. by right.
  - right. exists msg. rewrite (orElse_message _ _ Hm).
    repeat split; try done. right. repeat split; try done. by left.
Qed.

End SendFacts.

(* ------------------------------------------------------------------ *)
(** ** Buffers                                                         *)
(* ------------------------------------------------------------------ *)

Module BufferFacts.
Import Js Buffer.
Local Open Scope list_scope.

Lemma Z_of_byte_range b : (0 <= Z_of_byte b < 256)%Z.
Proof. unfold Z_of_byte. pose proof (Byte.to_N_bounded b). lia. Qed.

Lemma byte_of_Z_of_byte b : byte_of_Z (Z_of_byte b) = b.
Proof.
  unfold byte_of_Z. rewrite Z.mod_small by apply Z_of_byte_range.
  unfold Z_of_byte. by rewrite N2Z.id, Byte.of_to_N.
Qed.

Lemma Z_of_byte_of_Z z : Z_of_byte (byte_of_Z z) = (z mod 256)%Z.
Proof.
  unfold byte_of_Z, Z_of_byte.
  pose proof (Z.mod_pos_bound z 256 eq_refl) as Hr.
  destruct (Byte.of_N (Z.to_N (z mod 256))) as [b|] eqn:E.
  - apply Byte.to_of_N in E. simpl. rewrite E. lia.
  - apply Byte.of_N_None_iff in E. lia.
Qed.

Lemma length_le_bytes n v : length (le_bytes n v) = n.
Proof. revert v. induction n as [|n IH]; intros v; cbn; [done|]. by rewrite IH. Qed.

(** Reading back the little-endian bytes of a value that fits them. *)
Lemma le_value_le_bytes n v :
  (0 <= v < 2 ^ (8 * Z.of_nat n))%Z -> le_value (le_bytes n v) = v.
Proof.
  revert v. induction n as [|n IH]; intros v Hv.
  - cbn in *. lia.
  - cbn [le_bytes le_value]. rewrite Z_of_byte_of_Z.
    replace (8 * Z.of_nat (S n))%Z with (8 + 8 * Z.of_nat n)%Z in Hv by lia.
    rewrite Z.pow_add_r in Hv by lia. change (2 ^ 8)%Z with 256%Z in Hv.
    rewrite IH.
    + pose proof (Z.div_mod v 256). lia.
    + split; [apply Z.div_pos; lia|]. apply Z.div_lt_upper_bound; lia.
Qed.

Lemma length_copy source target start :
  length (copy source target start) = length target.
Proof. unfold copy. rewrite !length_app, !length_take, length_drop. lia. Qed.

(** A copy that lands on the zero bytes right after what is written. *)
Lemma copy_frontier pre source n start :
  length pre = start -> length source <= n ->
  copy source (pre ++ replicate n x00) start
  = (pre ++ source) ++ replicate (n - length source) x00.
Proof.
  intros <- Hn. unfold copy.
  rewrite take_app_length, length_app, length_replicate.
  replace (length pre + n - length pre) with n by lia.
  rewrite take_ge by lia.
  rewrite drop_app_add', drop_replicate by done.
  by rewrite <- app_assoc.
Qed.

Lemma writeUIntLE_returns width value offset buf :
  (0 <= value < 2 ^ (8 * Z.of_nat width))%Z -> offset + width <= length buf ->
  exists buf', writeUIntLE width value offset buf = Returned buf'
               /\ length buf' = length buf.
Proof.
  intros Hv Ho. unfold writeUIntLE.
  destruct (Z.ltb_spec value 0); [lia|].
  destruct (Z.leb_spec (2 ^ (8 * Z.of_nat width)) value); [lia|]. cbn [orb].
  destruct (Nat.ltb_spec (length buf) (offset + width)); [lia|].
  eexists; split; [reflexivity|].
  rewrite !length_app, length_take, length_le_bytes, length_drop. lia.
Qed.

Lemma writeUIntLE_frontier pre width value n offset :
  (0 <= value < 2 ^ (8 * Z.of_nat width))%Z -> length pre = offset -> width <= n ->
  writeUIntLE width value offset (pre ++ replicate n x00)
  = Returned ((pre ++ le_bytes width value) ++ replicate (n - width) x00).
Proof.
  intros Hv <- Hn. unfold writeUIntLE.
  destruct (Z.ltb_spec value 0); [lia|].
  destruct (Z.leb_spec (2 ^ (8 * Z.of_nat width)) value); [lia|]. cbn [orb].
  rewrite length_app, length_replicate.
  destruct (Nat.ltb_spec (length pre + n) (length pre + width)); [lia|].
  rewrite take_app_length, drop_app_add', drop_replicate by done.
  by rewrite <- app_assoc.
Qed.


(** A store returns only for a value of its width, and then changes the
    [width] bytes at [offset] and nothing else. *)
Lemma writeUIntLE_inv width value offset buf buf' :
  writeUIntLE width value offset buf = Returned buf' ->
  (0 <= value < 2 ^ (8 * Z.of_nat width))%Z
  /\ offset + width <= length buf
  /\ buf' = take offset buf ++ le_bytes width value ++ drop (offset + width) buf.
Proof.
  unfold writeUIntLE.
  destruct (Z.ltb_spec value 0); [done|].
  destruct (Z.leb_spec (2 ^ (8 * Z.of_nat width)) value); [done|]. cbn [orb].
  destruct (Nat.ltb_spec (length buf) (offset + width)); [done|].
  intros [= <-]. repeat split; try lia.
Qed.

(** A store that stays in the buffer throws only for its value. *)
Lemma writeUIntLE_thrown width value offset buf e :
  writeUIntLE width value offset buf = Thrown e -> offset + width <= length buf ->
  e = RangeError "value".
Proof.
  unfold writeUIntLE. destruct (_ || _); [by intros [= <-]|].
  destruct (Nat.ltb_spec (length buf) (offset + width)); [lia|done].
Qed.

Lemma take_copy n source target start :
  n <= start -> start <= length target ->
  take n (copy source target start) = take n target.
Proof.
  intros Hn Hs. unfold copy. rewrite take_app_le by (rewrite length_take; lia).
  rewrite take_take. f_equal. lia.
Qed.

Lemma take_write n width value offset buf buf' :
  writeUIntLE width value offset buf = Returned buf' -> n <= offset ->
  take n buf' = take n buf.
Proof.
  intros H Hn. apply writeUIntLE_inv in H as (_ & Hl & ->).
  rewrite take_app_le by (rewrite length_take; lia).
  rewrite take_take. f_equal. lia.
Qed.

Lemma readUIntLE_tail width value buf :
  (0 <= value < 2 ^ (8 * Z.of_nat width))%Z -> width <= length buf ->
  drop (length buf - width) buf = le_bytes width value ->
  readUIntLE width (length buf - width) buf = Returned value.
Proof.
  intros Hv Hl Hd. unfold readUIntLE.
  destruct (Nat.ltb_spec (length buf) (length buf - width + width)); [lia|].
  rewrite Hd, take_ge by (by rewrite length_le_bytes). by rewrite le_value_le_bytes.
Qed.

End BufferFacts.

(* ------------------------------------------------------------------ *)
(** ** The shielded-transfer instruction                               *)
(* ------------------------------------------------------------------ *)

Module EncodeFacts.
Import Js Buffer Codec BufferFacts.
Local Open Scope list_scope.

(** With the arguments in range the encoder returns, and what it returns has
    the computed size, whatever the widths of the array arguments. *)
Lemma encode_returns args :
  inRanges args ->
  exists buffer,
    encodeShieldedTransferData args = Returned buffer
    /\ length buffer
       = totalSize (length (encryptedAmount args)) (length (Codec.proof args)).
Proof.
  intros (Hea & Hpr & Hamt). unfold encodeShieldedTransferData.
  set (n := totalSize _ _).
  set (b5 := copy (from (viewingKeyHash args)) _ _).
  assert (H5 : length b5 = n).
  { subst b5. rewrite !length_copy. apply length_replicate. }
  destruct (writeUIntLE_returns 4 (Z.of_nat (length (encryptedAmount args)))
              (0 + 8 + 33 + 32 + 33 + 32) b5) as (b6 & E6 & H6).
  { change (2 ^ (8 * Z.of_nat 4))%Z with (2 ^ 32)%Z. lia. }
  { rewrite H5. unfold n, totalSize. lia. }
  unfold writeUInt32LE at 1. rewrite E6. cbn [bindO].
  set (b7 := copy (encryptedAmount args) b6 _).
  assert (H7 : length b7 = n) by (subst b7; rewrite length_copy; congruence).
  destruct (writeUIntLE_returns 4 (Z.of_nat (length (Codec.proof args)))
              (0 + 8 + 33 + 32 + 33 + 32 + 4 + length (encryptedAmount args)) b7)
    as (b8 & E8 & H8).
  { change (2 ^ (8 * Z.of_nat 4))%Z with (2 ^ 32)%Z. lia. }
  { rewrite H7. unfold n, totalSize. lia. }
  unfold writeUInt32LE. rewrite E8. cbn [bindO].
  set (b9 := copy (Codec.proof args) b8 _).
  assert (H9 : length b9 = n) by (subst b9; rewrite length_copy; congruence).
  destruct (writeUIntLE_returns 8 (actualAmount args)
              (0 + 8 + 33 + 32 + 33 + 32 + 4 + length (encryptedAmount args) + 4
               + length (Codec.proof args)) b9) as (b10 & E10 & H10).
  { change (2 ^ (8 * Z.of_nat 8))%Z with (2 ^ 64)%Z. lia. }
  { rewrite H9. unfold n, totalSize. lia. }
  unfold writeBigUInt64LE. rewrite E10. exists b10. split; [done|congruence].
Qed.

Lemma length_from xs : length (from xs) = length xs.
Proof. apply length_map. Qed.

(** With the documented widths every store lands right after the previous
    one, so the result is the concatenation of the fields. *)
Lemma encode_is_layout args :
  inRanges args -> fixedWidths args ->
  encodeShieldedTransferData args = Returned (shieldedTransferLayout args).
Proof.
  intros (Hea & Hpr & Hamt) (Hac & Hsp & Hep & Hvk).
  unfold encodeShieldedTransferData, shieldedTransferLayout, alloc.
  set (n := totalSize _ _).
  assert (Hd : length discriminator = 8) by reflexivity.
  rewrite <- (app_nil_l (replicate n x00)).
  rewrite (copy_frontier [] discriminator) by (subst n; rewrite ?length_app, ?length_le_bytes; lengths).
  rewrite (copy_frontier _ (from (amountCommitment args))) by (subst n; rewrite ?length_app, ?length_le_bytes; lengths).
  rewrite (copy_frontier _ (PublicKey.toBuffer _)) by (subst n; rewrite ?length_app, ?length_le_bytes; lengths).
  rewrite (copy_frontier _ (from (ephemeralPubkey args))) by (subst n; rewrite ?length_app, ?length_le_bytes; lengths).
  rewrite (copy_frontier _ (from (viewingKeyHash args))) by (subst n; rewrite ?length_app, ?length_le_bytes; lengths).
  unfold writeUInt32LE, writeBigUInt64LE.
  rewrite writeUIntLE_frontier; cbn [bindO];
    [| change (2 ^ (8 * Z.of_nat 4))%Z with (2 ^ 32)%Z; lia
     | subst n; rewrite ?length_app, ?length_le_bytes; lengths
     | subst n; rewrite ?length_app, ?length_le_bytes; lengths].
  rewrite (copy_frontier _ (encryptedAmount args)) by (subst n; rewrite ?length_app, ?length_le_bytes; lengths).
  rewrite writeUIntLE_frontier; cbn [bindO];
    [| change (2 ^ (8 * Z.of_nat 4))%Z with (2 ^ 32)%Z; lia
     | subst n; rewrite ?length_app, ?length_le_bytes; lengths
     | subst n; rewrite ?length_app, ?length_le_bytes; lengths].
  rewrite (copy_frontier _ (Codec.proof args)) by (subst n; rewrite ?length_app, ?length_le_bytes; lengths).
  rewrite writeUIntLE_frontier;
    [| change (2 ^ (8 * Z.of_nat 8))%Z with (2 ^ 64)%Z; lia
     | subst n; rewrite ?length_app, ?length_le_bytes; lengths
     | subst n; rewrite ?length_app, ?length_le_bytes; lengths].
  match goal with |- context [replicate ?k x00] => replace k with 0 by (subst n; rewrite ?length_app, ?length_le_bytes; lengths) end.
  cbn [replicate]. rewrite app_nil_r, app_nil_l, <- !app_assoc. reflexivity.
Qed.

(** C1.  With the length prefixes and the amount in their ranges (u32 and
    u64), the encoder returns a buffer whose length is the sum of the
    widths, 8+33+32+33+32+4+len(encryptedAmount)+4+len(proof)+8, which is 346
    for lengths 64 and 128; and when the fixed fields have their documented
    widths, the buffer is the discriminator followed by amountCommitment,
    stealthPubkey, ephemeralPubkey, viewingKeyHash, the u32-LE length and the
    bytes of encryptedAmount, the u32-LE length and the bytes of proof, and
    actualAmount as u64-LE, in this order. *)
Theorem encodeShieldedTransferData_layout (args : ShieldedTransferArgs) :
  inRanges args ->
  exists buffer,
    encodeShieldedTransferData args = Returned buffer
    /\ length buffer
       = 8 + 33 + 32 + 33 + 32 + 4 + length (encryptedAmount args)
         + 4 + length (Codec.proof args) + 8
    /\ (length (encryptedAmount args) = 64 -> length (Codec.proof args) = 128 ->
        length buffer = 346)
    /\ (fixedWidths args ->
        buffer =
          discriminator
          ++ from (amountCommitment args)
          ++ PublicKey.toBuffer (stealthPubkey args)
          ++ from (ephemeralPubkey args)
          ++ from (viewingKeyHash args)
          ++ le_bytes 4 (Z.of_nat (length (encryptedAmount args)))
          ++ encryptedAmount args
          ++ le_bytes 4 (Z.of_nat (length (Codec.proof args)))
          ++ Codec.proof args
          ++ le_bytes 8 (actualAmount args)
        /\ length discriminator = 8
        /\ length (from (amountCommitment args)) = 33
        /\ length (from (ephemeralPubkey args)) = 33
        /\ length (from (viewingKeyHash args)) = 32).
Proof.
  intros Hr. destruct (encode_returns args Hr) as (buffer & E & Hlen).
  exists buffer. split; [done|]. split; [exact Hlen|].
  split; [unfold totalSize in Hlen; lia|].
  intros Hw. rewrite (encode_is_layout args Hr Hw) in E. injection E as <-.
  destruct Hw as (Hac & _ & Hep & Hvk). rewrite !length_from. done.
Qed.

Lemma encodeShieldedTransferData_layout_witness :
  exists buffer,
    encodeShieldedTransferData sampleArgs = Returned buffer
    /\ length buffer = 346
    /\ buffer = shieldedTransferLayout sampleArgs.
Proof.
  assert (Hr : inRanges sampleArgs) by (repeat split; cbn; lia).
  destruct (encodeShieldedTransferData_layout sampleArgs Hr) as (buffer & E & _ & H & L).
  exists buffer. split; [exact E|]. split; [by apply H|].
  apply L. repeat split; reflexivity.
Defined.


(** *** When the encoder returns *)

(** What a returned encoding tells: the arguments were in range, the buffer
    has the computed size, starts with the discriminator and ends with the
    amount. *)
Lemma encode_inv args buffer :
  encodeShieldedTransferData args = Returned buffer ->
  inRanges args
  /\ length buffer = totalSize (length (encryptedAmount args)) (length (Codec.proof args))
  /\ take 8 buffer = discriminator
  /\ drop (length buffer - 8) buffer = le_bytes 8 (actualAmount args).
Proof.
  unfold encodeShieldedTransferData.
  set (n := totalSize _ _).
  set (b5 := copy (from (viewingKeyHash args)) _ _).
  assert (H5 : length b5 = n).
  { subst b5. rewrite !length_copy. apply length_replicate. }
  assert (T5 : take 8 b5 = discriminator).
  { subst b5.
    repeat (rewrite take_copy;
            [| lia | rewrite ?length_copy; unfold alloc; rewrite length_replicate;
                     unfold n, totalSize; lia]).
    unfold copy, alloc. rewrite length_replicate, take_0. cbn [app].
    rewrite (take_ge discriminator) by (unfold n, totalSize; cbn; lia).
    by rewrite take_app_length' by done. }
  unfold writeUInt32LE, writeBigUInt64LE.
  destruct (writeUIntLE 4 _ _ b5) as [b6|] eqn:E6; [|done]. cbn [bindO].
  pose proof (take_write 8 _ _ _ _ _ E6 ltac:(lia)) as T6.
  apply writeUIntLE_inv in E6 as (R6 & _ & E6).
  assert (H6 : length b6 = n).
  { rewrite E6, !length_app, length_take, length_le_bytes, length_drop.
    rewrite H5. unfold n, totalSize. lia. }
  set (b7 := copy (encryptedAmount args) b6 _).
  assert (H7 : length b7 = n) by (subst b7; rewrite length_copy; congruence).
  assert (T7 : take 8 b7 = take 8 b6).
  { subst b7. apply take_copy; [lia|]. rewrite H6. unfold n, totalSize. lia. }
  destruct (writeUIntLE 4 _ _ b7) as [b8|] eqn:E8; [|done]. cbn [bindO].
  pose proof (take_write 8 _ _ _ _ _ E8 ltac:(lia)) as T8.
  apply writeUIntLE_inv in E8 as (R8 & _ & E8).
  assert (H8 : length b8 = n).
  { rewrite E8, !length_app, length_take, length_le_bytes, length_drop.
    rewrite H7. unfold n, totalSize. lia. }
  set (b9 := copy (Codec.proof args) b8 _).
  assert (H9 : length b9 = n) by (subst b9; rewrite length_copy; congruence).
  assert (T9 : take 8 b9 = take 8 b8).
  { subst b9. apply take_copy; [lia|]. rewrite H8. unfold n, totalSize. lia. }
  intros E10.
  pose proof (take_write 8 _ _ _ _ _ E10 ltac:(lia)) as T10.
  apply writeUIntLE_inv in E10 as (R10 & _ & E10).
  change (2 ^ (8 * Z.of_nat 4))%Z with (2 ^ 32)%Z in *.
  change (2 ^ (8 * Z.of_nat 8))%Z with (2 ^ 64)%Z in *.
  assert (H10 : length buffer = n).
  { rewrite E10, !length_app, length_take, length_le_bytes, length_drop.
    rewrite H9. unfold n, totalSize. lia. }
  split; [repeat split; lia|]. split; [done|]. split; [congruence|].
  rewrite H10. rewrite E10 at 1.
  rewrite drop_app_length' by (rewrite length_take, H9; unfold n, totalSize; lia).
  rewrite (drop_ge b9) by (rewrite H9; unfold n, totalSize; lia).
  by rewrite app_nil_r.
Qed.

(** The buffer is allocated large enough: no store of the encoder leaves it. *)
Lemma encode_thrown args e :
  encodeShieldedTransferData args = Thrown e -> e = RangeError "value".
Proof.
  unfold encodeShieldedTransferData.
  set (n := totalSize _ _).
  set (b5 := copy (from (viewingKeyHash args)) _ _).
  assert (H5 : length b5 = n).
  { subst b5. rewrite !length_copy. apply length_replicate. }
  unfold writeUInt32LE, writeBigUInt64LE.
  destruct (writeUIntLE 4 _ _ b5) as [b6|e6] eqn:E6; cbn [bindO].
  2:{ intros [= <-]. apply writeUIntLE_thrown in E6; [done|].
      rewrite H5. unfold n, totalSize. lia. }
  apply writeUIntLE_inv in E6 as (_ & _ & E6).
  assert (H6 : length b6 = n).
  { rewrite E6, !length_app, length_take, length_le_bytes, length_drop.
    rewrite H5. unfold n, totalSize. lia. }
  set (b7 := copy (encryptedAmount args) b6 _).
  assert (H7 : length b7 = n) by (subst b7; rewrite length_copy; congruence).
  destruct (writeUIntLE 4 _ _ b7) as [b8|e8] eqn:E8; cbn [bindO].
  2:{ intros [= <-]. apply writeUIntLE_thrown in E8; [done|].
      rewrite H7. unfold n, totalSize. lia. }
  apply writeUIntLE_inv in E8 as (_ & _ & E8).
  assert (H8 : length b8 = n).
  { rewrite E8, !length_app, length_take, length_le_bytes, length_drop.
    rewrite H7. unfold n, totalSize. lia. }
  set (b9 := copy (Codec.proof args) b8 _).
  assert (H9 : length b9 = n) by (subst b9; rewrite length_copy; congruence).
  intros E10. apply writeUIntLE_thrown in E10; [done|].
  rewrite H9. unfold n, totalSize. lia.
Qed.

(** X5.  The encoder returns exactly when the two length prefixes fit a u32
    and the amount fits a u64, whatever the widths of the array arguments;
    otherwise it throws, and what it throws is the [RangeError] of a store
    whose value is out of range, never that of a store outside the buffer:
    the computed size is always enough.  A returned buffer has 154 bytes plus
    the two variable fields, starts with the discriminator, and its last 8
    bytes read back as the amount. *)
Theorem encodeShieldedTransferData_returns_iff (args : ShieldedTransferArgs) :
  ((exists buffer, encodeShieldedTransferData args = Returned buffer) <-> inRanges args)
  /\ (forall e, encodeShieldedTransferData args = Thrown e -> e = RangeError "value")
  /\ (forall buffer, encodeShieldedTransferData args = Returned buffer ->
        length buffer = 154 + length (encryptedAmount args) + length (Codec.proof args)
        /\ take 8 buffer = discriminator
        /\ readBigUInt64LE (length buffer - 8) buffer = Returned (actualAmount args)).
Proof.
  split; [split|split].
  - intros [buffer E]. by apply encode_inv in E as [? _].
  - intros H. destruct (encode_returns args H) as (buffer & E & _). by exists buffer.
  - apply encode_thrown.
  - intros buffer E. apply encode_inv in E as (R & L & T & D).
    split; [rewrite L; unfold totalSize; lia|]. split; [done|].
    apply readUIntLE_tail; [apply R| rewrite L; unfold totalSize; lia | done].
Qed.

End EncodeFacts.

(* ------------------------------------------------------------------ *)
(** ** The config account                                              *)
(* ------------------------------------------------------------------ *)

Module ConfigFacts.
Import Js Buffer Codec Client BufferFacts.
Local Open Scope list_scope.

Lemma stripZeros_spec bs :
  length (PublicKey.stripZeros bs) <= length bs
  /\ bs = replicate (length bs - length (PublicKey.stripZeros bs)) x00
          ++ PublicKey.stripZeros bs.
Proof.
  induction bs as [|b bs [IHl IHe]]; [done|]. cbn [PublicKey.stripZeros].
  destruct (Byte.eqb b x00) eqn:E.
  - apply Byte.byte_dec_bl in E as ->. cbn [length]. split; [lia|].
    replace (S (length bs) - length (PublicKey.stripZeros bs))
      with (S (length bs - length (PublicKey.stripZeros bs))) by lia.
    cbn [replicate]. rewrite <- app_comm_cons. by rewrite <- IHe.
  - split; [done|]. by rewrite Nat.sub_diag.
Qed.

(** Up to 32 bytes always make a key; exactly 32 bytes are the key. *)
Lemma PublicKey_new_short bs :
  length bs <= 32 -> exists key, PublicKey.new bs = Returned key.
Proof.
  intros H. unfold PublicKey.new, PublicKey.PUBLIC_KEY_LENGTH.
  destruct (stripZeros_spec bs) as [Hl _].
  destruct (Nat.ltb_spec 32 (length (PublicKey.stripZeros bs))); [lia|]. eauto.
Qed.

Lemma PublicKey_new_full bs :
  length bs = 32 -> PublicKey.new bs = Returned (PublicKey.mk bs).
Proof.
  intros H. unfold PublicKey.new, PublicKey.PUBLIC_KEY_LENGTH.
  destruct (stripZeros_spec bs) as [Hl He].
  destruct (Nat.ltb_spec 32 (length (PublicKey.stripZeros bs))); [lia|].
  rewrite <- H, <- He. reflexivity.
Qed.

Lemma readUIntLE_returns width offset buf :
  offset + width <= length buf ->
  readUIntLE width offset buf = Returned (le_value (take width (drop offset buf))).
Proof.
  intros H. unfold readUIntLE.
  by destruct (Nat.ltb_spec (length buf) (offset + width)); [lia|].
Qed.

Lemma readUIntLE_throws width offset buf :
  length buf < offset + width ->
  readUIntLE width offset buf = Thrown (RangeError "offset").
Proof.
  intros H. unfold readUIntLE.
  by destruct (Nat.ltb_spec (length buf) (offset + width)); [|lia].
Qed.

(** Decoding an account of at least the minimum length: every field is read
    at its offset behind the discriminator. *)
Lemma decodeConfig_long accountData :
  CONFIG_MIN_LENGTH <= length accountData ->
  exists bump,
    drop 8 accountData !! 75 = Some bump
    /\ decodeConfig accountData =
       Returned (mkConfig
         (PublicKey.mk (take 32 (drop 8 accountData)))
         (PublicKey.mk (take 32 (drop 32 (drop 8 accountData))))
         (le_value (take 2 (drop 64 (drop 8 accountData))))
         (bool_decide (drop 8 accountData !! 66 = Some x01))
         (le_value (take 8 (drop 67 (drop 8 accountData))))
         (Some (Z_of_byte bump))).
Proof.
  unfold CONFIG_MIN_LENGTH. intros H. unfold decodeConfig, sliceFrom, slice.
  set (data := drop 8 accountData).
  assert (Hd : 76 <= length data) by (subst data; rewrite length_drop; lia).
  destruct (lookup_lt_is_Some_2 data 75) as [bump Hb]; [lia|].
  exists bump. split; [done|].
  rewrite !PublicKey_new_full by (rewrite length_take, ?length_drop; lia).
  cbn [bindO]. unfold readUInt16LE, readBigUInt64LE.
  rewrite readUIntLE_returns by lia. cbn [bindO].
  rewrite readUIntLE_returns by lia. cbn [bindO].
  unfold at_. rewrite Hb. cbn [fmap option_fmap option_map].
  do 2 f_equal. change (drop 0 data) with data.
  destruct (data !! 66) as [p|] eqn:Hp; cbn [fmap option_fmap option_map].
  - apply bool_decide_ext. split.
    + intros [= Hz]. f_equal. rewrite <- (byte_of_Z_of_byte p), Hz. reflexivity.
    + by intros [= ->].
  - apply bool_decide_ext. split; discriminate.
Qed.

(** Decoding an account that stops before offset 75 of its data: one of the
    two multi-byte loads leaves the buffer. *)
Lemma decodeConfig_short accountData :
  length accountData < 8 + 75 ->
  decodeConfig accountData = Thrown (RangeError "offset").
Proof.
  intros H. unfold decodeConfig, sliceFrom, slice.
  set (data := drop 8 accountData).
  assert (Hd : length data < 75) by (subst data; rewrite length_drop; lia).
  destruct (PublicKey_new_short (take (32 - 0) (drop 0 data))) as [k1 ->];
    [rewrite length_take; lia|].
  destruct (PublicKey_new_short (take (64 - 32) (drop 32 data))) as [k2 ->];
    [rewrite length_take; lia|].
  cbn [bindO]. unfold readUInt16LE, readBigUInt64LE.
  destruct (Nat.lt_ge_cases (length data) (64 + 2)) as [Hs|Hs].
  - by rewrite readUIntLE_throws.
  - rewrite readUIntLE_returns by lia. cbn [bindO]. by rewrite readUIntLE_throws by lia.
Qed.

(** Behind its discriminator an account laid out as documented is the
    sequence of its fields, each found at its offset. *)
Lemma layout_data disc a f fee p tt b rest :
  length disc = 8 ->
  drop 8 (configLayout disc a f fee p tt b ++ rest)
  = a ++ f ++ le_bytes 2 fee ++ [if p then x01 else x00]
    ++ le_bytes 8 tt ++ [byte_of_Z b] ++ rest.
Proof.
  intros H. unfold configLayout. rewrite <- !app_assoc.
  by rewrite drop_app_length'.
Qed.

Lemma layout_fields a f fee (p : bool) tt b rest :
  length a = 32 -> length f = 32 ->
  let data := a ++ f ++ le_bytes 2 fee ++ [if p then x01 else x00]
              ++ le_bytes 8 tt ++ [byte_of_Z b] ++ rest in
  take 32 data = a
  /\ take 32 (drop 32 data) = f
  /\ take 2 (drop 64 data) = le_bytes 2 fee
  /\ data !! 66 = Some (if p then x01 else x00)
  /\ take 8 (drop 67 data) = le_bytes 8 tt
  /\ data !! 75 = Some (byte_of_Z b).
Proof.
  intros Ha Hf data. subst data.
  split; [by rewrite take_app_length'|].
  split; [by rewrite drop_app_length', take_app_length'|].
  split.
  { change 64 with (32 + 32). rewrite <- drop_drop.
    by rewrite !drop_app_length', take_app_length'. }
  split.
  { rewrite lookup_app_r, Ha by lia. rewrite lookup_app_r, Hf by lia.
    by rewrite lookup_app_r, length_le_bytes by (rewrite length_le_bytes; lia). }
  split.
  { change 67 with (32 + (32 + (2 + 1))). rewrite <- !drop_drop.
    rewrite !drop_app_length' by (by rewrite ?length_le_bytes).
    cbn [app drop]. by rewrite take_app_length' by (by rewrite length_le_bytes). }
  change 75 with (75 + 0). rewrite <- lookup_drop.
  change 75 with (32 + (32 + (2 + (1 + 8)))). rewrite <- !drop_drop.
  by rewrite !drop_app_length' by (by rewrite ?length_le_bytes).
Qed.

(** X1.  An account one byte short of the minimum still decodes: both
    multi-byte loads fit, and the read of the bump at offset 75 gives [undefined]. *)
Lemma decodeConfig_missing_bump accountData :
  length accountData = 8 + 75 ->
  exists config, decodeConfig accountData = Returned config /\ bump config = None.
Proof.
  intros H. unfold decodeConfig, sliceFrom, slice.
  set (data := drop 8 accountData).
  assert (Hd : length data = 75) by (subst data; rewrite length_drop; lia).
  rewrite !PublicKey_new_full by (rewrite length_take, ?length_drop; lia).
  cbn [bindO]. unfold readUInt16LE, readBigUInt64LE.
  rewrite readUIntLE_returns by lia. cbn [bindO].
  rewrite readUIntLE_returns by lia. cbn [bindO].
  eexists. split; [reflexivity|]. cbn [bump]. unfold at_.
  by rewrite lookup_ge_None_2 by lia.
Qed.

Lemma decodeConfig_missing_bump_witness :
  exists config,
    decodeConfig (take 83 (sampleAccount false)) = Returned config /\ bump config = None.
Proof. exact (decodeConfig_missing_bump (take 83 (sampleAccount false)) eq_refl). Defined.

Section Fetch.
Context {World : Type} (pdas : Pdas) (this : SipPrivacyClient World).

(** What [fetchConfig] does with each answer of the connection. *)
Lemma fetchConfig_run (w w' : World) answer :
  getAccountInfo _ (connection _ this) (fst (getConfigPda pdas (programId _ this))) w
    = (answer, w') ->
  fetchConfig World pdas this (start World w) =
    let pda := fst (getConfigPda pdas (programId _ this)) in
    match answer with
    | Thrown e =>
        (Returned None,
         mkRun World w' [GetAccountInfo pda] [ConsoleError "Failed to fetch config:" e])
    | Returned None =>
        (Returned None,
         mkRun World w' [GetAccountInfo pda] [ConsoleLog "Config account not found"])
    | Returned (Some info) =>
        match decodeConfig (data info) with
        | Returned config => (Returned (Some config), mkRun World w' [GetAccountInfo pda] [])
        | Thrown e =>
            (Returned None,
             mkRun World w' [GetAccountInfo pda] [ConsoleError "Failed to fetch config:" e])
        end
    end.
Proof.
  intros H.
  cbv [fetchConfig tryCatch bind external step lift print ret start world steps console].
  rewrite H. destruct answer as [[info|]|e]; cbn [app]; [|done..].
  by destruct (decodeConfig (data info)).
Qed.

End Fetch.

(** C2.  When the connection answers with a config account of at least the
    minimum length, [fetchConfig] returns the config decoded from it: behind
    the 8-byte discriminator, authority is bytes 0-31, feeCollector bytes
    32-63, feeBps the u16-LE at 64, paused the byte at 66 (true when it is
    1), totalTransfers the u64-LE at 67 and bump the byte at 75.  So an
    account laid out as the specification writes it decodes to the values
    it was laid out from. *)
Theorem fetchConfig_decodes {World : Type} (pdas : Pdas) (this : SipPrivacyClient World)
    (w w' : World) (accountData : Buffer.t) :
  getAccountInfo _ (connection _ this) (fst (getConfigPda pdas (programId _ this))) w
    = (Returned (Some (mkAccountInfo accountData)), w') ->
  CONFIG_MIN_LENGTH <= length accountData ->
  exists config,
    fst (fetchConfig World pdas this (start World w)) = Returned (Some config)
    /\ decodeConfig accountData = Returned config
    /\ (let data := drop 8 accountData in
        PublicKey.toBuffer (authority config) = take 32 data
        /\ PublicKey.toBuffer (feeCollector config) = take 32 (drop 32 data)
        /\ feeBps config = le_value (take 2 (drop 64 data))
        /\ paused config = bool_decide (data !! 66 = Some x01)
        /\ totalTransfers config = le_value (take 8 (drop 67 data))
        /\ bump config = Z_of_byte <$> data !! 75
        /\ is_Some (bump config))
    /\ (forall disc authority feeCollector feeBps paused totalTransfers bump rest,
          length disc = 8 -> length authority = 32 -> length feeCollector = 32 ->
          (0 <= feeBps < 2 ^ 16)%Z -> (0 <= totalTransfers < 2 ^ 64)%Z ->
          (0 <= bump < 256)%Z ->
          accountData
            = configLayout disc authority feeCollector feeBps paused totalTransfers bump
              ++ rest ->
          config = mkConfig (PublicKey.mk authority) (PublicKey.mk feeCollector)
                     feeBps paused totalTransfers (Some bump)).
Proof.
  intros Hrpc Hlen.
  destruct (decodeConfig_long accountData Hlen) as (bump & Hb & Hdec).
  eexists. split; [|split; [exact Hdec|]].
  { rewrite (fetchConfig_run pdas this w w' _ Hrpc). cbn [data]. by rewrite Hdec. }
  split.
  { cbn. rewrite Hb. cbn. repeat split; eauto. }
  intros disc a f fee p tt b rest Hdisc Ha Hf Hfee Htt Hbump ->.
  destruct (layout_fields a f fee p tt b rest Ha Hf) as (E1 & E2 & E3 & E4 & E5 & E6).
  rewrite (layout_data disc a f fee p tt b rest Hdisc) in Hb |- *.
  rewrite E1, E2, E3, E4, E5. rewrite E6 in Hb. injection Hb as <-.
  rewrite !le_value_le_bytes by (cbn; lia).
  rewrite Z_of_byte_of_Z, Z.mod_small by lia.
  f_equal. by destruct p.
Qed.

Lemma fetchConfig_decodes_witness :
  exists config,
    fst (fetchConfig unit samplePdas
           (mkClient unit (answering (Returned (Some (mkAccountInfo (sampleAccount true)))))
                     sampleProgramId)
           (start unit tt)) = Returned (Some config)
    /\ config = mkConfig (PublicKey.mk (replicate 32 x01)) (PublicKey.mk (replicate 32 x02))
                  25 true 7 (Some 254%Z).
Proof.
  assert (Hlen : CONFIG_MIN_LENGTH <= length (sampleAccount true)) by (cbv; lia).
  destruct (fetchConfig_decodes samplePdas
              (mkClient unit (answering (Returned (Some (mkAccountInfo (sampleAccount true)))))
                        sampleProgramId)
              tt tt (sampleAccount true) eq_refl Hlen) as (config & E & _ & _ & L).
  exists config. split; [exact E|].
  apply (L (replicate 8 x09) (replicate 32 x01) (replicate 32 x02) 25%Z true 7%Z 254%Z []);
    try reflexivity; lia.
Defined.

(** C3 (as amended).  When the connection answers with an account shorter
    than 83 bytes (the discriminator and 75 bytes of data), decoding throws a
    [RangeError], which [fetchConfig] catches and prints; it then returns
    null, the value it also returns when the account is missing and when the
    request fails. *)
Theorem fetchConfig_truncated {World : Type} (pdas : Pdas) (this : SipPrivacyClient World)
    (w w' : World) (accountData : Buffer.t) :
  getAccountInfo _ (connection _ this) (fst (getConfigPda pdas (programId _ this))) w
    = (Returned (Some (mkAccountInfo accountData)), w') ->
  length accountData < 8 + 75 ->
  decodeConfig accountData = Thrown (RangeError "offset")
  /\ fetchConfig World pdas this (start World w)
     = (Returned None,
        mkRun World w' [GetAccountInfo (fst (getConfigPda pdas (programId _ this)))]
              [ConsoleError "Failed to fetch config:" (RangeError "offset")])
  /\ (forall w0 w0',
        getAccountInfo _ (connection _ this)
          (fst (getConfigPda pdas (programId _ this))) w0 = (Returned None, w0') ->
        fst (fetchConfig World pdas this (start World w0)) = Returned None)
  /\ (forall w0 w0' e,
        getAccountInfo _ (connection _ this)
          (fst (getConfigPda pdas (programId _ this))) w0 = (Thrown e, w0') ->
        fst (fetchConfig World pdas this (start World w0)) = Returned None).
Proof.
  intros Hrpc Hlen. pose proof (decodeConfig_short accountData Hlen) as Hdec.
  split; [exact Hdec|]. split.
  { rewrite (fetchConfig_run pdas this w w' _ Hrpc). cbn [data]. by rewrite Hdec. }
  split.
  - intros w0 w0' H0. by rewrite (fetchConfig_run pdas this w0 w0' _ H0).
  - intros w0 w0' e H0. by rewrite (fetchConfig_run pdas this w0 w0' _ H0).
Qed.

Lemma fetchConfig_truncated_witness :
  fetchConfig unit samplePdas
    (mkClient unit (answering (Returned (Some (mkAccountInfo (take 40 (sampleAccount false))))))
              sampleProgramId)
    (start unit tt)
  = (Returned None,
     mkRun unit tt [GetAccountInfo sampleProgramId]
           [ConsoleError "Failed to fetch config:" (RangeError "offset")]).
Proof.
  assert (Hlen : length (take 40 (sampleAccount false)) < 8 + 75) by (cbv; lia).
  exact (proj1 (proj2 (fetchConfig_truncated samplePdas
    (mkClient unit (answering (Returned (Some (mkAccountInfo (take 40 (sampleAccount false))))))
              sampleProgramId)
    tt tt (take 40 (sampleAccount false)) eq_refl Hlen))).
Defined.

(** C3, the counterexample: for the first 40 bytes of a config account the
    result of [fetchConfig] is null, exactly the result for a missing account
    and for a failed request; the only trace of the truncation is a console
    line. *)
Lemma fetchConfig_truncated_is_null :
  length (take 40 (sampleAccount false)) = 40
  /\ fst (fetchConfig unit samplePdas
            (mkClient unit
               (answering (Returned (Some (mkAccountInfo (take 40 (sampleAccount false))))))
               sampleProgramId)
            (start unit tt)) = Returned None
  /\ fst (fetchConfig unit samplePdas
            (mkClient unit (answering (Returned None)) sampleProgramId)
            (start unit tt)) = Returned None
  /\ fst (fetchConfig unit samplePdas
            (mkClient unit (answering (Thrown (Error "fetch failed"))) sampleProgramId)
            (start unit tt)) = Returned None.
Proof. repeat split; vm_compute; reflexivity. Qed.


(** *** The state summary *)

Section State.
Context {World : Type} (pdas : Pdas) (this : SipPrivacyClient World).

Lemma getState_run (w : World) :
  getState World pdas this (start World w)
  = let '(fetched, r) := fetchConfig World pdas this (start World w) in
    match fetched with
    | Returned config =>
        (Returned
           (mkState config
              (match config with Some _ => true | None => false end)
              (match config with Some c => totalTransfers c | None => 0%Z end)
              (match config with Some c => feeBps c | None => 0%Z end)
              (match config with Some c => Some (feeCollector c) | None => None end)), r)
    | Thrown e => (Thrown e, r)
    end.
Proof. unfold getState, bind. by destruct (fetchConfig _ _ _ _) as [[]]. Qed.

(** X6.  [getState] never throws and asks the connection once, for the
    config account.  Its config is the decoded account when the connection
    answers with one that decodes, and null in every other case: a failed
    request, a missing account, an account that does not decode (one shorter
    than 83 bytes among them).  With a config the summary is initialized and
    repeats its counters and fee collector, and nothing is printed; without
    one it is not initialized, both counters are 0, the fee collector is
    null, and one console line tells why. *)
Theorem getState_summary (w : World) :
  let pda := fst (getConfigPda pdas (programId _ this)) in
  let answer := fst (getAccountInfo _ (connection _ this) pda w) in
  exists state r,
    getState World pdas this (start World w) = (Returned state, r)
    /\ steps _ r = [GetAccountInfo pda]
    /\ stateConfig state
       = match answer with
         | Returned (Some info) =>
             match decodeConfig (data info) with
             | Returned config => Some config
             | Thrown _ => None
             end
         | _ => None
         end
    /\ match stateConfig state with
       | Some config =>
           isInitialized state = true
           /\ stateTotalTransfers state = totalTransfers config
           /\ stateFeeBps state = feeBps config
           /\ stateFeeCollector state = Some (feeCollector config)
           /\ console _ r = []
       | None =>
           isInitialized state = false
           /\ stateTotalTransfers state = 0%Z
           /\ stateFeeBps state = 0%Z
           /\ stateFeeCollector state = None
           /\ length (console _ r) = 1
       end
    /\ (forall info, answer = Returned (Some info) -> length (data info) < 8 + 75 ->
        stateConfig state = None).
Proof.
  cbv zeta. rewrite getState_run.
  destruct (getAccountInfo _ _ _ w) as [answer w'] eqn:Hrpc.
  rewrite (fetchConfig_run pdas this w w' answer Hrpc). cbv zeta. cbn [fst].
  destruct answer as [[info|]|e].
  - destruct (decodeConfig (data info)) as [config|e] eqn:Hdec.
    + do 2 eexists. split; [reflexivity|]. cbn. repeat split; try done.
      intros ? [= <-] Hlen. by rewrite decodeConfig_short in Hdec.
    + do 2 eexists. split; [reflexivity|]. cbn. repeat split; done.
  - do 2 eexists. split; [reflexivity|]. cbn. repeat split; done.
  - do 2 eexists. split; [reflexivity|]. cbn. repeat split; done.
Qed.

End State.

End ConfigFacts.

(* ------------------------------------------------------------------ *)
(** ** The order of the steps of a build                               *)
(* ------------------------------------------------------------------ *)

Module BuildFacts.
Import Js Buffer Codec Client ConfigFacts.
Local Open Scope list_scope.

Section Build.
Context {World : Type} (crypto : Crypto World) (pdas : Pdas)
  (this : SipPrivacyClient World).


Lemma emits_lift {A} (o : outcome A) : emits World (lift World o) [].
Proof. intros r. exists []. cbn. by rewrite app_nil_r. Qed.












End Build.



(** A build against a running program: all steps in order, 1.5 SOL as
    1500000000 lamports, and an instruction of 346 bytes. *)
Example buildShieldedTransfer_sample_run :
  exists built,
    fst (buildShieldedTransfer unit sampleCrypto samplePdas
           (sampleClient (sampleAccount false)) sampleSender sampleParams (start unit tt))
    = Returned built
    /\ steps unit
         (snd (buildShieldedTransfer unit sampleCrypto samplePdas
                 (sampleClient (sampleAccount false)) sampleSender sampleParams
                 (start unit tt)))
       = fullOrder sampleProgramId 1500000000
    /\ (length <$> (instructionData <$> instructions (transaction built))) = [346].
Proof. eexists. vm_compute. repeat split; reflexivity. Qed.


(** *** What a build returns, and the amounts it refuses *)

Lemma bigIntFloor_notFinite x :
  notFinite x ->
  bigIntFloor (x * LAMPORTS_PER_SOL)
  = Thrown (RangeError "The number cannot be converted to a BigInt").
Proof.
  unfold notFinite, bigIntFloor. rewrite mul_spec.
  replace (Prim2SF LAMPORTS_PER_SOL) with (S754_finite false 8388608000000000 (-23))
    by (vm_compute; reflexivity).
  by destruct (Prim2SF x) as [| [] | |].
Qed.

Section Built.
Context {World : Type} (crypto : Crypto World) (pdas : Pdas)
  (this : SipPrivacyClient World).

(** A sequence returns only when both of its parts return. *)
Lemma bind_returned {A B} (m : M World A) (k : A -> M World B) r b r' :
  bind World m k r = (Returned b, r') ->
  exists a r1, m r = (Returned a, r1) /\ k a r1 = (Returned b, r').
Proof. unfold bind. destruct (m r) as [[a|e] r1]; [eauto|done]. Qed.

Lemma internal_returned {A} s (o : outcome A) r a r' :
  internal World s o r = (Returned a, r') -> o = Returned a.
Proof. cbv [internal bind step lift]. by intros [= -> _]. Qed.

(** X7.  When a build returns, a config was fetched and was not paused, and
    the amount in lamports is an integer that fits a u64 (so no negative
    amount and none of 2^64 lamports or more is ever built); the transaction
    holds exactly one instruction, for the client's program, over the six
    accounts config, transfer record, sender, stealth key, fee collector and
    system program, of which the sender is the only signer; the sender pays
    the fee; the transfer record is the one derived from the sender and the
    config's transfer count; and the instruction data starts with the
    discriminator and ends with the lamports as u64-LE. *)
Theorem buildShieldedTransfer_built sender params (w : World) built :
  fst (buildShieldedTransfer World crypto pdas this sender params (start World w))
    = Returned built ->
  exists config lamports instructionData blockhash,
    fst (fetchConfig World pdas this (start World w)) = Returned (Some config)
    /\ paused config = false
    /\ bigIntFloor (amount params * LAMPORTS_PER_SOL) = Returned lamports
    /\ (0 <= lamports < 2 ^ 64)%Z
    /\ transaction built
       = mkTransaction
           [mkInstruction (transferKeys World pdas this sender params config)
              (programId _ this) instructionData]
           (Some blockhash) (Some sender)
    /\ transferRecord built
       = fst (getTransferRecordPda pdas sender (totalTransfers config) (programId _ this))
    /\ filter (fun key => isSigner key = true)
         (transferKeys World pdas this sender params config)
       = [mkMeta sender true true]
    /\ take 8 instructionData = discriminator
    /\ readBigUInt64LE (length instructionData - 8) instructionData = Returned lamports.
Proof.
  destruct (buildShieldedTransfer _ _ _ _ _ _ _) as [out r'] eqn:E. cbn [fst].
  intros ->. unfold buildShieldedTransfer in E.
  apply bind_returned in E as (config & r0 & F & E). rewrite F. cbn [fst].
  destruct config as [config|]; [|done].
  destruct (paused config) eqn:P; [done|].
  apply bind_returned in E as (lamports & r1 & L & E).
  assert (L' : bigIntFloor (amount params * LAMPORTS_PER_SOL) = Returned lamports).
  { unfold lift in L. congruence. }
  apply bind_returned in E as (kp & r2 & _ & E).
  apply bind_returned in E as (secret & r3 & _ & E).
  apply bind_returned in E as ([c bf] & r4 & _ & E).
  apply bind_returned in E as (enc & r5 & _ & E).
  apply bind_returned in E as (vkh & r6 & _ & E).
  apply bind_returned in E as (prf & r7 & _ & E).
  cbv zeta in E.
  apply bind_returned in E as (ix & r8 & X & E).
  apply internal_returned in X.
  apply bind_returned in E as (bh & r9 & _ & E).
  unfold ret in E. injection E as <- _.
  apply EncodeFacts.encode_inv in X as ((_ & _ & R) & Hlen & T & D).
  cbn [actualAmount] in *.
  exists config, lamports, ix, bh. repeat split; try done; try lia.
  apply BufferFacts.readUIntLE_tail; [done| rewrite Hlen; unfold totalSize; lia | done].
Qed.

(** X8.  With a config fetched and not paused, an amount that is NaN or
    infinite ends the build at the conversion to lamports: [BigInt] throws
    its [RangeError] before any key is generated, so the only step taken is
    the fetch of the config. *)
Theorem buildShieldedTransfer_not_finite sender params (w : World) config :
  fst (fetchConfig World pdas this (start World w)) = Returned (Some config) ->
  paused config = false ->
  notFinite (amount params) ->
  let run := buildShieldedTransfer World crypto pdas this sender params (start World w) in
  fst run = Thrown (RangeError "The number cannot be converted to a BigInt")
  /\ steps _ (snd run) = [GetAccountInfo (fst (getConfigPda pdas (programId _ this)))].
Proof.
  intros F P N. cbv zeta. unfold buildShieldedTransfer.
  match goal with
  | |- context [bind World (fetchConfig World pdas this) ?k] => set (K := k)
  end.
  unfold bind.
  destruct (getAccountInfo _ (connection _ this) (fst (getConfigPda pdas (programId _ this))) w)
    as [answer w'] eqn:Hrpc.
  rewrite (fetchConfig_run pdas this w w' answer Hrpc) in F |- *. cbv zeta in F |- *.
  destruct answer as [[info|]|e]; [|done..].
  destruct (decodeConfig (data info)) as [c|e]; [|done].
  cbn [fst] in F. injection F as ->.
  subst K. cbv beta iota. rewrite P, (bigIntFloor_notFinite _ N). done.
Qed.

End Built.

Lemma buildShieldedTransfer_built_witness :
  exists built config lamports instructionData blockhash,
    fst (buildShieldedTransfer unit sampleCrypto samplePdas
           (sampleClient (sampleAccount false)) sampleSender sampleParams (start unit tt))
    = Returned built
    /\ fst (fetchConfig unit samplePdas (sampleClient (sampleAccount false)) (start unit tt))
       = Returned (Some config)
    /\ bigIntFloor (amount sampleParams * LAMPORTS_PER_SOL) = Returned lamports
    /\ transaction built
       = mkTransaction
           [mkInstruction
              (transferKeys unit samplePdas (sampleClient (sampleAccount false))
                 sampleSender sampleParams config)
              sampleProgramId instructionData]
           (Some blockhash) (Some sampleSender)
    /\ readBigUInt64LE (length instructionData - 8) instructionData = Returned lamports.
Proof.
  eexists.
  edestruct (buildShieldedTransfer_built sampleCrypto samplePdas
               (sampleClient (sampleAccount false)) sampleSender sampleParams tt)
    as (config & lamports & ix & bh & F & _ & L & _ & T & _ & _ & _ & R).
  { vm_compute. reflexivity. }
  exists config, lamports, ix, bh. split; [vm_compute; reflexivity|]. done.
Defined.

Lemma buildShieldedTransfer_not_finite_witness :
  fst (buildShieldedTransfer unit sampleCrypto samplePdas
         (sampleClient (sampleAccount false)) sampleSender
         (mkTransferParams nan (PublicKey.mk (replicate 32 x09))
            (replicate 33 x0a) (replicate 33 x0b) None)
         (start unit tt))
  = Thrown (RangeError "The number cannot be converted to a BigInt").
Proof.
  refine (proj1 (buildShieldedTransfer_not_finite sampleCrypto samplePdas
                   (sampleClient (sampleAccount false)) sampleSender _ tt
                   (mkConfig (PublicKey.mk (replicate 32 x01))
                      (PublicKey.mk (replicate 32 x02)) 25 false 7 (Some 254%Z))
                   _ _ _)).
  - vm_compute. reflexivity.
  - reflexivity.
  - exact I.
Defined.

End BuildFacts.

(* ------------------------------------------------------------------ *)
(** ** The memoized client instance                                    *)
(* ------------------------------------------------------------------ *)

Module FactoryFacts.
Import Factory.

Section Singleton.
Context {Connection PublicKey : Type} (SIP_PRIVACY_PROGRAM_ID : PublicKey).

Abbreviation get := (getSipPrivacyClient Connection PublicKey SIP_PRIVACY_PROGRAM_ID).
Abbreviation reset := (resetSipPrivacyClient Connection PublicKey).
Abbreviation all := (getAll Connection PublicKey SIP_PRIVACY_PROGRAM_ID).

(** Once an instance is cached, every call returns it and changes nothing,
    whatever its arguments. *)
Lemma getAll_cached requests st client :
  clientInstance _ _ st = Some client ->
  all requests st = (replicate (length requests) client, st).
Proof.
  intros H. induction requests as [|[connection programId] rest IH]; [done|].
  cbn [getAll length replicate]. unfold getSipPrivacyClient at 1. rewrite H.
  by rewrite IH.
Qed.

(** C10.  With no instance cached (at module load and after a reset), the
    first call constructs the client from its own connection and program id
    (the default one when none is given) and caches it; every later call,
    whatever connection and program id it passes, returns that same object
    and leaves the module state as it is; a reset sets the cached instance
    back to null, and the call after it constructs a new object from its
    own arguments. *)
Theorem getSipPrivacyClient_singleton (st : ModuleState Connection PublicKey)
    (connection : Connection) (programId : option PublicKey)
    (requests : list (Connection * option PublicKey)) :
  clientInstance _ _ st = None ->
  let first := fst (get connection programId st) in
  let st1 := snd (get connection programId st) in
  first = mkClient _ _ (allocated _ _ st) connection
            (default SIP_PRIVACY_PROGRAM_ID programId)
  /\ clientInstance _ _ st1 = Some first
  /\ all requests st1 = (replicate (length requests) first, st1)
  /\ (forall connection' programId',
        get connection' programId' st1 = (first, st1))
  /\ clientInstance _ _ (reset (snd (all requests st1))) = None
  /\ (forall connection' programId',
        fst (get connection' programId' (reset (snd (all requests st1))))
        = mkClient _ _ (allocated _ _ st1) connection'
            (default SIP_PRIVACY_PROGRAM_ID programId')
        /\ objectId _ _ (fst (get connection' programId' (reset (snd (all requests st1)))))
           <> objectId _ _ first).
Proof.
  intros H first st1. subst first st1.
  set (first := mkClient _ _ (allocated _ _ st) connection
                  (default SIP_PRIVACY_PROGRAM_ID programId)).
  set (st1 := mkState _ _ (Some first) (S (allocated _ _ st))).
  assert (E : get connection programId st = (first, st1)).
  { unfold getSipPrivacyClient. by rewrite H. }
  rewrite !E. cbn [fst snd].
  assert (Hc : clientInstance _ _ st1 = Some first) by done.
  split; [done|]. split; [done|].
  split; [by apply getAll_cached|].
  split. { intros c p. unfold getSipPrivacyClient. by rewrite Hc. }
  rewrite (getAll_cached requests st1 first Hc). cbn [snd].
  split; [done|]. intros c p. unfold getSipPrivacyClient, resetSipPrivacyClient.
  cbn. split; [done|]. lia.
Qed.

End Singleton.

Lemma getSipPrivacyClient_singleton_witness :
  getAll nat string "default"
    [(7, Some "other"); (8, None)]
    (snd (getSipPrivacyClient nat string "default" 1 (Some "program")
            (initialState nat string)))
  = ([mkClient nat string 0 1 "program"; mkClient nat string 0 1 "program"],
     mkState nat string (Some (mkClient nat string 0 1 "program")) 1).
Proof.
  exact (proj1 (proj2 (proj2
    (getSipPrivacyClient_singleton "default" (initialState nat string) 1 (Some "program")
       [(7, Some "other"); (8, None)] eq_refl)))).
Defined.

End FactoryFacts.

(* ------------------------------------------------------------------ *)
(** ** Scanning twice                                                  *)
(* ------------------------------------------------------------------ *)

Module ScanFacts.
Import Scan.
Local Open Scope list_scope.

Section Idempotence.
Context (generateMockAnnouncements : nat -> list nat -> list Announcement).

(** With enough fuel the batches cover the announcements from [i] on, one
    after the other. *)
Lemma scanBatches_fold clock fuel known announcements i result :
  length announcements - i <= fuel ->
  scanBatches clock fuel known announcements i result
  = fold_left (scanAnnouncement clock known) (drop i announcements) result.
Proof.
  revert i result. induction fuel as [|fuel IH]; intros i result Hfuel.
  - cbn [scanBatches]. rewrite drop_ge by lia. reflexivity.
  - cbn [scanBatches]. destruct (Nat.ltb_spec i (length announcements)) as [Hi|Hi].
    + rewrite IH by (unfold BATCH_SIZE; lia). unfold slice.
      replace (i + BATCH_SIZE - i) with BATCH_SIZE by lia.
      rewrite <- fold_left_app, <- drop_drop, take_drop. reflexivity.
    + rewrite drop_ge by lia. reflexivity.
Qed.

(** A known announcement is only counted: whether it is ours is not looked
    at. *)
Lemma scanAnnouncement_known clock known result announcement :
  announcementTxHash announcement ∈ known ->
  scanAnnouncement clock known result announcement
  = mkResult (found result) (S (scanned result)) (newPayments result) (errors result).
Proof. intros H. unfold scanAnnouncement. by rewrite bool_decide_eq_true_2. Qed.

Lemma scanAnnouncement_scanned clock known result announcement :
  scanned (scanAnnouncement clock known result announcement) = S (scanned result).
Proof.
  unfold scanAnnouncement. destruct (bool_decide _); [done|].
  by destruct (isOurs announcement).
Qed.

Lemma fold_scanned clock known announcements result :
  scanned (fold_left (scanAnnouncement clock known) announcements result)
  = scanned result + length announcements.
Proof.
  revert result. induction announcements as [|a rest IH]; intros result; cbn.
  - lia.
  - rewrite IH, scanAnnouncement_scanned. lia.
Qed.

(** When every announcement of ours is known, a scan finds nothing new. *)
Lemma fold_all_known clock known announcements result :
  (forall a, a ∈ announcements -> isOurs a = true -> announcementTxHash a ∈ known) ->
  found (fold_left (scanAnnouncement clock known) announcements result) = found result
  /\ newPayments (fold_left (scanAnnouncement clock known) announcements result)
     = newPayments result.
Proof.
  revert result. induction announcements as [|a rest IH]; intros result H; [done|].
  cbn [fold_left]. destruct (IH (scanAnnouncement clock known result a)) as [-> ->].
  { intros b Hb. apply H. by right. }
  unfold scanAnnouncement. destruct (bool_decide _) eqn:Hk; [done|].
  destruct (isOurs a) eqn:Ho; [|done].
  apply bool_decide_eq_false in Hk. destruct Hk. apply H; [by left|done].
Qed.

(** A scan keeps the payments it already holds. *)
Lemma fold_keeps clock known announcements result h :
  h ∈ knownFrom (newPayments result) ->
  h ∈ knownFrom (newPayments (fold_left (scanAnnouncement clock known) announcements result)).
Proof.
  revert result. induction announcements as [|a rest IH]; intros result H; [done|].
  cbn [fold_left]. apply IH. revert H. unfold scanAnnouncement, knownFrom.
  destruct (bool_decide _); [done|]. destruct (isOurs a); [|done].
  cbn [newPayments]. rewrite fmap_app, !elem_of_list_to_set, elem_of_app. by left.
Qed.

(** A scan records every announcement of ours that was not known. *)
Lemma fold_records clock known announcements result a :
  a ∈ announcements -> isOurs a = true -> announcementTxHash a ∉ known ->
  announcementTxHash a
  ∈ knownFrom (newPayments (fold_left (scanAnnouncement clock known) announcements result)).
Proof.
  revert result. induction announcements as [|b rest IH]; intros result Ha Ho Hk.
  - by apply elem_of_nil in Ha.
  - cbn [fold_left]. apply elem_of_cons in Ha as [<-|Ha]; [|by apply IH].
    apply fold_keeps. unfold scanAnnouncement, knownFrom.
    rewrite bool_decide_eq_false_2 by done. rewrite Ho.
    cbn [newPayments]. rewrite fmap_app, elem_of_list_to_set, elem_of_app.
    right. by apply list_elem_of_singleton.
Qed.

(** C9.  For a fixed announcement set (the same options), let a first scan
    run with the known set [known1] and a second scan with a known set
    [known2] that holds [known1] and the transaction hashes of the payments
    the first scan returned (with [known1] empty: any set seeded from the
    first results).  Then the second scan finds nothing: zero found, no new
    payment, the same number scanned.  The reason is the first test of the
    loop body: an announcement whose hash is known is counted and skipped
    whether or not it is ours. *)
Theorem executeScanFlow_idempotent (clock1 clock2 : nat -> Z) (keys : StealthKeys)
    (known1 known2 : gset string) (options : Options) :
  let first :=
    result (executeScanFlow generateMockAnnouncements clock1 (Some keys) known1 options) in
  let second :=
    result (executeScanFlow generateMockAnnouncements clock2 (Some keys) known2 options) in
  known1 ⊆ known2 ->
  knownFrom (newPayments first) ⊆ known2 ->
  found second = 0
  /\ newPayments second = []
  /\ scanned second = scanned first
  /\ (forall result announcement,
        announcementTxHash announcement ∈ known2 ->
        scanAnnouncement clock2 known2 result announcement
        = mkResult (found result) (S (scanned result)) (newPayments result)
                   (errors result)).
Proof.
  intros first second H1 H2.
  split; [|split; [|split; [|intros; by apply scanAnnouncement_known]]];
    subst first second; revert H2; unfold executeScanFlow;
    set (announcements := match mockAnnouncements options with
                          | Some given => given
                          | None => _
                          end);
    set (filtered := match fromTimestamp options with
                     | Some from => _
                     | None => _
                     end);
    destruct (length filtered =? 0)%nat; try done; cbn [result];
    rewrite !scanBatches_fold by lia; rewrite !drop_0; intros H2.
  all: edestruct (fold_all_known clock2 known2 filtered (mkResult 0 0 [] []))
         as [Hf Hn];
    [ intros a Ha Ho; destruct (decide (announcementTxHash a ∈ known1)) as [Hk|Hk];
      [ by apply H1
      | apply H2; by apply fold_records ]
    | ].
  - by rewrite Hf.
  - by rewrite Hn.
  - by rewrite !fold_scanned.
Qed.

End Idempotence.

(** The first scan of the sample finds its two payments. *)
Example executeScanFlow_sample_first :
  found (result (executeScanFlow (fun _ _ => []) (fun _ => 1600000000000%Z)
                   (Some sampleKeys) ∅ sampleOptions)) = 2
  /\ scanned (result (executeScanFlow (fun _ _ => []) (fun _ => 1600000000000%Z)
                        (Some sampleKeys) ∅ sampleOptions)) = 3.
Proof. split; vm_compute; reflexivity. Qed.

Lemma executeScanFlow_idempotent_witness :
  found (result (executeScanFlow (fun _ _ => []) (fun _ => 1700000000000%Z)
                   (Some sampleKeys)
                   (knownFrom
                      (newPayments
                         (result (executeScanFlow (fun _ _ => []) (fun _ => 1600000000000%Z)
                                    (Some sampleKeys) ∅ sampleOptions))))
                   sampleOptions)) = 0.
Proof.
  refine (proj1 (executeScanFlow_idempotent (fun _ _ => [])
                   (fun _ => 1600000000000%Z) (fun _ => 1700000000000%Z)
                   sampleKeys ∅ _ sampleOptions _ _)).
  - apply empty_subseteq.
  - reflexivity.
Defined.


(** *** What a scan returns *)

Section Result.
Context (generateMockAnnouncements : nat -> list nat -> list Announcement).

(** The loop body, by whether the announcement is fresh. *)
Lemma scanAnnouncement_fresh clock known result a :
  scanAnnouncement clock known result a
  = if fresh known a
    then mkResult (S (found result)) (S (scanned result))
                  (newPayments result ++ [paymentFor clock (S (found result)) a])
                  (errors result)
    else mkResult (found result) (S (scanned result)) (newPayments result) (errors result).
Proof.
  unfold scanAnnouncement, fresh.
  destruct (bool_decide _); [by rewrite andb_false_r|].
  rewrite andb_true_r. by destruct (isOurs a).
Qed.

Lemma fold_payments clock known announcements result :
  found result = length (newPayments result) ->
  let ours := filter (fun a => fresh known a = true) announcements in
  fold_left (scanAnnouncement clock known) announcements result
  = mkResult (found result + length ours)
             (scanned result + length announcements)
             (newPayments result
              ++ imap (fun k => paymentFor clock (S (found result + k))) ours)
             (errors result).
Proof.
  revert result. induction announcements as [|a rest IH]; intros result Hf; cbn zeta.
  - cbn. rewrite !Nat.add_0_r, app_nil_r. by destruct result.
  - cbn [fold_left]. rewrite filter_cons, scanAnnouncement_fresh.
    destruct (fresh known a) eqn:F.
    + rewrite decide_True by done. rewrite IH by (cbn; rewrite length_app; cbn; lia).
      cbn [found scanned newPayments errors length imap].
      rewrite <- app_assoc. cbn [app]. f_equal; try lia.
      f_equal. rewrite Nat.add_0_r. f_equal.
      apply imap_ext. intros k b _. cbn. f_equal. lia.
    + rewrite decide_False by done. rewrite IH by done.
      cbn [found scanned newPayments errors length]. f_equal; lia.
Qed.

(** Every payment of a scan was built by the loop body from an announcement
    that was ours and not known. *)
Lemma newPayments_shape clock keys existing options payment :
  payment ∈ newPayments
              (result (executeScanFlow generateMockAnnouncements clock keys
                              existing options)) ->
  exists k announcement,
    payment = paymentFor clock k announcement
    /\ fresh existing announcement = true.
Proof.
  unfold executeScanFlow. destruct keys as [keys|]; [|by intros ?%elem_of_nil].
  set (announcements := match mockAnnouncements options with
                        | Some given => given
                        | None => _
                        end).
  set (filtered := match fromTimestamp options with
                   | Some from => _
                   | None => _
                   end).
  destruct (length filtered =? 0)%nat; [by intros ?%elem_of_nil|].
  cbn [result]. rewrite scanBatches_fold by lia.
  rewrite drop_0, fold_payments by done. cbn [newPayments app Nat.add].
  intros (i & a & -> & Ha)%elem_of_lookup_imap.
  exists (S i), a. split; [done|].
  apply list_elem_of_lookup_2 in Ha. by apply list_elem_of_filter in Ha as [? _].
Qed.

(** X9.  With stealth keys a scan always completes without an error, and its
    result is read off the announcements in one pass, the batches of 50
    leaving no trace: the announcements are the given ones (else the
    generated ones), filtered as [filterByTimestamp] of the scan hook does
    (strictly later than a non-zero [fromTimestamp]); [scanned] is their
    number; the new payments are, in order, one payment for each
    announcement that is ours and whose hash is not known, the [k]-th
    numbered [k]; [found] is their number.  An announcement that occurs
    twice in one scan is therefore paid twice.  The progress counts the
    filtered announcements, and its message is the hook's
    [getCompletionMessage] unless there was nothing to scan. *)
Theorem executeScanFlow_result (clock : nat -> Z) (keys : StealthKeys)
    (existing : gset string) (options : Options) :
  let announcements :=
    match mockAnnouncements options with
    | Some given => given
    | None => generateMockAnnouncements
                (match limit options with Some (S n) => S n | _ => 100 end) [2; 7; 15; 42]
    end in
  let filtered :=
    ScanPayments.filterByTimestamp timestamp announcements (fromTimestamp options) in
  let ours := filter (fun a => fresh existing a = true) filtered in
  let run := executeScanFlow generateMockAnnouncements clock (Some keys) existing options in
  result run
  = mkResult (length ours) (length filtered) (imap (fun k => paymentFor clock (S k)) ours) []
  /\ stage (progress run) = StageComplete
  /\ current (progress run) = length filtered
  /\ total (progress run) = length filtered
  /\ message (progress run)
     = (if decide (filtered = []) then "No announcements to scan"
        else ScanPayments.getCompletionMessage (length ours) (length filtered)).
Proof.
  cbv zeta. unfold executeScanFlow, ScanPayments.filterByTimestamp.
  set (announcements := match mockAnnouncements options with
                        | Some given => given
                        | None => _
                        end).
  set (filtered := match fromTimestamp options with
                   | Some from => _
                   | None => _
                   end).
  destruct (Nat.eqb_spec (length filtered) 0) as [E|E].
  - apply nil_length_inv in E. rewrite E. cbn. done.
  - cbn [result progress stage current total message].
    rewrite scanBatches_fold by lia. rewrite drop_0, fold_payments by done.
    cbn [found scanned newPayments errors app Nat.add].
    rewrite decide_False by (by intros ->). done.
Qed.

End Result.

End ScanFacts.

(* ------------------------------------------------------------------ *)
(** ** Strings                                                         *)
(* ------------------------------------------------------------------ *)

Module StringFacts.
Import Js MetaAddress MetaAddressFacts.

Lemma length_append (a b : string) :
  String.length (a ++ b) = String.length a + String.length b.
Proof. induction a as [|c a IH]; [done|]. rewrite append_String. cbn. by rewrite IH. Qed.

Lemma append_assoc (a b c : string) : (a ++ b) ++ c = a ++ b ++ c.
Proof. induction a as [|x a IH]; [done|]. rewrite !append_String. by rewrite IH. Qed.

Lemma append_nil_r (a : string) : a ++ "" = a.
Proof. induction a as [|x a IH]; [done|]. rewrite append_String. by rewrite IH. Qed.

Lemma length_sliceTo n s : String.length (sliceTo n s) = Nat.min n (String.length s).
Proof.
  revert s. induction n as [|n IH]; intros [|c s]; cbn; try done. by rewrite IH.
Qed.

Lemma length_sliceFrom n s : String.length (sliceFrom n s) = String.length s - n.
Proof.
  revert s. induction n as [|n IH]; intros [|c s]; cbn; try done; lia.
Qed.

(** A string is its first [n] units followed by the rest. *)
Lemma sliceTo_sliceFrom n s : sliceTo n s ++ sliceFrom n s = s.
Proof.
  revert s. induction n as [|n IH]; intros [|c s]; cbn [sliceTo sliceFrom]; try done.
  rewrite append_String. by rewrite IH.
Qed.

Lemma sliceFrom_append a b : sliceFrom (String.length a) (a ++ b) = b.
Proof. induction a as [|c a IH]; [done|]. rewrite append_String. by cbn. Qed.

Lemma sliceTo_append a b : sliceTo (String.length a) (a ++ b) = a.
Proof.
  induction a as [|c a IH]; [by destruct b|]. rewrite append_String. cbn. by rewrite IH.
Qed.

(** Joining the segments of a split gives the string back, and no segment
    holds the separator. *)
Lemma join_split s : join ":" (split ":" s) = s.
Proof.
  induction s as [|c s IH]; [done|]. cbn [split].
  destruct (Ascii.eqb_spec c ":") as [->|Hc].
  - pose proof (split_not_nil ":" s) as Hn.
    destruct (split ":" s) as [|p rest] eqn:E; [done|].
    change (join ":" ("" :: p :: rest)) with ("" ++ ":" ++ join ":" (p :: rest)).
    by rewrite IH.
  - pose proof (split_not_nil ":" s) as Hn.
    destruct (split ":" s) as [|p rest] eqn:E; [done|].
    destruct rest as [|q rest].
    + cbn [join] in *. by rewrite IH.
    + change (join ":" (String c p :: q :: rest))
        with (String c p ++ ":" ++ join ":" (q :: rest)).
      change (join ":" (p :: q :: rest)) with (p ++ ":" ++ join ":" (q :: rest)) in IH.
      rewrite append_String. by rewrite IH.
Qed.

Lemma split_segments s : Forall (fun p => noColon p = true) (split ":" s).
Proof.
  induction s as [|c s IH]; [by repeat constructor|]. cbn [split].
  destruct (Ascii.eqb_spec c ":") as [->|Hc]; [by constructor|].
  destruct (split ":" s) as [|p rest]; [repeat constructor|].
  - cbn. destruct (Ascii.eqb_spec c ":"); done.
  - inversion IH as [|? ? Hp Hr]; subst. constructor; [|done].
    cbn. destruct (Ascii.eqb_spec c ":"); done.
Qed.

End StringFacts.

(* ------------------------------------------------------------------ *)
(** ** The stealth address strings of the hooks                        *)
(* ------------------------------------------------------------------ *)

Module StealthFacts.
Import Js MetaAddress MetaAddressFacts StringFacts Stealth.

Lemma split_three t c sk vk :
  split ":" t = [c; sk; vk] <->
  t = c ++ ":" ++ sk ++ ":" ++ vk
  /\ noColon c = true /\ noColon sk = true /\ noColon vk = true.
Proof.
  split.
  - intros E. pose proof (join_split t) as J. pose proof (split_segments t) as F.
    rewrite E in J, F. split; [by rewrite <- J|].
    inversion F as [|? ? H1 F1]; subst. inversion F1 as [|? ? H2 F2]; subst.
    inversion F2 as [|? ? H3 F3]; subst. done.
  - intros (-> & Hc & Hs & Hv).
    change (c ++ ":" ++ sk ++ ":" ++ vk) with (c ++ String ":" (sk ++ String ":" vk)).
    by rewrite (split_app_colon _ _ Hc), (split_app_colon _ _ Hs), (split_noColon _ Hv).
Qed.

(** X10.  [parseStealthAddressString] parses exactly the strings
    [formatStealthAddress] writes for fields without a colon, and gives the
    fields back: parsing is the inverse of formatting in both directions.
    (A field that holds a colon is not written in a form that parses to it;
    nothing else about the fields is checked, not even that the chain is
    known or that the keys are hex.) *)
Theorem parseStealthAddressString_formatStealthAddress
    (addressStr chain spendingKey viewingKey : string) :
  parseStealthAddressString addressStr = Some (mkParsed chain spendingKey viewingKey)
  <-> addressStr = formattedFull (formatStealthAddress chain spendingKey viewingKey)
      /\ noColon chain = true /\ noColon spendingKey = true /\ noColon viewingKey = true.
Proof.
  unfold parseStealthAddressString, formatStealthAddress. cbn [formattedFull]. split.
  - destruct (startsWith STEALTH_PREFIX addressStr) eqn:P; cbn [negb]; [|done].
    destruct (split _ _) as [|c [|sk [|vk [|]]]] eqn:E; try done.
    intros [= -> -> ->]. apply split_three in E as (E & H).
    split; [|done]. rewrite (startsWith_sliceFrom _ _ P) at 1. by rewrite E.
  - intros (-> & H). rewrite startsWith_append. cbn [negb].
    rewrite sliceFrom_append. by rewrite (proj2 (split_three _ _ _ _) (conj eq_refl H)).
Qed.

(** X11.  The send hook and the stealth hook agree on stealth addresses: the
    validator of useSend.ts accepts an address exactly when the parser of the
    stealth hook parses it into a supported chain and two hex keys, and the
    chain it reports is then the one [getChainFromAddress] gives. *)
Theorem validateStealthAddress_parses (address : string) :
  (isValid (MetaAddress.validateStealthAddress address) = true
   <-> exists parsed,
         parseStealthAddressString address = Some parsed
         /\ includes supportedChains (parsedChain parsed) = true
         /\ hexRegex (parsedSpendingKey parsed) = true
         /\ hexRegex (parsedViewingKey parsed) = true)
  /\ (isValid (MetaAddress.validateStealthAddress address) = true ->
      MetaAddress.chain (MetaAddress.validateStealthAddress address)
      = getChainFromAddress address).
Proof.
  unfold MetaAddress.validateStealthAddress, getChainFromAddress,
    parseStealthAddressString, STEALTH_PREFIX, MetaAddress.STEALTH_PREFIX.
  destruct (startsWith "sip:" address); cbn [negb].
  2:{ split; [|done]. split; [done|]. by intros (? & ? & _). }
  destruct (split _ _) as [|c [|sk [|vk [|]]]];
    try (split; [|done]; split; [done|]; by intros (? & ? & _)).
  destruct (includes supportedChains c) eqn:I; cbn [negb].
  2:{ split; [|done]. split; [done|]. intros (? & [= <-] & H & _). cbn [parsedChain parsedSpendingKey parsedViewingKey] in H. congruence. }
  destruct (hexRegex sk) eqn:Hs; cbn [negb orb].
  2:{ split; [|done]. split; [done|]. intros (? & [= <-] & _ & H & _). cbn [parsedChain parsedSpendingKey parsedViewingKey] in H. congruence. }
  destruct (hexRegex vk) eqn:Hv; cbn [negb].
  2:{ split; [|done]. split; [done|]. intros (? & [= <-] & _ & _ & H). cbn [parsedChain parsedSpendingKey parsedViewingKey] in H. congruence. }
  split; [|done]. split; [|done]. intros _. by eexists.
Qed.

(** X12.  [truncateKey] returns a key of at most [startChars + endChars + 3]
    characters as it is.  A longer key is cut to its first [startChars]
    characters, three dots and its last [endChars] characters, which is
    shorter than the key, when [endChars] is not 0; with [endChars = 0] the
    tail [key.slice(-0)] is the whole key, so the result is the head, the
    dots and then the complete key, longer than the key itself. *)
Theorem truncateKey_spec (key : string) (startChars endChars : nat) :
  (String.length key <= startChars + endChars + 3 ->
   truncateKey key startChars endChars = key)
  /\ (startChars + endChars + 3 < String.length key -> 0 < endChars ->
      truncateKey key startChars endChars
      = sliceTo startChars key ++ "..." ++ sliceFrom (String.length key - endChars) key
      /\ String.length (truncateKey key startChars endChars) = startChars + 3 + endChars
      /\ String.length (truncateKey key startChars endChars) < String.length key)
  /\ (startChars + 3 < String.length key ->
      truncateKey key startChars 0 = sliceTo startChars key ++ "..." ++ key
      /\ String.length key < String.length (truncateKey key startChars 0)).
Proof.
  unfold truncateKey, sliceLast. split; [|split].
  - intros H. by destruct (Nat.leb_spec (String.length key) (startChars + endChars + 3)); [|lia].
  - intros H He.
    destruct (Nat.leb_spec (String.length key) (startChars + endChars + 3)); [lia|].
    destruct (Nat.eqb_spec endChars 0); [lia|]. split; [done|].
    rewrite !length_append, length_sliceTo, length_sliceFrom. cbn. lia.
  - intros H. rewrite Nat.add_0_r.
    destruct (Nat.leb_spec (String.length key) (startChars + 3)); [lia|].
    cbn [Nat.eqb]. split; [done|].
    rewrite !length_append, length_sliceTo. cbn. lia.
Qed.

End StealthFacts.

(* ------------------------------------------------------------------ *)
(** ** The security utilities                                          *)
(* ------------------------------------------------------------------ *)

Module SecurityFacts.
Import Js MetaAddressFacts StringFacts Security.

(** *** Sanitizing and masking *)

Lemma removeAngleBrackets_spec s :
  allChars noAngleBracket (removeAngleBrackets s) = true
  /\ String.length (removeAngleBrackets s) <= String.length s.
Proof.
  induction s as [|c s [IH1 IH2]]; [done|]. cbn [removeAngleBrackets].
  destruct (_ || _) eqn:E; cbn [allChars String.length]; [split; [done|lia]|].
  unfold noAngleBracket at 1. rewrite E, IH1. split; [done|lia].
Qed.

(** Dropping matches keeps what holds of every character, and adds none. *)
Lemma removeMatches_spec matchAt p s skip :
  (allChars p s = true -> allChars p (removeMatches matchAt skip s) = true)
  /\ String.length (removeMatches matchAt skip s) <= String.length s.
Proof.
  revert skip. induction s as [|c s IH]; intros skip; [done|].
  cbn [removeMatches allChars String.length].
  destruct skip as [|k].
  - destruct (matchAt (String c s)) as [[|k]|].
    + destruct (IH 0) as [H1 H2]. cbn [allChars String.length].
      split; [intros [-> H]%andb_true_iff; by rewrite H1|lia].
    + destruct (IH k) as [H1 H2].
      split; [intros [_ H]%andb_true_iff; by apply H1|lia].
    + destruct (IH 0) as [H1 H2]. cbn [allChars String.length].
      split; [intros [-> H]%andb_true_iff; by rewrite H1|lia].
  - destruct (IH k) as [H1 H2].
    split; [intros [_ H]%andb_true_iff; by apply H1|lia].
Qed.

Lemma trimStart_spec p s :
  (allChars p s = true -> allChars p (trimStart s) = true)
  /\ String.length (trimStart s) <= String.length s.
Proof.
  induction s as [|c s [IH1 IH2]]; [done|]. cbn [trimStart].
  destruct (isWhiteSpace c); [|done]. cbn [allChars String.length].
  split; [intros [_ H]%andb_true_iff; by apply IH1|lia].
Qed.

Lemma trimEnd_spec p s :
  (allChars p s = true -> allChars p (trimEnd s) = true)
  /\ String.length (trimEnd s) <= String.length s.
Proof.
  induction s as [|c s [IH1 IH2]]; [done|]. cbn [trimEnd].
  destruct (trimEnd s) as [|c' s'] eqn:E.
  - destruct (isWhiteSpace c); cbn [allChars String.length]; (split; [|lia]); [done|].
    intros [-> _]%andb_true_iff. done.
  - cbn [allChars String.length] in *.
    split; [intros [-> H]%andb_true_iff; by rewrite IH1|lia].
Qed.

Lemma trim_spec p s :
  (allChars p s = true -> allChars p (trim s) = true)
  /\ String.length (trim s) <= String.length s.
Proof.
  unfold trim. destruct (trimStart_spec p s) as [S1 S2].
  destruct (trimEnd_spec p (trimStart s)) as [E1 E2]. split; [auto|lia].
Qed.

(** The vectors of the tests of [sanitizeInput] and [maskSensitiveData]. *)
Example sanitize_mask_vectors :
  sanitizeInput "<script>alert(1)</script>" = "scriptalert(1)/script"
  /\ sanitizeInput "javascript:alert(1)" = "alert(1)"
  /\ sanitizeInput "onclick=alert(1)" = "alert(1)"
  /\ sanitizeInput "onload=evil()" = "evil()"
  /\ sanitizeInput "  hello  " = "hello"
  /\ sanitizeInput "Hello World 123" = "Hello World 123"
  /\ maskSensitiveData "1234567890ABCDEF" 4 = "1234...CDEF"
  /\ maskSensitiveData "short" 4 = "***"
  /\ maskSensitiveData "1234567890ABCDEF" 2 = "12...EF".
Proof. repeat split; vm_compute; reflexivity. Qed.

(** X16.  Whatever the input, the output of [sanitizeInput] holds no angle
    bracket, has no white space at either end (trimming it again changes
    nothing), and is not longer than the input.  The two pattern removals
    are one pass each, though: what is left can spell the removed pattern
    again, so the output may still start with [javascript:]. *)
Theorem sanitizeInput_spec (input : string) :
  allChars noAngleBracket (sanitizeInput input) = true
  /\ trim (sanitizeInput input) = sanitizeInput input
  /\ String.length (sanitizeInput input) <= String.length input
  /\ sanitizeInput "javajavascript:script:alert(1)" = "javascript:alert(1)".
Proof.
  unfold sanitizeInput.
  destruct (removeAngleBrackets_spec input) as [A1 A2].
  set (a := removeAngleBrackets input) in *.
  destruct (removeMatches_spec matchJavascript noAngleBracket a 0) as [J1 J2].
  set (j := removeMatches matchJavascript 0 a) in *.
  destruct (removeMatches_spec matchHandler noAngleBracket j 0) as [H1 H2].
  set (h := removeMatches matchHandler 0 j) in *.
  destruct (trim_spec noAngleBracket h) as [T1 T2].
  split; [auto|]. split; [apply MetaAddressFacts.trim_idem|]. split; [lia|].
  vm_compute. reflexivity.
Qed.

(** X17.  [maskSensitiveData] shows nothing of data of at most twice
    [visibleChars] characters.  Of longer data it shows the first and the
    last [visibleChars] characters around three dots, and hides at least one
    character, provided [visibleChars] is not 0.  With [visibleChars = 0]
    the tail [data.slice(-0)] is all of the data: every non-empty secret is
    returned in full behind the dots. *)
Theorem maskSensitiveData_spec (data : string) (visibleChars : nat) :
  (String.length data <= visibleChars * 2 -> maskSensitiveData data visibleChars = "***")
  /\ (visibleChars * 2 < String.length data -> 0 < visibleChars ->
      maskSensitiveData data visibleChars
      = sliceTo visibleChars data ++ "..."
        ++ sliceFrom (String.length data - visibleChars) data
      /\ String.length (sliceTo visibleChars data) = visibleChars
      /\ String.length (sliceFrom (String.length data - visibleChars) data) = visibleChars
      /\ String.length (maskSensitiveData data visibleChars) = 2 * visibleChars + 3)
  /\ (data <> "" -> maskSensitiveData data 0 = "..." ++ data).
Proof.
  unfold maskSensitiveData, sliceLast. split; [|split].
  - intros H. by destruct (Nat.leb_spec (String.length data) (visibleChars * 2)); [|lia].
  - intros H Hv.
    destruct (Nat.leb_spec (String.length data) (visibleChars * 2)); [lia|].
    destruct (Nat.eqb_spec visibleChars 0); [lia|]. split; [done|].
    rewrite !length_append, length_sliceTo, length_sliceFrom. cbn. lia.
  - intros H. destruct data as [|c data]; [done|]. reflexivity.
Qed.

(** *** Rate limiting and the session clock *)

Section RateLimit.
Local Open Scope list_scope.
Local Open Scope Z_scope.

(** The state of an action inside its window: [k] of [quota] attempts used. *)
Lemma attempts_within action maxAttempts windowMs first times m k :
  rateLimitMap m !! action = Some (mkEntry (Z.min k (Z.max 1 maxAttempts)) first) ->
  1 <= k ->
  Forall (fun now => now - first <= windowMs) times ->
  fst (attempts action maxAttempts windowMs times m)
  = imap (fun i _ => bool_decide (Z.max 1 maxAttempts <= k + Z.of_nat i)) times.
Proof.
  revert m k. induction times as [|now later IH]; intros m k Hm Hk Hw; [done|].
  inversion Hw as [|? ? Hnow Hlater]; subst.
  cbn [attempts imap]. unfold isRateLimited at 1. rewrite Hm. cbn [firstAttempt count].
  destruct (Z.ltb_spec windowMs (now - first)) as [?|_]; [lia|].
  destruct (Z.leb_spec maxAttempts (Z.min k (Z.max 1 maxAttempts))) as [Hfull|Hroom].
  - assert (Hm' : rateLimitMap m !! action
                  = Some (mkEntry (Z.min (k + 1) (Z.max 1 maxAttempts)) first)).
    { rewrite Hm. do 2 f_equal. lia. }
    specialize (IH m (k + 1) Hm' ltac:(lia) Hlater).
    destruct (attempts _ _ _ later m) as [answers m'] eqn:E. cbn [fst] in *.
    rewrite IH. f_equal.
    + rewrite bool_decide_eq_true_2; [done|]. lia.
    + apply imap_ext. intros i ? _. cbn. apply bool_decide_ext. lia.
  - match goal with |- context [attempts _ _ _ later ?m1] => set (m' := m1) end.
    assert (Hm' : rateLimitMap m' !! action
                  = Some (mkEntry (Z.min (k + 1) (Z.max 1 maxAttempts)) first)).
    { subst m'. cbn [rateLimitMap]. rewrite lookup_insert_eq. do 2 f_equal. lia. }
    specialize (IH m' (k + 1) Hm' ltac:(lia) Hlater).
    destruct (attempts _ _ _ later m') as [answers m''] eqn:E. cbn [fst] in *.
    rewrite IH. f_equal.
    + rewrite bool_decide_eq_false_2; [done|]. lia.
    + apply imap_ext. intros i ? _. cbn. apply bool_decide_ext. lia.
Qed.

(** X13.  The quota of a window.  For an action without an entry, a series
    of calls of [isRateLimited] that all fall within [windowMs] of the first
    one is answered "not limited" for its first [max(1, maxAttempts)] calls
    and "limited" for all later ones: exactly [maxAttempts] attempts pass
    per window, except that the first call always passes, even with
    [maxAttempts] 0 or negative. *)
Theorem isRateLimited_quota (action : string) (maxAttempts windowMs : Z)
    (first : Z) (later : list Z) (m : Memory) :
  rateLimitMap m !! action = None ->
  Forall (fun now => now - first <= windowMs) later ->
  fst (attempts action maxAttempts windowMs (first :: later) m)
  = imap (fun i _ => bool_decide (Z.max 1 maxAttempts <= Z.of_nat i)) (first :: later).
Proof.
  intros Hm Hw. cbn [attempts imap]. unfold isRateLimited at 1. rewrite Hm.
  match goal with |- context [attempts _ _ _ later ?m1] => set (m' := m1) end.
  pose proof (attempts_within action maxAttempts windowMs first later m' 1) as H.
  destruct (attempts _ _ _ later m') as [answers m''] eqn:E. cbn [fst] in *.
  rewrite H; [| subst m'; cbn [rateLimitMap]; rewrite lookup_insert_eq; do 2 f_equal; lia
              | lia | done].
  f_equal.
  - rewrite bool_decide_eq_false_2; [done|]. lia.
  - apply imap_ext. intros i ? _. cbn. apply bool_decide_ext. lia.
Qed.

(** X14.  A refused attempt.  When [isRateLimited] answers "limited", it
    has changed nothing; the action has an entry that has used up
    [maxAttempts] and whose window has not expired.  The action then stays
    limited, call after call, for as long as the clock is within the window,
    and [getRateLimitRemaining] is positive during that time except at the
    very last instant of the window, where it is already 0.  The first call
    after the window, and any call after [resetRateLimit], passes. *)
Theorem isRateLimited_refused (action : string) (maxAttempts windowMs now : Z)
    (m : Memory) :
  fst (isRateLimited action maxAttempts windowMs now m) = true ->
  snd (isRateLimited action maxAttempts windowMs now m) = m
  /\ exists entry,
       rateLimitMap m !! action = Some entry
       /\ maxAttempts <= count entry
       /\ now - firstAttempt entry <= windowMs
       /\ (forall later, later - firstAttempt entry <= windowMs ->
           isRateLimited action maxAttempts windowMs later m = (true, m))
       /\ (forall later, later - firstAttempt entry < windowMs <->
           0 < getRateLimitRemaining action windowMs later m)
       /\ (forall later, windowMs < later - firstAttempt entry ->
           isRateLimited action maxAttempts windowMs later m
           = (false, mkMemory (<[action := mkEntry 1 later]> (rateLimitMap m))
                       (lastActivityTimestamp m)))
       /\ (forall later,
           fst (isRateLimited action maxAttempts windowMs later (resetRateLimit action m))
           = false).
Proof.
  unfold isRateLimited at 1 2.
  destruct (rateLimitMap m !! action) as [entry|] eqn:E; [|done].
  destruct (Z.ltb_spec windowMs (now - firstAttempt entry)) as [?|Hw]; [done|].
  destruct (Z.leb_spec maxAttempts (count entry)) as [Hc|?]; [|done].
  intros _. split; [done|]. exists entry. repeat split; try done.
  - intros later H. unfold isRateLimited. rewrite E.
    destruct (Z.ltb_spec windowMs (later - firstAttempt entry)); [lia|].
    by destruct (Z.leb_spec maxAttempts (count entry)); [|lia].
  - unfold getRateLimitRemaining. rewrite E. cbv zeta.
    destruct (Z.ltb_spec 0 (windowMs - (later - firstAttempt entry))); lia.
  - unfold getRateLimitRemaining. rewrite E. cbv zeta.
    destruct (Z.ltb_spec 0 (windowMs - (later - firstAttempt entry))); lia.
  - intros later H. unfold isRateLimited. rewrite E.
    by destruct (Z.ltb_spec windowMs (later - firstAttempt entry)); [|lia].
  - intros later. unfold isRateLimited, resetRateLimit. cbn [rateLimitMap].
    by rewrite lookup_delete_eq.
Qed.

(** X15.  The session clock.  The remaining time is never negative, and it
    is 0 exactly from the instant [timeoutMs] after the last activity on;
    the session counts as expired only strictly after that instant, so at
    the instant itself nothing remains of a session that is not expired
    yet.  Right after [updateActivity] the session is not expired and the
    whole timeout remains (for a timeout that is not negative).  After
    [clearSensitiveMemory] no action has a rate-limit entry and the session
    is expired as soon as the clock exceeds the timeout.  Rate limiting
    never touches the session clock, nor the entries of other actions. *)
Theorem session_clock (timeoutMs now : Z) (m : Memory) :
  0 <= getSessionRemaining timeoutMs now m
  /\ (getSessionRemaining timeoutMs now m = 0
      <-> timeoutMs <= now - lastActivityTimestamp m)
  /\ (isSessionExpired timeoutMs now m = true
      <-> timeoutMs < now - lastActivityTimestamp m)
  /\ (0 <= timeoutMs ->
      isSessionExpired timeoutMs now (updateActivity now m) = false
      /\ getSessionRemaining timeoutMs now (updateActivity now m) = timeoutMs)
  /\ (isSessionExpired timeoutMs now (clearSensitiveMemory m) = true <-> timeoutMs < now)
  /\ (forall action maxAttempts windowMs,
        fst (isRateLimited action maxAttempts windowMs now (clearSensitiveMemory m))
        = false)
  /\ (forall action maxAttempts windowMs at_,
        let m' := snd (isRateLimited action maxAttempts windowMs at_ m) in
        lastActivityTimestamp m' = lastActivityTimestamp m
        /\ forall other, other <> action ->
             rateLimitMap m' !! other = rateLimitMap m !! other).
Proof.
  assert (Hframe : forall action maxAttempts windowMs at_,
            lastActivityTimestamp (snd (isRateLimited action maxAttempts windowMs at_ m))
            = lastActivityTimestamp m
            /\ forall other, other <> action ->
                 rateLimitMap (snd (isRateLimited action maxAttempts windowMs at_ m)) !! other
                 = rateLimitMap m !! other).
  { intros action maxAttempts windowMs at_. unfold isRateLimited.
    destruct (rateLimitMap m !! action) as [entry|];
      [destruct (_ <? _); [|destruct (_ <=? _)]|]; cbn [snd rateLimitMap lastActivityTimestamp];
      (split; [done|]); intros other Ho; by rewrite ?lookup_insert_ne. }
  unfold getSessionRemaining, isSessionExpired, updateActivity, clearSensitiveMemory.
  cbn [lastActivityTimestamp]. cbv zeta.
  split; [destruct (Z.ltb_spec 0 (timeoutMs - (now - lastActivityTimestamp m))); lia|].
  split; [destruct (Z.ltb_spec 0 (timeoutMs - (now - lastActivityTimestamp m))); lia|].
  split; [apply Z.ltb_lt|].
  split.
  { intros H. destruct (Z.ltb_spec timeoutMs (now - now)); [lia|].
    destruct (Z.ltb_spec 0 (timeoutMs - (now - now))); [lia|]. split; [done|lia]. }
  split; [rewrite Z.ltb_lt; lia|].
  split; [|exact Hframe].
  intros. unfold isRateLimited. cbn [rateLimitMap]. by rewrite lookup_empty.
Qed.


Lemma isRateLimited_quota_witness :
  fst (attempts "pin" 3 60000 [1000; 1001; 1002; 1003; 1004] (mkMemory ∅ 0))
  = [false; false; false; true; true].
Proof.
  apply (isRateLimited_quota "pin" 3 60000 1000 [1001; 1002; 1003; 1004] (mkMemory ∅ 0)).
  - reflexivity.
  - repeat constructor; lia.
Defined.

Lemma isRateLimited_refused_witness :
  snd (isRateLimited "pin" 1 60000 2000
         (mkMemory {[ "pin" := mkEntry 1 1000 ]} 0))
  = mkMemory {[ "pin" := mkEntry 1 1000 ]} 0.
Proof.
  apply (isRateLimited_refused "pin" 1 60000 2000
           (mkMemory {[ "pin" := mkEntry 1 1000 ]} 0)).
  vm_compute. reflexivity.
Defined.

End RateLimit.

End SecurityFacts.

(* ------------------------------------------------------------------ *)
(** ** PIN and biometric checks                                        *)
(* ------------------------------------------------------------------ *)

Module BiometricsFacts.
Import Js Security Biometrics.
Local Open Scope list_scope.

(** X18.  [setPin] accepts exactly the PINs [isValidPin] of the security
    utilities accepts.  A PIN that is not valid is refused with one of the
    two validation errors before anything is hashed or stored; a valid PIN
    is hashed with the hook's salt, and when the digest comes back the store
    receives the hash, the PIN is enabled and the attempts are reset, in this
    order (a failing digest is rethrown and nothing is stored). *)
Theorem setPin_isValidPin (digestStringAsync : string -> outcome string) (pin : string) :
  (isValidPin pin = false ->
   setPin digestStringAsync pin = (Thrown (Error "PIN must be 4-6 digits"), [])
   \/ setPin digestStringAsync pin = (Thrown (Error "PIN must contain only numbers"), []))
  /\ (isValidPin pin = true ->
      setPin digestStringAsync pin
      = match digestStringAsync (pin +:+ "sip-salt-v1") with
        | Returned hash =>
            (Returned tt,
             [Digest (pin +:+ "sip-salt-v1"); SetPinHash (Some hash); SetPinEnabled true;
              ResetPinAttempts])
        | Thrown err => (Thrown err, [Digest (pin +:+ "sip-salt-v1")])
        end).
Proof.
  unfold isValidPin, setPin, hashPin.
  destruct (Nat.leb_spec 4 (String.length pin)) as [H4|H4];
    destruct (Nat.ltb_spec (String.length pin) 4) as [L4|L4]; try lia;
    destruct (Nat.leb_spec (String.length pin) 6) as [H6|H6];
    destruct (Nat.ltb_spec 6 (String.length pin)) as [L6|L6]; try lia;
    cbn [andb orb]; try (split; [by left|done]).
  destruct (String.eqb_spec pin "") as [->|Hne]; [cbn in H4; lia|]. cbn [negb andb].
  destruct (allChars isDigit pin); cbn [negb].
  - split; [done|]. intros _. by destruct (digestStringAsync _).
  - split; [by right|done].
Qed.

(** X19.  [verifyPin] while the PIN is locked answers with the lockout
    message and does nothing else: no digest is asked for and the store is
    not touched, whatever the PIN.  It succeeds exactly when the PIN is not
    locked, is enabled, and the digest of the entered PIN with the hook's
    salt is the stored hash; only then is the store told to authenticate
    (after resetting the attempts).  A digest that differs from the stored
    hash costs one attempt and never authenticates. *)
Theorem verifyPin_spec (digestStringAsync : string -> outcome string) (store : Store)
    (now1 now2 : Z) (pin : string) :
  let run := verifyPin digestStringAsync store now1 now2 pin in
  (isPinLocked store now1 = true ->
   exists msg, run = (Returned (AuthFailed msg false), []))
  /\ (fst run = Returned AuthOk
      <-> isPinLocked store now1 = false
          /\ pinEnabled store = true
          /\ exists stored, pinHash store = Some stored /\ stored <> ""
               /\ digestStringAsync (pin +:+ "sip-salt-v1") = Returned stored)
  /\ (StoreAuthenticate ∈ snd run <-> fst run = Returned AuthOk)
  /\ (fst run = Returned AuthOk ->
      snd run = [Digest (pin +:+ "sip-salt-v1"); ResetPinAttempts; StoreAuthenticate])
  /\ (forall stored hash,
        isPinLocked store now1 = false -> pinEnabled store = true ->
        pinHash store = Some stored -> stored <> "" ->
        digestStringAsync (pin +:+ "sip-salt-v1") = Returned hash -> hash <> stored ->
        snd run = [Digest (pin +:+ "sip-salt-v1"); IncrementPinAttempts]
        /\ exists msg, fst run = Returned (AuthFailed msg false)).
Proof.
  cbv zeta. unfold verifyPin, hashPin.
  destruct (isPinLocked store now1).
  { split; [intros _; by eexists|]. cbn [fst snd].
    split; [split; [done|by intros [? _]]|].
    split; [split; [by intros ?%elem_of_nil|done]|]. split; done. }
  split; [done|].
  destruct (pinEnabled store).
  2:{ cbn [fst snd]. split; [split; [done|by intros (_ & ? & _)]|].
      split; [split; [by intros ?%elem_of_nil|done]|]. split; done. }
  destruct (pinHash store) as [stored|].
  2:{ cbn [fst snd]. split; [split; [done|by intros (_ & _ & ? & ? & _)]|].
      split; [split; [by intros ?%elem_of_nil|done]|]. split; done. }
  destruct (String.eqb_spec stored "") as [->|Hs].
  { cbn [fst snd]. split; [split; [done|by intros (_ & _ & ? & [= <-] & ? & _)]|].
    split; [split; [by intros ?%elem_of_nil|done]|]. split; [done|].
    by intros ? ? _ _ [= <-] ?. }
  destruct (digestStringAsync _) as [hash|err] eqn:D.
  2:{ cbn [fst snd]. split; [split; [done|by intros (_ & _ & ? & _ & _ & ?)]|].
      split; [split; [by intros ?%list_elem_of_singleton|done]|]. split; done. }
  destruct (String.eqb_spec hash stored) as [->|Hh]; cbn [fst snd app].
  - split; [split; [intros _|done]|].
    { repeat split. by exists stored. }
    split; [split; [done|intros _; set_solver]|]. split; [done|].
    by intros ? ? _ _ [= <-] _ [= <-] ?.
  - split; [split; [done|]|].
    { intros (_ & _ & ? & [= <-] & _ & [= ?]). done. }
    split; [split; [|done]|].
    { intros H. apply elem_of_cons in H as [H|H]; [done|].
      by apply list_elem_of_singleton in H. }
    split; [done|]. intros ? ? _ _ _ _ _ _. split; [done|]. by eexists.
Qed.

(** X20.  [authenticateForOperation] passes without showing a prompt when
    the operation does not require biometrics, when biometrics are disabled
    or when the user is already authenticated.  Otherwise it shows at most
    one prompt, and none when the capabilities are unknown, unavailable or
    not enrolled.  The store is told to authenticate exactly when a prompt
    was shown and succeeded, and that is the only case besides the passes
    in which the result is a success. *)
Theorem authenticateForOperation_spec (authenticateAsync : string -> outcome PromptResult)
    (store : Store) (capabilities : option Capabilities) (operation : Operation)
    (reason : option string) :
  let run := authenticateForOperation authenticateAsync store capabilities operation reason in
  let required :=
    match operation with
    | OpSend => requireBiometricsForSend store
    | OpClaim => requireBiometricsForClaim store
    | OpExport => requireBiometricsForExport store
    end in
  let pass := negb required || negb (biometricsEnabled store) || isAuthenticated store in
  (pass = true -> run = (AuthOk, []))
  /\ (pass = false ->
      (snd run = []
       \/ exists message,
            message <> ""
            /\ (snd run = [Prompt message]
                \/ snd run = [Prompt message; StoreAuthenticate]))
      /\ (snd run <> [] ->
          from_option isAvailable false capabilities = true
          /\ from_option isEnrolled false capabilities = true)
      /\ (isSuccess (fst run) = true <-> StoreAuthenticate ∈ snd run)
      /\ (StoreAuthenticate ∈ snd run <->
          exists message result,
            snd run = [Prompt message; StoreAuthenticate]
            /\ authenticateAsync message = Returned result
            /\ promptSuccess result = true)).
Proof.
  cbv zeta. unfold authenticateForOperation.
  set (required := match operation with
                   | OpSend => _ | OpClaim => _ | OpExport => _ end).
  set (message := match reason with Some r => _ | None => _ end).
  assert (Hm : message <> "").
  { subst message. destruct reason as [r|].
    - destruct (String.eqb_spec r ""); [by destruct operation|done].
    - by destruct operation. }
  destruct (negb required || negb (biometricsEnabled store)); cbn [orb]; [done|].
  destruct (isAuthenticated store); [done|]. split; [done|]. intros _.
  unfold authenticate.
  assert (Hn : StoreAuthenticate ∉ [Prompt message]).
  { intros H. apply list_elem_of_singleton in H. done. }
  destruct (from_option isAvailable false capabilities); cbn [negb orb].
  2:{ cbn [fst snd isSuccess]. split; [by left|]. split; [done|].
      split; [split; [done|by intros ?%elem_of_nil]|].
      split; [by intros ?%elem_of_nil|by intros (? & ? & ? & _)]. }
  destruct (from_option isEnrolled false capabilities); cbn [negb orb].
  2:{ cbn [fst snd isSuccess]. split; [by left|]. split; [done|].
      split; [split; [done|by intros ?%elem_of_nil]|].
      split; [by intros ?%elem_of_nil|by intros (? & ? & ? & _)]. }
  destruct (authenticateAsync message) as [result|err] eqn:A.
  - destruct (promptSuccess result) eqn:S.
    + cbn [fst snd isSuccess]. split.
      { right. exists message. split; [done|]. by right. }
      split; [done|]. split; [split; [intros _; set_solver|done]|].
      split; [intros _; by exists message, result|intros _; set_solver].
    + destruct (bool_decide _); cbn [fst snd isSuccess].
      all: split; [right; exists message; split; [done|]; by left|].
      all: split; [done|]. all: split; [done|].
      all: split; [done|by intros (? & ? & ? & _)].
  - cbn [fst snd isSuccess].
    split; [right; exists message; split; [done|]; by left|].
    split; [done|]. split; [done|].
    split; [done|by intros (? & ? & ? & _)].
Qed.

End BiometricsFacts.

(* ------------------------------------------------------------------ *)
(** ** Claiming what a scan found                                      *)
(* ------------------------------------------------------------------ *)

Module ClaimFacts.
Import Js MockRpc Claim.
Local Open Scope list_scope.

(** Closes a goal "refused with some message" once the message is known. *)
Local Ltac refused := eexists; split; [|reflexivity]; done.

(** A healthy client takes and confirms a submission. *)
Lemma submit_confirm draw mockRpc :
  shouldFail (config mockRpc) = false ->
  exists mockRpc1,
    sendTransaction draw mockRpc = (Returned (drawSignature draw), mockRpc1)
    /\ confirmTransaction (drawSignature draw) mockRpc1
       = (Returned None,
          mkClient (config mockRpc) (accounts mockRpc)
            (<[drawSignature draw := createMockTransaction draw Confirmed]>
               (transactions mockRpc))).
Proof.
  intros H. unfold sendTransaction, confirmTransaction, checkFailure.
  rewrite H. eexists. split; [reflexivity|]. cbn [config shouldFail]. rewrite H.
  cbn [transactions createMockTransaction signature]. rewrite lookup_insert_eq.
  cbn [signature slot blockTime config accounts]. by rewrite insert_insert_eq.
Qed.

(** A failing client takes nothing. *)
Lemma submit_fails draw mockRpc :
  shouldFail (config mockRpc) = true ->
  exists msg, msg <> ""
    /\ sendTransaction draw mockRpc = (Thrown (Error msg), mockRpc).
Proof.
  intros H. unfold sendTransaction, checkFailure. rewrite H.
  destruct (failureMessage _) as [m|]; [|by exists "RPC request failed"].
  destruct (String.eqb_spec m ""); [by exists "RPC request failed"|by exists m].
Qed.

Lemma executeClaimFlow_cases payment keys destinationAddress draw mockRpc :
  let run := executeClaimFlow (Some payment) (Some keys) destinationAddress draw mockRpc in
  if claimable payment && negb (shouldFail (config mockRpc)) then
    run = (mkRun ClaimConfirmed (mkResult true (Some (drawSignature draw)) None),
           mkClient (config mockRpc) (accounts mockRpc)
             (<[drawSignature draw := createMockTransaction draw Confirmed]>
                (transactions mockRpc)))
  else exists msg, msg <> "" /\ run = (failed msg, mockRpc).
Proof.
  cbv zeta. unfold claimable, executeClaimFlow.
  assert (R : forall msg, msg <> "" ->
            exists msg', msg' <> "" /\ (failed msg, mockRpc) = (failed msg', mockRpc))
    by (intros msg ?; by exists msg).
  destruct (claimed payment); cbn [negb andb]; [by apply R|].
  destruct (String.eqb (paymentType payment) "receive"); cbn [negb andb]; [|by apply R].
  destruct (String.eqb (paymentStatus payment) "completed"); cbn [negb andb];
    [|by apply R].
  destruct (from_option _ false _); cbn [negb andb]; [|by apply R].
  destruct (shouldFail (config mockRpc)) eqn:F; cbn [negb].
  - destruct (submit_fails draw mockRpc F) as (msg & Hm & ->). by apply R.
  - destruct (submit_confirm draw mockRpc F) as (m1 & -> & ->). done.
Qed.

(** Every way a claim can go: confirmed, with the submission recorded as
    confirmed, or refused with a message and the client untouched. *)
Lemma executeClaimFlow_run payment keys destinationAddress draw mockRpc :
  let run := executeClaimFlow payment keys destinationAddress draw mockRpc in
  (run = (mkRun ClaimConfirmed (mkResult true (Some (drawSignature draw)) None),
          mkClient (config mockRpc) (accounts mockRpc)
            (<[drawSignature draw := createMockTransaction draw Confirmed]>
               (transactions mockRpc)))
   /\ shouldFail (config mockRpc) = false
   /\ is_Some keys
   /\ exists p, payment = Some p /\ claimable p = true)
  \/ (exists msg, msg <> "" /\ run = (failed msg, mockRpc)).
Proof.
  cbv zeta. destruct payment as [p|]; [|right; refused].
  destruct keys as [k|].
  - pose proof (executeClaimFlow_cases p k destinationAddress draw mockRpc) as H.
    cbv zeta in H. destruct (claimable p) eqn:C; cbn [andb] in H; [|by right].
    destruct (shouldFail (config mockRpc)) eqn:F; cbn [negb] in H; [by right|].
    left. repeat split; try done. by exists p.
  - right. unfold executeClaimFlow.
    destruct (claimed p); [refused|].
    destruct (negb (String.eqb (paymentType p) "receive")); [refused|].
    destruct (negb (String.eqb (paymentStatus p) "completed")); refused.
Qed.

(** The verdict of a claim depends on the client through its configuration
    only. *)
Lemma executeClaimFlow_config payment keys destinationAddress draw mockRpc mockRpc2 :
  config mockRpc2 = config mockRpc ->
  fst (executeClaimFlow payment keys destinationAddress draw mockRpc2)
  = fst (executeClaimFlow payment keys destinationAddress draw mockRpc).
Proof.
  intros Hc.
  destruct (executeClaimFlow_run payment keys destinationAddress draw mockRpc)
    as [(-> & F & [k ->] & p & -> & C)|(msg & Hm & E)].
  - pose proof (executeClaimFlow_cases p k destinationAddress draw mockRpc2) as H.
    cbv zeta in H. rewrite C, Hc, F in H. cbn [andb negb] in H. by rewrite H.
  - rewrite E. cbn [fst].
    destruct (executeClaimFlow_run payment keys destinationAddress draw mockRpc2)
      as [(E2 & F & [k ->] & p & -> & C)|(msg2 & Hm2 & E2)].
    + pose proof (executeClaimFlow_cases p k destinationAddress draw mockRpc) as H.
      cbv zeta in H. rewrite C, <- Hc, F in H. cbn [andb negb] in H. rewrite H in E. done.
    + rewrite E2. cbn [fst]. revert E E2. unfold executeClaimFlow.
      destruct payment as [p|]; [|congruence].
      destruct (claimed p); [congruence|].
      destruct (negb (String.eqb (paymentType p) "receive")); [congruence|].
      destruct (negb (String.eqb (paymentStatus p) "completed")); [congruence|].
      destruct keys as [k|]; [|congruence].
      destruct (negb (from_option _ false _)); [congruence|].
      unfold sendTransaction, checkFailure. rewrite Hc.
      destruct (shouldFail (config mockRpc)) eqn:F; [congruence|].
      intros E. exfalso. revert E. unfold confirmTransaction, checkFailure.
      cbn [config]. rewrite F. done.
Qed.

Lemma executeClaimFlow_keeps payment keys destinationAddress draw mockRpc :
  let mockRpc' := snd (executeClaimFlow payment keys destinationAddress draw mockRpc) in
  config mockRpc' = config mockRpc
  /\ accounts mockRpc' = accounts mockRpc
  /\ (forall sig, confirmedIn mockRpc sig -> confirmedIn mockRpc' sig)
  /\ (forall sig,
        txHash (result (fst (executeClaimFlow payment keys destinationAddress draw mockRpc)))
        = Some sig ->
        confirmedIn mockRpc' sig).
Proof.
  cbv zeta.
  destruct (executeClaimFlow_run payment keys destinationAddress draw mockRpc)
    as [(-> & _)|(msg & _ & ->)]; cbn [fst snd config accounts result txHash].
  - split; [done|]. split; [done|]. split.
    + intros sig (tx & Ht & Hc). unfold confirmedIn. cbn [transactions].
      destruct (decide (sig = drawSignature draw)) as [->|Hs].
      * rewrite lookup_insert_eq. by eexists.
      * rewrite lookup_insert_ne by done. by exists tx.
    + intros sig [= <-]. unfold confirmedIn. cbn [transactions].
      rewrite lookup_insert_eq. by eexists.
  - unfold failed. cbn [result txHash]. done.
Qed.

Lemma multi_from i payments keys destinationAddress draws mockRpc :
  let run := executeMultiClaimFlowFrom i payments keys destinationAddress draws mockRpc in
  fst run
  = imap (fun j p =>
            result (fst (executeClaimFlow (Some p) keys destinationAddress
                           (draws (i + j)) mockRpc)))
         payments
  /\ config (snd run) = config mockRpc
  /\ accounts (snd run) = accounts mockRpc
  /\ (forall sig, confirmedIn mockRpc sig -> confirmedIn (snd run) sig)
  /\ (forall r sig, r ∈ fst run -> txHash r = Some sig -> confirmedIn (snd run) sig).
Proof.
  cbv zeta. revert i mockRpc. induction payments as [|p rest IH]; intros i mockRpc.
  { cbn. repeat split; try done. by intros ? ? ?%elem_of_nil. }
  cbn [executeMultiClaimFlowFrom imap].
  destruct (executeClaimFlow_keeps (Some p) keys destinationAddress (draws i) mockRpc)
    as (Kc & Ka & Kt & Kr).
  destruct (executeClaimFlow (Some p) keys destinationAddress (draws i) mockRpc)
    as [run m1] eqn:E1. cbn [fst snd] in *.
  destruct (IH (S i) m1) as (Ir & Ic & Ia & It & Is).
  destruct (executeMultiClaimFlowFrom (S i) rest keys destinationAddress draws m1)
    as [results m2] eqn:E2. cbn [fst snd] in *.
  split.
  { f_equal.
    - by rewrite Nat.add_0_r, E1.
    - rewrite Ir. apply imap_ext. intros j q _. unfold compose.
      rewrite (executeClaimFlow_config _ _ _ _ mockRpc m1 Kc).
      do 4 f_equal. lia. }
  split; [congruence|]. split; [congruence|]. split; [auto|].
  intros r sig [->|Hr]%elem_of_cons Hs; [auto|eauto].
Qed.

(** X22.  [executeMultiClaimFlow] returns one result per payment, in
    order, and each payment is judged as if it were claimed alone against
    the client as it was at the start: a refused or failed claim neither
    stops nor changes the claims after it.  The claims leave the
    configuration and the accounts of the client alone, and at the end the
    client holds a confirmed transaction under the hash of every successful
    result.  A success is possible only for a payment that [canClaim]
    accepts and that was received. *)
Theorem executeMultiClaimFlow_spec (payments : list PaymentRecord)
    (keys : option StealthKeys) (destinationAddress : string) (draws : nat -> Draw)
    (mockRpc : MockRpcClient) :
  let run := executeMultiClaimFlow payments keys destinationAddress draws mockRpc in
  length (fst run) = length payments
  /\ fst run
     = imap (fun i p =>
               result (fst (executeClaimFlow (Some p) keys destinationAddress (draws i)
                              mockRpc)))
            payments
  /\ config (snd run) = config mockRpc
  /\ accounts (snd run) = accounts mockRpc
  /\ (forall r, r ∈ fst run -> success r = true ->
      exists sig, txHash r = Some sig /\ confirmedIn (snd run) sig)
  /\ (forall i p r, payments !! i = Some p -> fst run !! i = Some r -> success r = true ->
      canClaim (paymentStatus p) (claimed p) = true /\ paymentType p = "receive").
Proof.
  cbv zeta. unfold executeMultiClaimFlow.
  destruct (multi_from 0 payments keys destinationAddress draws mockRpc)
    as (Hr & Hc & Ha & _ & Hs). cbv zeta in *. cbn [Nat.add] in Hr.
  split; [by rewrite Hr, length_imap|]. split; [exact Hr|].
  split; [done|]. split; [done|]. split.
  - intros r Hin Hok. pose proof Hin as Hin'. rewrite Hr in Hin'.
    apply elem_of_lookup_imap in Hin' as (i & p & Er & Hp).
    destruct (executeClaimFlow_run (Some p) keys destinationAddress (draws i) mockRpc)
      as [(E & _)|(msg & _ & E)]; rewrite E in Er; cbn [fst result] in Er; subst r;
      [|done].
    exists (drawSignature (draws i)). split; [done|]. by apply (Hs _ _ Hin).
  - intros i p r Hp Hi Hok. rewrite Hr, list_lookup_imap, Hp in Hi.
    cbn [fmap option_fmap option_map] in Hi. apply (inj Some) in Hi.
    cbv beta in Hi. rename Hi into Er.
    destruct (executeClaimFlow_run (Some p) keys destinationAddress (draws i) mockRpc)
      as [(E & _ & _ & q & [= <-] & C)|(msg & _ & E)]; rewrite E in Er;
      cbn [fst result] in Er; subst r; [|done].
    unfold claimable in C. unfold canClaim.
    destruct (claimed p); [done|].
    destruct (String.eqb_spec (paymentType p) "receive"); [|done].
    destruct (String.eqb (paymentStatus p) "completed"); done.
Qed.

End ClaimFacts.

(* ------------------------------------------------------------------ *)
(** ** From a scan to a claim                                          *)
(* ------------------------------------------------------------------ *)

Module ScanClaimFacts.
Import Js MetaAddress MetaAddressFacts StringFacts MockRpc.
Local Open Scope list_scope.

Section Found.
Context (generateMockAnnouncements : nat -> list nat -> list Scan.Announcement).

(** X21.  What a scan finds can be claimed.  Every payment in the result of
    [executeScanFlow] passes [canClaim] and all the checks of
    [executeClaimFlow]: with stealth keys and a mock RPC that does not fail,
    the claim is confirmed, its hash is the signature just drawn, and the
    client holds that transaction as confirmed; with a failing RPC the claim
    is refused with the failure message and the client holds nothing new. *)
Theorem executeClaimFlow_scanned (clock : nat -> Z) (keys : option Scan.StealthKeys)
    (existing : gset string) (options : Scan.Options) (payment : Scan.PaymentRecord)
    (claimKeys : Claim.StealthKeys) (destinationAddress : string) (draw : Draw)
    (mockRpc : MockRpcClient) :
  payment ∈ Scan.newPayments
              (Scan.result (Scan.executeScanFlow generateMockAnnouncements clock keys
                              existing options)) ->
  let run :=
    Claim.executeClaimFlow (Some (Claim.ofScan payment)) (Some claimKeys)
      destinationAddress draw mockRpc in
  Claim.canClaim (Scan.paymentStatus payment) (Scan.claimed payment) = true
  /\ (shouldFail (config mockRpc) = false ->
      fst run
      = Claim.mkRun Claim.ClaimConfirmed
          (Claim.mkResult true (Some (drawSignature draw)) None)
      /\ Claim.confirmedIn (snd run) (drawSignature draw))
  /\ (shouldFail (config mockRpc) = true ->
      snd run = mockRpc
      /\ exists msg, msg <> "" /\ fst run = Claim.failed msg).
Proof.
  intros (k & a & -> & Hf)%ScanFacts.newPayments_shape. cbv zeta.
  pose proof (ClaimFacts.executeClaimFlow_cases
                (Claim.ofScan (Scan.paymentFor clock k a)) claimKeys destinationAddress
                draw mockRpc) as H.
  cbv zeta in H.
  assert (C : Claim.claimable (Claim.ofScan (Scan.paymentFor clock k a)) = true).
  { unfold Claim.claimable, Claim.ofScan, Scan.paymentFor.
    cbn [Claim.claimed Claim.paymentType Claim.paymentStatus Claim.paymentStealthAddress
         Scan.claimed Scan.paymentType Scan.paymentStatus Scan.paymentStealthAddress
         negb andb from_option].
    change (("receive" =? "receive") && ("completed" =? "completed")) with true.
    cbn [andb]. apply andb_true_iff. split; [|apply (startsWith_append "sip:")].
    reflexivity. }
  rewrite C in H. cbn [andb] in H. split; [reflexivity|].
  destruct (shouldFail (config mockRpc)); cbn [negb] in H.
  - split; [done|]. intros _. destruct H as (msg & Hm & ->). split; [done|]. by exists msg.
  - split; [|done]. intros _. rewrite H. split; [done|].
    unfold Claim.confirmedIn. cbn [snd transactions]. rewrite lookup_insert_eq.
    by eexists.
Qed.

End Found.

(** X23.  The stealth address a scan writes into a payment is read back by
    [parsePaymentStealthAddress] of the claim hook: for an announcement whose
    ephemeral key holds no colon, the parsed ephemeral key is that key (with
    [0x] put in front when it lacks it), the address is the marker
    [derived], and the view tag is [parseInt] of the third and fourth
    character of the key in base 16, which is 2 for the keys [0x02...] the
    mock announcements carry. *)
Theorem parsePaymentStealthAddress_scanned (clock : nat -> Z) (k : nat)
    (announcement : Scan.Announcement) :
  noColon (Scan.ephemeralPubKey announcement) = true ->
  let key := Scan.ephemeralPubKey announcement in
  let parsed :=
    Claim.parsePaymentStealthAddress
      (Scan.paymentStealthAddress (Scan.paymentFor clock k announcement)) in
  parsed
  = Some (Claim.mkStealthAddress "derived"
            (if startsWith "0x" key then key else "0x" +:+ key)
            (parseInt16 (slice 2 4 key)))
  /\ (forall rest, key = "0x02" +:+ rest ->
      Claim.viewTag <$> parsed = Some (Integer 2)).
Proof.
  intros Hk. cbv zeta.
  assert (E : Claim.parsePaymentStealthAddress
                (Scan.paymentStealthAddress (Scan.paymentFor clock k announcement))
              = Some (Claim.mkStealthAddress "derived"
                        (if startsWith "0x" (Scan.ephemeralPubKey announcement)
                         then Scan.ephemeralPubKey announcement
                         else "0x" +:+ Scan.ephemeralPubKey announcement)
                        (parseInt16 (slice 2 4 (Scan.ephemeralPubKey announcement))))).
  { unfold Claim.parsePaymentStealthAddress, Scan.paymentFor.
    cbn [Scan.paymentStealthAddress].
    set (e := Scan.ephemeralPubKey announcement) in *.
    change ("sip:solana:" +:+ e +:+ ":derived")
      with ("sip:" +:+ ("solana" +:+ String ":" (e +:+ String ":" "derived"))).
    rewrite startsWith_append.
    change ("sip:" +:+ ?r) with ("sip" +:+ String ":" r).
    rewrite !split_app_colon by done. rewrite split_noColon by done.
    reflexivity. }
  split; [exact E|]. intros rest Hr. rewrite E. cbn [fmap option_fmap option_map Claim.viewTag].
  rewrite Hr. reflexivity.
Qed.


Lemma executeClaimFlow_scanned_witness :
  fst (Claim.executeClaimFlow
         (Some (Claim.ofScan
                  (Scan.paymentFor (fun _ => 1600000000000%Z) 1
                     (Scan.mkAnnouncement "ann_0" "0x02ab00" "MATCH" "1.0000" "SOL" 10
                        "ef0" true))))
         (Some Claim.MOCK_STEALTH_KEYS) "destination" Claim.sampleDraw MockRpc.mockRpc)
  = Claim.mkRun Claim.ClaimConfirmed (Claim.mkResult true (Some "5Sig") None).
Proof.
  refine (proj1 (proj1 (proj2
    (executeClaimFlow_scanned (fun _ _ => []) (fun _ => 1600000000000%Z)
       (Some Scan.sampleKeys) ∅ Scan.sampleOptions _ Claim.MOCK_STEALTH_KEYS
       "destination" Claim.sampleDraw MockRpc.mockRpc _)) eq_refl)).
  vm_compute. constructor.
Defined.

Lemma parsePaymentStealthAddress_scanned_witness :
  Claim.parsePaymentStealthAddress (Some "sip:solana:0x02ab00:derived")
  = Some (Claim.mkStealthAddress "derived" "0x02ab00" (Integer 2)).
Proof.
  exact (proj1 (parsePaymentStealthAddress_scanned (fun _ => 0%Z) 1
                  (Scan.mkAnnouncement "ann_0" "0x02ab00" "MATCH" "1.0000" "SOL" 10
                     "ef0" true) eq_refl)).
Defined.
End ScanClaimFacts.

(* ------------------------------------------------------------------ *)
(** ** Disclosures                                                     *)
(* ------------------------------------------------------------------ *)

Module ViewingKeysFacts.
Import Js ViewingKeys.
Local Open Scope list_scope.
Local Open Scope Z_scope.

(** With a clock that stands still the filters are plain filters. *)
Lemma filterAt_still {A} (keep : A -> Z -> bool) now (items : list A) :
  filterAt keep (fun _ => now) items = filter (fun x => keep x now = true) items.
Proof.
  unfold filterAt. generalize 0%nat.
  induction items as [|x items IH]; intros n; [done|].
  cbn [filterFrom]. rewrite filter_cons, IH.
  destruct (keep x now); [by rewrite decide_True|by rewrite decide_False].
Qed.

(** X24.  A validated disclosure is active.  When [validateDisclosureInput]
    accepts an input, its viewing key is not empty and its recipient and
    purpose are not blank; an expiry, if there is one, lies strictly after
    the time of the validation; and the disclosure [createDisclosure] makes
    from it, whenever it is made, is not revoked and is active at every
    instant up to and including its expiry (for ever when it has none), and
    expired from the next instant on. *)
Theorem validateDisclosureInput_active (input : DisclosureInput) (now : Z) :
  valid (validateDisclosureInput input now) = true ->
  inputViewingKey input <> ""
  /\ trim (inputRecipientName input) <> ""
  /\ trim (inputPurpose input) <> ""
  /\ error (validateDisclosureInput input now) = None
  /\ (forall expiry, inputExpiresAt input = Some expiry -> expiry = 0 \/ now < expiry)
  /\ (forall id created at_,
        isDisclosureActive (createDisclosure input id created) at_
        = (match inputExpiresAt input with
           | Some expiry => (expiry =? 0) || (at_ <=? expiry)
           | None => true
           end))
  /\ (forall id created at_, at_ <= now ->
        isDisclosureActive (createDisclosure input id created) at_ = true).
Proof.
  unfold validateDisclosureInput.
  destruct (String.eqb_spec (inputViewingKey input) "") as [?|Hk]; [done|].
  destruct (String.eqb (inputRecipientName input) ""); [done|]. cbn [orb].
  destruct (String.eqb_spec (trim (inputRecipientName input)) "") as [?|Hr]; [done|].
  destruct (String.eqb (inputPurpose input) ""); [done|]. cbn [orb].
  destruct (String.eqb_spec (trim (inputPurpose input)) "") as [?|Hp]; [done|].
  destruct (truthy (inputExpiresAt input) && _) eqn:He; [done|]. intros _.
  assert (A : forall id created at_,
             isDisclosureActive (createDisclosure input id created) at_
             = match inputExpiresAt input with
               | Some expiry => (expiry =? 0) || (at_ <=? expiry)
               | None => true
               end).
  { intros. unfold isDisclosureActive, isDisclosureExpired, createDisclosure, truthy.
    cbn [revoked expiresAt negb andb]. destruct (inputExpiresAt input) as [e|]; [|done].
    cbn [default]. destruct (Z.eqb_spec e 0); cbn [negb orb]; [done|].
    change (Datatypes.id e) with e.
    destruct (Z.ltb_spec e at_), (Z.leb_spec at_ e); try done; lia. }
  repeat split; try done.
  - intros e E. rewrite E in He. cbn in He.
    destruct (Z.eqb_spec e 0); [by left|]. cbn in He. right. lia.
  - intros. rewrite A. destruct (inputExpiresAt input) as [e|]; [|done].
    cbn in He. destruct (Z.eqb_spec e 0); [done|]. cbn in He |- *. lia.
Qed.

Lemma validateDisclosureInput_active_witness :
  isDisclosureActive
    (createDisclosure (mkInput "0xabcd" "Auditor" "Tax audit" (Some 2000)) "disc_1" 1500)
    1000 = true.
Proof.
  apply (validateDisclosureInput_active
           (mkInput "0xabcd" "Auditor" "Tax audit" (Some 2000)) 1000); [reflexivity|lia].
Defined.

(** X25.  At one instant the three views divide the disclosures: every
    disclosure is in exactly one of the active, the revoked and the expired
    ones, each view keeps the order of the list, and their lengths add up to
    the length of the list. *)
Theorem disclosures_partition (now : Z) (disclosures : list DisclosedKey) :
  let active := getActiveDisclosures (fun _ => now) disclosures in
  let revoked := getRevokedDisclosures disclosures in
  let expired := getExpiredDisclosures (fun _ => now) disclosures in
  (forall d, d ∈ disclosures <-> d ∈ active \/ d ∈ revoked \/ d ∈ expired)
  /\ (forall d, ~ (d ∈ active /\ d ∈ revoked))
  /\ (forall d, ~ (d ∈ active /\ d ∈ expired))
  /\ (forall d, ~ (d ∈ revoked /\ d ∈ expired))
  /\ active `sublist_of` disclosures
  /\ revoked `sublist_of` disclosures
  /\ expired `sublist_of` disclosures
  /\ (length active + length revoked + length expired = length disclosures)%nat.
Proof.
  cbv zeta. unfold getActiveDisclosures, getExpiredDisclosures, getRevokedDisclosures.
  rewrite !filterAt_still. unfold isDisclosureActive.
  split; [|split; [|split; [|split; [|split; [|split; [|split]]]]]].
  - intros d. rewrite !list_elem_of_filter. split; [|tauto]. intros H.
    destruct (ViewingKeys.revoked d), (isDisclosureExpired d now); cbn; tauto.
  - intros d. rewrite !list_elem_of_filter. intros [[H _] [H' _]]. rewrite H' in H. done.
  - intros d. rewrite !list_elem_of_filter. intros [[H _] [H' _]].
    destruct (ViewingKeys.revoked d), (isDisclosureExpired d now); done.
  - intros d. rewrite !list_elem_of_filter. intros [[H _] [H' _]]. rewrite H in H'. done.
  - apply sublist_filter.
  - apply sublist_filter.
  - apply sublist_filter.
  - induction disclosures as [|d rest IH]; [done|]. rewrite !filter_cons.
    destruct (ViewingKeys.revoked d), (isDisclosureExpired d now); cbn [negb andb];
      repeat case_decide; try done; cbn [length]; lia.
Qed.

End ViewingKeysFacts.

(* ------------------------------------------------------------------ *)
(** ** Scanning the generated announcements                            *)
(* ------------------------------------------------------------------ *)

Module GeneratedFacts.
Import Js Scan ScanFacts.
Local Open Scope list_scope.

Lemma fmap_imap_paymentFor clock n (ours : list Announcement) :
  txHash <$> imap (fun k => paymentFor clock (S (n + k))) ours
  = announcementTxHash <$> ours.
Proof.
  revert n. induction ours as [|a ours IH]; intros n; [done|].
  cbn [imap fmap list_fmap]. f_equal. rewrite <- (IH (S n)).
  f_equal. apply imap_ext. intros k b _. cbn. do 2 f_equal. lia.
Qed.

(** The fresh announcements among the generated ones, by their indices. *)
Lemma filter_generated draws existing indices count :
  filter (fun a => fresh existing a = true)
         (generateMockAnnouncements draws count indices)
  = (fun i => generateMockAnnouncement (draws i) i true)
    <$> filter (fun i => i ∈ indices /\ mockTxHash i ∉ existing) (seq 0 count).
Proof.
  unfold generateMockAnnouncements. generalize (seq 0 count) as l.
  induction l as [|i l IH]; [done|].
  cbn [map]. rewrite !filter_cons, IH.
  unfold fresh at 1, generateMockAnnouncement at 1.
  cbn [isOurs announcementTxHash]. fold (mockTxHash i).
  destruct (decide (i ∈ indices)) as [Hi|Hi];
    destruct (decide (mockTxHash i ∈ existing)) as [He|He];
    rewrite ?(bool_decide_eq_true_2 _ Hi), ?(bool_decide_eq_false_2 _ Hi),
      ?(bool_decide_eq_true_2 _ He), ?(bool_decide_eq_false_2 _ He);
    cbn [andb negb]; repeat case_decide; try done; tauto.
Qed.

Lemma filter_above (P : nat -> Prop) `{forall i, Decision (P i)} start len :
  (forall i, start <= i -> ~ P i) -> filter P (seq start len) = [].
Proof.
  revert start. induction len as [|len IH]; intros start Hp; [done|].
  cbn [seq]. rewrite filter_cons, decide_False by (apply Hp; lia).
  apply IH. intros i Hi. apply Hp. lia.
Qed.

(** The digits of indices in base 16, and two generated keys. *)
Example toString16_vectors :
  toString16 0 = "0" /\ toString16 10 = "a" /\ toString16 16 = "10"
  /\ toString16 99 = "63" /\ toString16 255 = "ff" /\ toString16 4096 = "1000"
  /\ ephemeralPubKey (generateMockAnnouncement (mkRandom 0 "1.0000" 0) 7 true)
     = "0x02" +:+ Js.repeat "ab" 31 +:+ "07"
  /\ announcementTxHash (generateMockAnnouncement (mkRandom 0 "1.0000" 0) 42 true)
     = Js.repeat "ef" 32 +:+ "42".
Proof. repeat split; vm_compute; reflexivity. Qed.

Section Generated.
Context (draws : nat -> Random).

(** X26.  A scan of the generated announcements.  Without given
    announcements and without a time filter, a scan with stealth keys reads
    [limit] generated announcements (100 when the limit is absent or 0) and
    finds those of the indices 2, 7, 15 and 42 that are below the limit and
    whose hash is not known, in this order; so a first scan of at least 43
    announcements, nothing being known, finds exactly four payments.  The
    hashes of the generated announcements differ from each other, and the
    ownership check of the scan hook ([stealthAddress === "MATCH"]) agrees
    with the flag [isOurs] on every generated announcement. *)
Theorem executeScanFlow_generated (clock : nat -> Z) (keys : StealthKeys)
    (existing : gset string) (limit : option nat) :
  let count := match limit with Some (S n) => S n | _ => 100 end in
  let run :=
    executeScanFlow (generateMockAnnouncements draws) clock (Some keys) existing
      (mkOptions limit None None) in
  let found_at :=
    filter (fun i => i ∈ [2; 7; 15; 42] /\ mockTxHash i ∉ existing) (seq 0 count) in
  scanned (result run) = count
  /\ found (result run) = length found_at
  /\ txHash <$> newPayments (result run) = mockTxHash <$> found_at
  /\ (existing = ∅ -> 43 <= count -> found_at = [2; 7; 15; 42])
  /\ (forall i j, mockTxHash i = mockTxHash j -> i = j)
  /\ Forall (fun a => ScanPayments.checkAnnouncementOwnership (stealthAddress a) true
                       = isOurs a)
        (generateMockAnnouncements draws count [2; 7; 15; 42]).
Proof.
  cbv zeta. set (count := match limit with Some (S n) => S n | _ => 100 end).
  assert (Hc : 0 < count) by (subst count; destruct limit as [[|n]|]; lia).
  unfold executeScanFlow. cbn [mockAnnouncements fromTimestamp Scan.limit]. fold count.
  assert (Hl : length (generateMockAnnouncements draws count [2; 7; 15; 42]) = count).
  { unfold generateMockAnnouncements. by rewrite length_map, length_seq. }
  rewrite Hl. destruct (Nat.eqb_spec count 0) as [?|_]; [lia|].
  cbn [result]. rewrite scanBatches_fold by lia.
  rewrite drop_0, fold_payments by done.
  cbn [found scanned newPayments errors app Nat.add]. rewrite Hl, filter_generated.
  split; [done|]. split; [by rewrite length_fmap|]. split.
  { rewrite (fmap_imap_paymentFor clock 0), <- list_fmap_compose. done. }
  split.
  { intros -> H43. replace count with (43 + (count - 43)) by lia.
    rewrite seq_app, filter_app. rewrite (filter_above _ (0 + 43)).
    - rewrite app_nil_r. vm_compute. reflexivity.
    - intros i Hi [Hin _]. cbn in Hi.
      repeat (apply elem_of_cons in Hin as [->|Hin]; [lia|]). by apply elem_of_nil in Hin. }
  split.
  { intros i j H. unfold mockTxHash in H. apply String.app_inj in H.
    by apply pretty_nat_inj in H. }
  unfold generateMockAnnouncements. apply Forall_fmap, Forall_forall. intros i _.
  cbn. unfold generateMockAnnouncement. cbn [stealthAddress isOurs].
  by destruct (bool_decide _).
Qed.

End Generated.

End GeneratedFacts.

(* ------------------------------------------------------------------ *)
(** ** The send flow against the validators of the hook                *)
(* ------------------------------------------------------------------ *)

Module SendFlowFacts.
Import Js MetaAddress MockRpc SendFlow.
Local Open Scope list_scope.

(** What the hook accepts as an amount passes the three tests of the flow. *)
Lemma validateAmount_flow parseFloat amount balance :
  Send.amountValid (Send.validateAmount parseFloat amount balance) = true ->
  is_nan (parseFloat amount) || (parseFloat amount <=? 0)%float = false
  /\ (balance <? parseFloat amount)%float = false
  /\ (parseFloat amount <? 0.001)%float = false.
Proof.
  unfold Send.validateAmount, Send.MIN_AMOUNT.
  destruct (_ || _); [done|].
  destruct (is_nan _); [done|].
  destruct (_ <=? 0)%float; [done|].
  destruct (balance <? _)%float; [done|].
  destruct (_ <? 0.001)%float; done.
Qed.

(** What the hook accepts as a recipient, once trimmed, passes the two
    tests of the flow. *)
Lemma validateAddress_flow recipient :
  isValid (validateAddress recipient) = true -> trim recipient = recipient ->
  String.eqb recipient "" || String.eqb (trim recipient) "" = false
  /\ negb (startsWith "sip:" recipient) && negb (SOLANA_ADDRESS_REGEX recipient) = false.
Proof.
  unfold validateAddress. intros H T. rewrite T in *.
  destruct (_ || _); [done|]. split; [done|].
  change STEALTH_PREFIX with "sip:" in H.
  destruct (startsWith "sip:" recipient); [done|]. cbn [negb andb].
  unfold validateSolanaAddress in H. by destruct (SOLANA_ADDRESS_REGEX recipient).
Qed.

Lemma trim_head c r : isWhiteSpace c = false -> trim (String c r) <> "".
Proof.
  intros H. unfold trim. cbn [trimStart]. rewrite H. cbn [trimEnd].
  destruct (trimEnd r); by rewrite ?H.
Qed.

(** X27.  The send flow of the end-to-end tests accepts what the hook
    accepts.  For a recipient without white space around it that
    [validateAddress] accepts and an amount that [validateAmount] accepts for
    the same balance, the flow reaches the signer; when the signer signs and
    the mock RPC does not fail, the flow is confirmed with the signature
    drawn, and the client holds that transaction as confirmed.  For every
    recipient and every amount, valid or not: whenever the flow does not
    confirm, it has submitted nothing, the client is unchanged; and a flow
    that confirms has an amount that is a number, greater than 0, within the
    balance and not below 0.001.  The flow is more liberal than the hook on
    one side: of a recipient that starts with [sip:] nothing else is looked
    at, so any two such recipients give the same run. *)
Theorem executeSendFlow_accepts (parseFloat : string -> float)
    (signTransaction : list byte -> outcome (option (list byte)))
    (params : SendParams) (walletAddress : string) (balance : float) (draw : Draw)
    (mockRpc : MockRpcClient) :
  let run :=
    executeSendFlow parseFloat signTransaction params walletAddress balance draw mockRpc in
  let confirmed sig := Returned (mkRun Send.Confirmed (Send.mkResult true (Some sig) None)) in
  (isValid (validateAddress (recipient params)) = true ->
   trim (recipient params) = recipient params ->
   Send.amountValid (Send.validateAmount parseFloat (amount params) balance) = true ->
   forall signedTx,
   signTransaction (replicate 512 x00) = Returned (Some signedTx) ->
   shouldFail (config mockRpc) = false ->
   fst run = confirmed (drawSignature draw)
   /\ Claim.confirmedIn (snd run) (drawSignature draw))
  /\ ((forall sig, fst run <> confirmed sig) -> snd run = mockRpc)
  /\ (forall sig, fst run = confirmed sig ->
      sig = drawSignature draw
      /\ Claim.confirmedIn (snd run) sig
      /\ is_nan (parseFloat (amount params)) = false
      /\ (parseFloat (amount params) <=? 0)%float = false
      /\ (balance <? parseFloat (amount params))%float = false
      /\ (parseFloat (amount params) <? 0.001)%float = false)
  /\ (forall rest rest',
        executeSendFlow parseFloat signTransaction
          (mkParams (amount params) ("sip:" +:+ rest) (privacyLevel params) (memo params))
          walletAddress balance draw mockRpc
        = executeSendFlow parseFloat signTransaction
            (mkParams (amount params) ("sip:" +:+ rest') (privacyLevel params)
               (memo params))
            walletAddress balance draw mockRpc).
Proof.
  cbv zeta. split; [|split; [|split]].
  - intros Hr Ht Ha signedTx Hs Hf.
    destruct (validateAddress_flow _ Hr Ht) as [R1 R2].
    destruct (validateAmount_flow _ _ _ Ha) as (A1 & A2 & A3).
    unfold executeSendFlow. rewrite R1, R2, A1, A2, A3, Hs.
    destruct (ClaimFacts.submit_confirm draw mockRpc Hf) as (m1 & -> & ->).
    cbn [fst snd]. split; [done|]. unfold Claim.confirmedIn. cbn [transactions].
    rewrite lookup_insert_eq. by eexists.
  - unfold executeSendFlow.
    destruct (_ || _); [done|]. destruct (_ && _); [done|].
    destruct (_ || _); [done|]. destruct (_ <? _)%float; [done|].
    destruct (_ <? _)%float; [done|].
    destruct (signTransaction _) as [[signed|]|err]; [|done..].
    destruct (shouldFail (config mockRpc)) eqn:Hf.
    + destruct (ClaimFacts.submit_fails draw mockRpc Hf) as (msg & _ & ->). done.
    + destruct (ClaimFacts.submit_confirm draw mockRpc Hf) as (m1 & -> & ->).
      cbn [fst snd]. intros H. by destruct (H (drawSignature draw)).
  - intros sig. unfold executeSendFlow.
    destruct (_ || _); [done|]. destruct (_ && _); [done|].
    destruct (is_nan _) eqn:N; [done|]. cbn [orb].
    destruct (_ <=? 0)%float eqn:P; [done|].
    destruct (balance <? _)%float eqn:B; [done|].
    destruct (_ <? 0.001)%float eqn:L; [done|].
    destruct (signTransaction _) as [[signed|]|err]; [|done..].
    destruct (shouldFail (config mockRpc)) eqn:Hf.
    + destruct (ClaimFacts.submit_fails draw mockRpc Hf) as (msg & _ & ->). done.
    + destruct (ClaimFacts.submit_confirm draw mockRpc Hf) as (m1 & -> & ->).
      cbn [fst snd]. intros [= <-]. repeat split.
      unfold Claim.confirmedIn. cbn [transactions].
      rewrite lookup_insert_eq. by eexists.
  - intros rest rest'. unfold executeSendFlow. cbn [recipient amount].
    rewrite !(MetaAddressFacts.startsWith_append "sip:"). cbn [negb andb].
    change ("sip:" +:+ ?r) with (String "s" ("ip:" +:+ r)).
    rewrite !(proj2 (String.eqb_neq _ _) (trim_head "s" _ eq_refl)). done.
Qed.

(** A valid transfer is confirmed, and a flow refused for its amount leaves
    the client as it was. *)
Lemma executeSendFlow_accepts_witness :
  fst (executeSendFlow (fun _ => 1%float) (fun tx => Returned (Some tx))
         (mkParams "1" "11111111111111111111111111111111" Transparent None)
         "7xKXtg2CW87d97TXJSDpbD5jBkheTqA83TZRuJosgAsU" 10%float Claim.sampleDraw
         MockRpc.mockRpc)
  = Returned (mkRun Send.Confirmed (Send.mkResult true (Some "5Sig") None))
  /\ snd (executeSendFlow (fun _ => 0%float) (fun tx => Returned (Some tx))
            (mkParams "0" "11111111111111111111111111111111" Transparent None)
            "7xKXtg2CW87d97TXJSDpbD5jBkheTqA83TZRuJosgAsU" 10%float Claim.sampleDraw
            MockRpc.mockRpc)
     = MockRpc.mockRpc.
Proof.
  split.
  - refine (proj1 (proj1
      (executeSendFlow_accepts (fun _ => 1%float) (fun tx => Returned (Some tx))
         (mkParams "1" "11111111111111111111111111111111" Transparent None)
         "7xKXtg2CW87d97TXJSDpbD5jBkheTqA83TZRuJosgAsU" 10%float Claim.sampleDraw
         MockRpc.mockRpc) _ _ _ (replicate 512 x00) eq_refl eq_refl)).
    + vm_compute. reflexivity.
    + vm_compute. reflexivity.
    + vm_compute. reflexivity.
  - refine (proj1 (proj2
      (executeSendFlow_accepts (fun _ => 0%float) (fun tx => Returned (Some tx))
         (mkParams "0" "11111111111111111111111111111111" Transparent None)
         "7xKXtg2CW87d97TXJSDpbD5jBkheTqA83TZRuJosgAsU" 10%float Claim.sampleDraw
         MockRpc.mockRpc)) _).
    intros sig. vm_compute. discriminate.
Defined.

End SendFlowFacts.

(* ------------------------------------------------------------------ *)
(** ** Random hex strings                                              *)
(* ------------------------------------------------------------------ *)

Module RandomHexFacts.
Import Js Hex Security.
Local Open Scope list_scope.

(** Two digits per byte, the ones [bytesToHex] writes. *)
Lemma byte_text (b : byte) :
  padStart 2 "0" (toString16 (N.to_nat (Byte.to_N b)))
  = String (hexDigit (N.to_nat (Byte.to_N b) / 16))
      (String (hexDigit (N.to_nat (Byte.to_N b) mod 16)) "").
Proof. destruct b; vm_compute; reflexivity. Qed.

Lemma join_empty_cons (p : string) (rest : list string) :
  join "" (p :: rest) = p +:+ join "" rest.
Proof. destruct rest as [|q rest]; [by rewrite StringFacts.append_nil_r|done]. Qed.

Lemma hexOfRandomBytes_bytesToHex (randomBytes : list byte) :
  hexOfRandomBytes randomBytes = bytesToHex randomBytes.
Proof.
  unfold hexOfRandomBytes. induction randomBytes as [|b rest IH]; [done|].
  cbn [map bytesToHex]. rewrite join_empty_cons, IH, byte_text. done.
Qed.

(** X28.  [generateRandomHex] of the security utilities writes the random
    bytes it draws exactly as [bytesToHex] does: two lower-case hex digits
    per byte, in order, so twice as many characters as bytes; [hexToBytes]
    reads the text back to the bytes drawn; and a failure of the entropy
    source is passed on. *)
Theorem generateRandomHex_bytesToHex (getRandomBytesAsync : nat -> outcome (list byte))
    (bytes : nat) :
  match getRandomBytesAsync bytes with
  | Returned randomBytes =>
      generateRandomHex getRandomBytesAsync bytes = Returned (bytesToHex randomBytes)
      /\ String.length (bytesToHex randomBytes) = 2 * length randomBytes
      /\ allChars isLowerHexChar (bytesToHex randomBytes) = true
      /\ hexToBytes (bytesToHex randomBytes) = HexOk randomBytes
  | Thrown err => generateRandomHex getRandomBytesAsync bytes = Thrown err
  end.
Proof.
  unfold generateRandomHex. destruct (getRandomBytesAsync bytes) as [bs|err]; [|done].
  cbn [bindO]. rewrite hexOfRandomBytes_bytesToHex. split; [done|].
  split; [apply HexFacts.bytesToHex_length|].
  split; [apply HexFacts.bytesToHex_lowercase|].
  unfold hexToBytes. rewrite HexFacts.bytesToHex_no_marker.
  by rewrite HexFacts.decodePairs_bytesToHex.
Qed.

End RandomHexFacts.
